(** * geolucidate: coordinate grammars and conversion to decimal degrees

    A shallow embedding of [geolucidate/parser.py] and
    [geolucidate/functions.py], with the parts of Python's [re] and
    [decimal] modules that the two files rely on.

    Python strings are sequences of Unicode code points; they are modelled
    as lists of code points. *)

From Stdlib Require Import List NArith ZArith QArith Qround Qabs String Ascii Bool Lia.
Import ListNotations.

Close Scope Q_scope.

Set Implicit Arguments.

Abbreviation length := Datatypes.length.

(** ** Code points and strings *)

Definition char := N.
Definition str := list char.

(** [u "..."] is the Python string with the given ASCII characters. *)
Fixpoint u (s : string) : str :=
  match s with
  | EmptyString => []
  | String a t => N_of_ascii a :: u t
  end.

Definition eqc (c x : char) : bool := N.eqb x c.

Definition in_range (lo hi x : char) : bool := (N.leb lo x && N.leb x hi)%bool.

Fixpoint str_eqb (a b : str) : bool :=
  match a, b with
  | [], [] => true
  | x :: a', y :: b' => (N.eqb x y && str_eqb a' b')%bool
  | _, _ => false
  end.

Module Unicode.

Local Open Scope N_scope.

(** [str.isspace]: the code points stripped by [str.strip] and matched by
    [\s] in a Unicode pattern. *)
Definition isspace (c : char) : bool :=
  (in_range 9 13 c || in_range 28 32 c || eqc 133 c || eqc 160 c
   || eqc 5760 c || in_range 8192 8202 c || eqc 8232 c || eqc 8233 c
   || eqc 8239 c || eqc 8287 c || eqc 12288 c)%bool.

(** The zero digits of the decimal number systems (category Nd, Unicode 14);
    each is followed by its digits one to nine. *)
Definition digit_zeros : list char :=
  [48; 1632; 1776; 1984; 2406; 2534; 2662; 2790; 2918; 3046; 3174; 3302;
   3430; 3558; 3664; 3792; 3872; 4160; 4240; 6112; 6160; 6470; 6608; 6784;
   6800; 6992; 7088; 7232; 7248; 42528; 43216; 43264; 43472; 43504; 43600;
   44016; 65296; 66720; 68912; 69734; 69872; 69942; 70096; 70384; 70736;
   70864; 71248; 71360; 71472; 71904; 72016; 72784; 73040; 73120; 92768;
   92864; 93008; 120782; 120792; 120802; 120812; 120822; 123200; 123632;
   125264; 130032]%N.

(** The value of a decimal digit, [None] for any other code point. *)
Fixpoint digit_in (zeros : list char) (c : char) : option N :=
  match zeros with
  | [] => None
  | z :: zs => if in_range z (z + 9) c then Some (c - z)%N else digit_in zs c
  end.

Definition digit_value (c : char) : option N := digit_in digit_zeros c.

(** [\d] in a Unicode pattern. *)
Definition isdigit (c : char) : bool :=
  match digit_value c with Some _ => true | None => false end.

Definition is_ascii_upper (c : char) : bool := in_range 65 90 c.
Definition is_ascii_lower (c : char) : bool := in_range 97 122 c.

(** The simple lower-case mapping, on the code points whose lower case is an
    ASCII letter; the matcher compares its result with ASCII letters only. *)
Definition tolower (c : char) : char :=
  if is_ascii_upper c then (c + 32)%N
  else if eqc 304 c then 105     (* U+0130 -> i *)
  else if eqc 8490 c then 107    (* U+212A -> k *)
  else c.

(** [sre_compile._ignorecase_fixes], for the ASCII letters. *)
Definition ignorecase_fixes (lo : char) : list char :=
  if eqc 105 lo then [305%N]          (* i, dotless i *)
  else if eqc 115 lo then [383%N]     (* s, long s *)
  else if eqc 107 lo then [8490%N]    (* k, Kelvin sign *)
  else [].

(** [str.upper] on one code point, for the code points whose upper case is an
    ASCII letter and for the uncased ones. *)
Definition toupper (c : char) : char :=
  if is_ascii_lower c then (c - 32)%N
  else if eqc 383 c then 83      (* long s -> S *)
  else if eqc 305 c then 73      (* dotless i -> I *)
  else c.

End Unicode.

(** ** [str.strip] *)

Fixpoint lstrip (s : str) : str :=
  match s with
  | c :: s' => if Unicode.isspace c then lstrip s' else s
  | [] => []
  end.

(** [str.strip()] *)
Definition strip (s : str) : str := rev (lstrip (rev (lstrip s))).

(** ** Decimal arithmetic: the fragment of Python's [decimal] used by the
    conversion

    A finite decimal is a sign, a coefficient and an exponent:
    (-1)^neg * coef * 10^exp. [NaN] is the result of an invalid operation in a
    context that does not trap it. The exponent limits of the contexts
    (Emin = -999999, Emax = 999999) are not modelled. *)

Module Dec.

Inductive decimal : Type :=
| Fin (neg : bool) (coef : N) (exp : Z)
| NaN.

(** The precision of a context; the rounding of both contexts in use is
    ROUND_HALF_EVEN. *)
Definition ExtendedContext : Z := 9.
Definition DefaultContext : Z := 28.

Fixpoint digits_aux (fuel : nat) (n : N) (acc : str) : str :=
  let acc' := (48 + n mod 10)%N :: acc in
  match fuel with
  | 0 => acc'
  | S f => if (n <? 10)%N then acc' else digits_aux f (n / 10)%N acc'
  end.

(** [str(n)] of a natural number: the coefficient as Python stores it. *)
Definition digits (n : N) : str := digits_aux (N.to_nat (N.log2 n)) n [].

Definition ndigits (n : N) : Z := Z.of_nat (length (digits n)).

Definition pow10 (k : Z) : N := (10 ^ Z.to_N k)%N.

(** [c / 10^d] rounded half to even. *)
Definition round_half_even (c : N) (d : Z) : N :=
  let p := pow10 d in
  let q := (c / p)%N in
  let r := (c mod p)%N in
  if (2 * r <? p)%N then q
  else if (p <? 2 * r)%N then (q + 1)%N
  else if N.even q then q else (q + 1)%N.

(** [Decimal._fix]: round to the precision of the context. *)
Definition fix_ (prec : Z) (d : decimal) : decimal :=
  match d with
  | NaN => NaN
  | Fin s c e =>
      let n := ndigits c in
      if (prec <? n)%Z then
        let k := (n - prec)%Z in
        let q := round_half_even c k in
        if (prec <? ndigits q)%Z then Fin s (q / 10)%N (e + k + 1)%Z
        else Fin s q (e + k)%Z
      else d
  end.

Definition signed (s : bool) (c : N) : Z := if s then (- Z.of_N c)%Z else Z.of_N c.

Definition add (prec : Z) (a b : decimal) : decimal :=
  match a, b with
  | Fin s1 c1 e1, Fin s2 c2 e2 =>
      let e := Z.min e1 e2 in
      let z := (signed s1 (c1 * pow10 (e1 - e)) + signed s2 (c2 * pow10 (e2 - e)))%Z in
      let s := if (z =? 0)%Z then (s1 && s2)%bool else (z <? 0)%Z in
      fix_ prec (Fin s (Z.abs_N z) e)
  | _, _ => NaN
  end.

Definition mul (prec : Z) (a b : decimal) : decimal :=
  match a, b with
  | Fin s1 c1 e1, Fin s2 c2 e2 => fix_ prec (Fin (xorb s1 s2) (c1 * c2)%N (e1 + e2)%Z)
  | _, _ => NaN
  end.

(** An exact quotient is brought as close to the ideal exponent as its
    trailing zeros allow. *)
Fixpoint to_ideal (fuel : nat) (c : N) (e : Z) : N * Z :=
  match fuel with
  | 0 => (c, e)
  | S f => if (c mod 10 =? 0)%N then to_ideal f (c / 10)%N (e + 1)%Z else (c, e)
  end.

(** [a / Decimal(k)] for an integer constant [k > 0], the only divisions of
    the program. *)
Definition div_by (prec : Z) (a : decimal) (k : positive) : decimal :=
  match a with
  | NaN => NaN
  | Fin s c e =>
      if (c =? 0)%N then fix_ prec (Fin s 0 e)
      else
        let shift := (ndigits (Npos k) - ndigits c + prec + 1)%Z in
        let num := if (0 <=? shift)%Z then (c * pow10 shift)%N else c in
        let den := if (0 <=? shift)%Z then Npos k else (Npos k * pow10 (- shift))%N in
        let q := (num / den)%N in
        let r := (num mod den)%N in
        if (r =? 0)%N then
          let (q', e') := to_ideal (Z.to_nat shift) q (e - shift)%Z in
          fix_ prec (Fin s q' e')
        else
          fix_ prec (Fin s (if (q mod 5 =? 0)%N then q + 1 else q)%N (e - shift)%Z)
  end.

(** [a > n] for an integer [n]; false when [a] is NaN and the context does
    not trap. *)
Definition gt_int (a : decimal) (n : Z) : bool :=
  match a with
  | NaN => false
  | Fin s c e =>
      if (0 <=? e)%Z then (n <? signed s (c * pow10 e))%Z
      else (n * Z.of_N (pow10 (- e)) <? signed s c)%Z
  end.

(** [a.quantize(q)], rounding half to even: [a] at the exponent of [q];
    invalid when the result would have more digits than the precision. *)
Definition quantize (prec : Z) (a q : decimal) : decimal :=
  match a, q with
  | Fin s c x, Fin _ _ e =>
      if (c =? 0)%N then Fin s 0 e
      else if (prec <? ndigits c + x - e)%Z then NaN
      else
        let c' := if (e <=? x)%Z then (c * pow10 (x - e))%N
                  else round_half_even c (e - x) in
        if (prec <? ndigits c')%Z then NaN else Fin s c' e
  | _, _ => NaN
  end.

Definition zeros (n : nat) : str := repeat 48%N n.

(** [str(d)] *)
Definition to_str (d : decimal) : str :=
  match d with
  | NaN => u "NaN"
  | Fin s c e =>
      let int := digits c in
      let leftdigits := (e + Z.of_nat (length int))%Z in
      let dotplace := if ((e <=? 0) && (-6 <? leftdigits))%Z then leftdigits else 1%Z in
      let intpart :=
        if (dotplace <=? 0)%Z then u "0"
        else if (Z.of_nat (length int) <=? dotplace)%Z
             then int ++ zeros (Z.to_nat dotplace - length int)
             else firstn (Z.to_nat dotplace) int in
      let fracpart :=
        if (dotplace <=? 0)%Z then u "." ++ zeros (Z.to_nat (- dotplace)) ++ int
        else if (Z.of_nat (length int) <=? dotplace)%Z then []
             else u "." ++ skipn (Z.to_nat dotplace) int in
      let exp :=
        if (leftdigits =? dotplace)%Z then []
        else u "E" ++ (if (leftdigits - dotplace <? 0)%Z then u "-" else u "+")
                   ++ digits (Z.abs_N (leftdigits - dotplace)) in
      (if s then u "-" else []) ++ intpart ++ fracpart ++ exp
  end.

Fixpoint span_digits (s : str) : list N * str :=
  match s with
  | c :: s' =>
      match Unicode.digit_value c with
      | Some v => let (ds, r) := span_digits s' in (v :: ds, r)
      | None => ([], s)
      end
  | [] => ([], [])
  end.

Definition number_of (ds : list N) : N := fold_left (fun a d => (10 * a + d)%N) ds 0%N.

Definition parse_sign (s : str) : bool * str :=
  match s with
  | c :: t => if eqc 45%N c then (true, t) else if eqc 43%N c then (false, t) else (false, s)
  | [] => (false, [])
  end.

(** The numeric strings [Decimal(str)] accepts: surrounding white space and
    underscores removed, then a sign, digits with an optional point, and an
    optional exponent. The literals for infinities and NaN are left out: no
    numeric group of the grammars can hold one. [None] is a conversion
    syntax error. *)
Definition of_str (s : str) : option decimal :=
  let s := filter (fun c => negb (eqc 95%N c)) (strip s) in
  let (neg, s) := parse_sign s in
  let (ip, s) := span_digits s in
  let (fp, s) := match s with
                 | c :: t => if eqc 46%N c then span_digits t else ([], s)
                 | [] => ([], [])
                 end in
  match ip ++ fp with
  | [] => None
  | ds =>
      let e := (- Z.of_nat (length fp))%Z in
      match s with
      | [] => Some (Fin neg (number_of ds) e)
      | c :: t =>
          if (eqc 101%N c || eqc 69%N c)%bool then
            let (eneg, t) := parse_sign t in
            match span_digits t with
            | (x :: xs, []) =>
                Some (Fin neg (number_of ds) (e + signed eneg (number_of (x :: xs)))%Z)
            | _ => None
            end
          else None
      end
  end.

(** *** Predicates on decimals, for the statements below *)

(** [below d B]: the magnitude of [d] is at most the integer [B]. *)
Definition below (d : decimal) (B : N) : Prop :=
  match d with
  | Fin _ c e => (c * pow10 e <= B * pow10 (- e))%N
  | NaN => False
  end.

(** [rounds_half_even c x c' e]: the coefficient [c'] at the exponent [e] is
    the coefficient [c] at the exponent [x] rounded half to even: the same
    value when [e <= x], otherwise within half a unit of it, and even at a
    tie. *)
Definition rounds_half_even (c : N) (x : Z) (c' : N) (e : Z) : Prop :=
  if (e <=? x)%Z then c' = (c * pow10 (x - e))%N
  else (2 * (c' * pow10 (e - x)) <= 2 * c + pow10 (e - x)
        /\ 2 * c <= 2 * (c' * pow10 (e - x)) + pow10 (e - x)
        /\ (2 * (c' * pow10 (e - x)) = 2 * c + pow10 (e - x)
            \/ 2 * c = 2 * (c' * pow10 (e - x)) + pow10 (e - x) -> N.even c' = true))%N.

Definition ascii_digit (c : char) : bool := in_range 48%N 57%N c.

(** A numeral in fixed-point notation with exactly [p] digits after the
    point (and no point when [p] is 0). *)
Definition fixed_point (p : nat) (s : str) : Prop :=
  exists sign ip fp,
    s = sign ++ ip ++ match p with O => [] | S _ => 46%N :: fp end
    /\ (sign = [] \/ sign = [45%N])
    /\ ip <> [] /\ forallb ascii_digit ip = true
    /\ forallb ascii_digit fp = true /\ length fp = p.

End Dec.

(** ** Regular expressions: the fragment of Python's [re] used by the parser

    Matching is by backtracking with ordered choice and greedy quantifiers.
    Only named groups are kept as captures: the unnamed ones are never read,
    neither by a conditional nor by a caller. Quantifiers with a range occur
    in the patterns over one-character classes only. *)

Module Re.

Inductive re : Type :=
| Eps
| Bol                                     (* ^ , without MULTILINE *)
| Eol                                     (* $ , without MULTILINE *)
| Chr (p : char -> bool)                  (* one character of a class *)
| Seq (a b : re)
| Alt (a b : re)
| Opt (a : re)                            (* greedy ? *)
| Rep (lo : nat) (hi : option nat) (p : char -> bool)   (* greedy {lo,hi} *)
| Grp (g : string) (a : re)               (* (?P<g>...) *)
| Cond (g : string) (yes no : re).        (* (?(g)yes|no) *)

Record mstate : Type := MState {
  pos : nat;                        (* offset in the subject string *)
  rest : str;                       (* the subject from [pos] on *)
  caps : list (string * str)        (* the groups set so far, latest first *)
}.

Fixpoint lookup (g : string) (c : list (string * str)) : option str :=
  match c with
  | [] => None
  | (h, v) :: t => if String.eqb g h then Some v else lookup g t
  end.

Definition isset (g : string) (c : list (string * str)) : bool :=
  match lookup g c with Some _ => true | None => false end.

Definition orelse {A} (x y : option A) : option A :=
  match x with Some _ => x | None => y end.

Definition more (hi : option nat) : bool :=
  match hi with None => true | Some 0 => false | Some (S _) => true end.

Definition less (hi : option nat) : option nat :=
  match hi with None => None | Some n => Some (Nat.pred n) end.

Section Matcher.
Variable A : Type.

(** A greedy repeat of a one-character class: take as many as allowed, then
    give back one at a time. *)
Fixpoint rep (p : char -> bool) (lo : nat) (hi : option nat)
    (k : mstate -> option A) (n : nat) (s : str) (c : list (string * str))
    : option A :=
  let stop := match lo with 0 => k (MState n s c) | S _ => None end in
  match s with
  | x :: s' =>
      if (p x && more hi)%bool
      then orelse (rep p (Nat.pred lo) (less hi) k (S n) s' c) stop
      else stop
  | [] => stop
  end.

Fixpoint run (r : re) (k : mstate -> option A) (st : mstate) : option A :=
  match r with
  | Eps => k st
  | Bol => match pos st with 0 => k st | S _ => None end
  | Eol => match rest st with
           | [] => k st
           | [x] => if eqc 10%N x then k st else None
           | _ => None
           end
  | Chr p => match rest st with
             | x :: s' => if p x then k (MState (S (pos st)) s' (caps st)) else None
             | [] => None
             end
  | Seq a b => run a (run b k) st
  | Alt a b => orelse (run a k st) (run b k st)
  | Opt a => orelse (run a k st) (k st)
  | Rep lo hi p => rep p lo hi k (pos st) (rest st) (caps st)
  | Grp g a =>
      run a (fun st' =>
               k (MState (pos st') (rest st')
                    ((g, firstn (pos st' - pos st) (rest st)) :: caps st')))
          st
  | Cond g yes no => if isset g (caps st) then run yes k st else run no k st
  end.

End Matcher.

(** A match object: its span and its groups. *)
Record match_obj : Type := Match {
  m_start : nat;
  m_end : nat;
  m_group0 : str;
  m_groups : list (string * str)
}.

(** [groupdict()[g]]: [None] for a group that took no part in the match. *)
Definition groupdict (m : match_obj) (g : string) : option str :=
  lookup g (m_groups m).

Definition match_at (r : re) (n : nat) (s : str) : option match_obj :=
  run r (fun st => Some (Match n (pos st) (firstn (pos st - n) s) (caps st)))
      (MState n s []).

(** [pattern.match(string)] *)
Definition re_match (r : re) (s : str) : option match_obj := match_at r 0 s.

(** [pattern.finditer(string)]: the leftmost match from each position on,
    the scan going on where the last match ended. [skip] counts the
    characters still covered by the last match. *)
Fixpoint finditer_from (r : re) (n : nat) (s : str) (skip : nat)
    : list match_obj :=
  match skip with
  | S k => match s with
           | [] => []
           | _ :: s' => finditer_from r (S n) s' k
           end
  | 0 =>
      match match_at r n s with
      | Some m =>
          m :: match s with
               | [] => []
               | _ :: s' => finditer_from r (S n) s' (Nat.pred (m_end m - n))
               end
      | None => match s with
                | [] => []
                | _ :: s' => finditer_from r (S n) s' 0
                end
      end
  end.

Definition finditer (r : re) (s : str) : list match_obj := finditer_from r 0 s 0.

(** Case-insensitive literal of a Unicode pattern. *)
Definition ci (c x : char) : bool :=
  if (Unicode.is_ascii_upper c || Unicode.is_ascii_lower c)%bool
  then let lo := Unicode.tolower c in
       existsb (N.eqb (Unicode.tolower x)) (lo :: Unicode.ignorecase_fixes lo)
  else eqc c x.

Fixpoint lit_of (s : str) : re :=
  match s with
  | [] => Eps
  | [c] => Chr (ci c)
  | c :: s' => Seq (Chr (ci c)) (lit_of s')
  end.

Definition lit (s : string) : re := lit_of (u s).

Definition any_of (s : string) (x : char) : bool := existsb (fun c => ci c x) (u s).

(** *** The paths of the matcher

    [exec r st st'] holds when the pattern [r] can take the matcher from the
    state [st] to the state [st']: one path through the pattern, whatever its
    priority. The matcher [run] follows the first path on which the rest of
    the pattern succeeds as well. *)

Definition within (hi : option nat) (n : nat) : Prop :=
  match hi with
  | None => True
  | Some h => n <= h
  end.

Inductive exec : re -> mstate -> mstate -> Prop :=
| exec_Eps st : exec Eps st st
| exec_Bol st : pos st = 0 -> exec Bol st st
| exec_Eol st : rest st = [] \/ rest st = [10%N] -> exec Eol st st
| exec_Chr p x n s c :
    p x = true -> exec (Chr p) (MState n (x :: s) c) (MState (S n) s c)
| exec_Seq a b st1 st2 st3 :
    exec a st1 st2 -> exec b st2 st3 -> exec (Seq a b) st1 st3
| exec_Alt_l a b st st' : exec a st st' -> exec (Alt a b) st st'
| exec_Alt_r a b st st' : exec b st st' -> exec (Alt a b) st st'
| exec_Opt_some a st st' : exec a st st' -> exec (Opt a) st st'
| exec_Opt_none a st : exec (Opt a) st st
| exec_Rep lo hi p w n s c :
    forallb p w = true -> lo <= length w -> within hi (length w) ->
    exec (Rep lo hi p) (MState n (w ++ s) c) (MState (n + length w) s c)
| exec_Grp g a st st' :
    exec a st st' ->
    exec (Grp g a) st
         (MState (pos st') (rest st')
                 ((g, firstn (pos st' - pos st) (rest st)) :: caps st'))
| exec_Cond_yes g yes no st st' :
    isset g (caps st) = true -> exec yes st st' -> exec (Cond g yes no) st st'
| exec_Cond_no g yes no st st' :
    isset g (caps st) = false -> exec no st st' -> exec (Cond g yes no) st st'.

(** The named groups of a pattern. *)
Fixpoint groups (r : re) : list string :=
  match r with
  | Eps | Bol | Eol | Chr _ | Rep _ _ _ => []
  | Seq a b | Alt a b => groups a ++ groups b
  | Opt a => groups a
  | Grp g a => g :: groups a
  | Cond _ yes no => groups yes ++ groups no
  end.

Definition mentions (g : string) (r : re) : bool :=
  existsb (String.eqb g) (groups r).

(** [sets g r]: every path of [r] sets the group [g]. *)
Fixpoint sets (g : string) (r : re) : bool :=
  match r with
  | Eps | Bol | Eol | Chr _ | Rep _ _ _ | Opt _ => false
  | Seq a b => (sets g a || sets g b)%bool
  | Alt a b => (sets g a && sets g b)%bool
  | Grp h a => (String.eqb g h || sets g a)%bool
  | Cond _ yes no => (sets g yes && sets g no)%bool
  end.

End Re.

(** ** geolucidate/parser.py *)

Module Parser.
Import Re.

Local Infix ";;" := Seq (at level 61, right associativity).
Local Infix "<|>" := Alt (at level 62, right associativity).

Definition sp : re := lit " ".
Definition dot : re := lit ".".
Definition dquote : re := Chr (eqc 34%N).
Definition deg_sign : re := Chr (eqc 186%N) <|> Chr (eqc 176%N).   (* º | ° *)
Definition digit (lo hi : string) : re :=
  Chr (fun x => existsb (fun a => existsb (fun b => in_range a b x) (u hi)) (u lo)).
Definition ws : re := Chr Unicode.isspace.                            (* \s *)
Definition digits1 : re := Rep 1 None Unicode.isdigit.                (* \d+ *)
Definition nondigit : re := Chr (fun x => negb (Unicode.isdigit x)).  (* [^\d] *)

(** ((1(([0-7][0-9]|80))|(0?[0-9][0-9]))) *)
Definition long_degrees : re :=
  (lit "1" ;; ((digit "0" "7" ;; digit "0" "9") <|> lit "80"))
  <|> (Opt (lit "0") ;; digit "0" "9" ;; digit "0" "9").

Definition decimal_degree_re : re :=
  Bol ;;
  Opt (lit "(") ;;
  Opt (Grp "latdir" (lit "NORTH" <|> lit "SOUTH" <|> Chr (any_of "NS-"))) ;; Opt ws ;;
  Grp "latitude"
    (((digit "0" "8" ;; digit "0" "9") <|> lit "90") ;;
     Opt (Grp "latpoint" dot) ;;
     Cond "latpoint" digits1 nondigit) ;; Opt ws ;;
  Opt (lit "degrees" <|> Chr (eqc 176%N)) ;; Opt ws ;;
  Opt (Grp "latdir2" (lit "NORTH" <|> lit "SOUTH" <|> Chr (any_of "NS"))) ;;
  Opt (Rep 1 None (fun x => (Unicode.isspace x || eqc 44%N x)%bool)) ;;
  Opt (Grp "longdir" (lit "EAST" <|> lit "WEST" <|> Chr (any_of "EW-"))) ;; Opt ws ;;
  Grp "longitude"
    (long_degrees ;;
     Opt (Grp "longpoint" dot) ;;
     Cond "longpoint" digits1 nondigit) ;; Opt ws ;;
  Opt (lit "degrees" <|> Chr (eqc 176%N)) ;; Opt ws ;;
  Opt (Grp "longdir2" (lit "EAST" <|> lit "WEST" <|> Chr (any_of "EW"))) ;;
  Opt (lit ")") ;;
  Eol.

(** The optional mark after the minutes: a space or, if there was a degree
    mark before, an apostrophe, a double quote or the word MINUTES with an
    optional comma, and an optional space. *)
Definition minutes_mark : re :=
  Opt (sp <|> Cond "degmark"
                ((lit "'" <|> dquote <|> (lit " MINUTES" ;; Opt (lit ","))) ;; Opt sp)
                Eps).

(** ((?(degpd)\.?)(?P<sec>(\d{1,2}(\.\d+)?))) | (?P<decsec>\.\d{1,3}) , optional *)
Definition seconds (sec decsec : string) : re :=
  Opt ((Cond "degpd" (Opt dot) Eps ;;
        Grp sec (Rep 1 (Some 2) Unicode.isdigit ;; Opt (dot ;; digits1)))
       <|> Grp decsec (dot ;; Rep 1 (Some 3) Unicode.isdigit)).

(** If there was a degree mark before: an optional double quote, apostrophe
    or the word SECONDS between spaces. *)
Definition seconds_mark : re :=
  Cond "degmark" (Opt (dquote <|> lit "'" <|> lit " SECONDS ")) Eps.

Definition degree_min_sec_re : re :=
  Bol ;;
  Opt (lit "(") ;;
  (* Latitude direction, first position: one of N, S, NORTH, SOUTH *)
  Opt ((Grp "latdir" (lit "NORTH" <|> lit "SOUTH" <|> Chr (any_of "NS")) ;; Opt sp)
       <|> Grp "latsign" (lit "-")) ;;
  (* Latitude degrees: two digits 0-90 *)
  Grp "latdeg" ((Opt (digit "0" "8") ;; digit "0" "9") <|> lit "90") ;;
  (* Optional space, degree mark, period, or word separating degrees and minutes *)
  Opt (sp <|> Grp "degmark"
                ((Opt sp ;; deg_sign ;; Opt sp)
                 <|> Grp "degpd" dot <|> lit "-" <|> lit " DEGREES, ")) ;;
  Opt (Grp "latminsec"
         ((* Latitude minutes: two digits 0-59 *)
          Grp "latmin" (Opt (digit "0" "5") ;; digit "0" "9") ;;
          minutes_mark ;;
          seconds "latsec" "latdecsec" ;;
          seconds_mark)) ;;
  (* Latitude direction, second position, optionally preceded by a space *)
  Opt sp ;; Opt (Grp "latdir2" (lit "NORTH" <|> lit "SOUTH" <|> Chr (any_of "NS"))) ;;
  (* Latitude/longitude delimiter: space, forward slash, comma, or none *)
  Opt ((Opt sp ;; Chr (fun x => (eqc 32%N x || eqc 47%N x)%bool) ;; Opt sp) <|> lit ", ") ;;
  (* Longitude direction, first position: one of E, W, EAST, WEST *)
  (Cond "latdir"
     (Grp "longdir" (lit "EAST" <|> lit "WEST" <|> Chr (any_of "EW")) ;; Opt sp) Eps
   <|> Opt (Grp "longsign" (lit "-"))) ;;
  (* Longitude degrees: two or three digits *)
  Grp "longdeg" long_degrees ;;
  (* If there was a degree mark before, look for another one here *)
  Opt (sp <|> Cond "degmark"
                ((Opt sp ;; deg_sign ;; Opt sp) <|> dot <|> lit "-" <|> lit " DEGREES, ")
                Eps) ;;
  (* Only look for minutes and seconds in the longitude if they were there in
     the latitude *)
  Cond "latminsec"
    (Grp "longminsec"
       (Grp "longmin" (Opt (digit "0" "5") ;; digit "0" "9") ;;
        minutes_mark ;;
        seconds "longsec" "longdecsec") ;;
     seconds_mark)
    Eps ;;
  (* Longitude direction, second position: optionally preceded by a space *)
  Cond "latdir2"
    (Opt sp ;; Grp "longdir2" (lit "EAST" <|> lit "WEST" <|> Chr (any_of "EW"))) Eps ;;
  Opt (lit ")") ;;
  Eol.

End Parser.

(** ** geolucidate/functions.py *)

(** Python's [x or y] on values that are a string or [None]. *)
Definition py_or (x y : option str) : option str :=
  match x with
  | Some (_ :: _) => x
  | _ => y
  end.

Definition truthy (x : option str) : bool :=
  match x with Some (_ :: _) => true | _ => false end.

(** [s.upper()[0]] of a non-empty string. *)
Definition upper0 (s : str) : str :=
  match s with
  | c :: _ => [Unicode.toupper c]
  | [] => []
  end.

(** [re.sub] of a pattern that is a class of single characters. *)
Definition sub_chars (cls : list char) (repl : char) (s : str) : str :=
  map (fun c => if existsb (N.eqb c) cls then repl else c) s.

(** Modelled from the spec: [MINUTE_CHARACTERS_RE] of [geolucidate.constants],
    which is not part of the sources at hand. The minute glyphs are the
    apostrophe, the prime U+2032, the grave accent (backtick) and the acute
    accent; the pattern is the class of these single characters. *)
Definition MINUTE_CHARACTERS : list char := [39; 8242; 96; 180]%N.

(** Modelled from the spec: [SECOND_CHARACTERS_RE] of [geolucidate.constants],
    which is not part of the sources at hand. The second glyphs are the
    double quote, the double prime U+2033 and the curly double quotes; the
    pattern is the class of these single characters. *)
Definition SECOND_CHARACTERS : list char := [34; 8243; 8220; 8221]%N.

Definition normalize_with (minute second : list char) (s : str) : str :=
  sub_chars second 34%N (sub_chars minute 39%N (strip s)).

Definition _normalize_string (string : str) : str :=
  normalize_with MINUTE_CHARACTERS SECOND_CHARACTERS string.

(** The list returned by [_cleanup], in its order. *)
Record fields : Type := Fields {
  f_latdir : option str;
  f_latdeg : option str;
  f_latmin : str;
  f_latsec : str;
  f_longdir : option str;
  f_longdeg : option str;
  f_longmin : str;
  f_longsec : str
}.

Definition or_default (x : option str) (d : string) : str :=
  match py_or x (Some (u d)) with Some v => v | None => u d end.

Definition _cleanup (parts : string -> option str) : fields :=
  let latsign := parts "latsign"%string in
  let longsign := parts "longsign"%string in
  let latdir := py_or (parts "latdir"%string) (parts "latdir2"%string) in
  let longdir := py_or (parts "longdir"%string) (parts "longdir2"%string) in
  let latdir :=
    match latdir with
    | Some (c :: t) => Some (upper0 (c :: t))
    | _ => match latsign with
           | Some v => if str_eqb v (u "-") then Some (u "S") else latdir
           | None => latdir
           end
    end in
  let longdir :=
    match longdir with
    | Some (c :: t) => Some (upper0 (c :: t))
    | _ => match longsign with
           | Some v => if str_eqb v (u "-") then Some (u "W") else longdir
           | None => longdir
           end
    end in
  let latdeg := parts "latdeg"%string in
  let longdeg := parts "longdeg"%string in
  let latmin := or_default (parts "latmin"%string) "00" in
  let longmin := or_default (parts "longmin"%string) "00" in
  let latdecsec := parts "latdecsec"%string in
  let longdecsec := parts "longdecsec"%string in
  if (truthy latdecsec && truthy longdecsec)%bool then
    Fields latdir latdeg (latmin ++ or_default latdecsec "")
           (u "00")
           longdir longdeg (longmin ++ or_default longdecsec "")
           (u "00")
  else
    Fields latdir latdeg latmin (or_default (parts "latsec"%string) "00")
           longdir longdeg longmin (or_default (parts "longsec"%string) "00").

Inductive exn : Type :=
| AttributeError        (* an attribute of None *)
| TypeError             (* Decimal(None) *)
| InvalidOperation.     (* decimal.InvalidOperation, when the context traps it *)

Inductive result (A : Type) : Type :=
| Ok (a : A)
| Raise (e : exn).

Arguments Ok {A} a.
Arguments Raise {A} e.

Definition bind {A B} (x : result A) (f : A -> result B) : result B :=
  match x with
  | Ok a => f a
  | Raise e => Raise e
  end.

Notation "x <- a ;; b" := (bind a (fun x => b))
  (at level 100, a at next level, right associativity).

(** [Decimal(v)] under [ExtendedContext], which traps nothing: a string that
    is no numeral gives NaN. *)
Definition Decimal_untrapped (v : option str) : result Dec.decimal :=
  match v with
  | None => Raise TypeError
  | Some s => match Dec.of_str s with
              | Some d => Ok d
              | None => Ok Dec.NaN
              end
  end.

(** [Decimal(v)] under the default context, which traps InvalidOperation. *)
Definition Decimal_trapped (v : option str) : result Dec.decimal :=
  match v with
  | None => Raise TypeError
  | Some s => match Dec.of_str s with
              | Some d => Ok d
              | None => Raise InvalidOperation
              end
  end.

Definition minus_one : Dec.decimal := Dec.Fin true 1 0.

Definition is_str (x : option str) (s : string) : bool :=
  match x with
  | Some v => str_eqb v (u s)
  | None => false
  end.

(** The precision chosen at the head of [_convert_to_lat_lng], from the
    field strings. *)
Definition precision_of (latmin latsec longmin longsec : str) : Dec.decimal :=
  if (negb (str_eqb latsec (u "00")) || negb (str_eqb longsec (u "00")))%bool
  then Dec.Fin false 1 (-6)                (* Decimal('0.000001') *)
  else if (negb (str_eqb latmin (u "00")) || negb (str_eqb longmin (u "00")))%bool
  then Dec.Fin false 1 (-3)                (* Decimal('0.001') *)
  else Dec.Fin false 1 0.                  (* Decimal('1') *)

Definition _convert_to_lat_lng
    (latdir latdeg : option str) (latmin latsec : str)
    (longdir longdeg : option str) (longmin longsec : str)
    : result (str * str) :=
  let ctx := Dec.ExtendedContext in
  let precision := precision_of latmin latsec longmin longsec in
  latitude <- Decimal_untrapped latdeg ;;
  latmin <- Decimal_untrapped (Some latmin) ;;
  latsec <- Decimal_untrapped (Some latsec) ;;
  longitude <- Decimal_untrapped longdeg ;;
  longmin <- Decimal_untrapped (Some longmin) ;;
  longsec <- Decimal_untrapped (Some longsec) ;;
  let (latitude, longitude) :=
    if (Dec.gt_int latsec 59 || Dec.gt_int longsec 59)%bool then
      (* Assume that 'seconds' greater than 59 are actually a decimal
         fraction of minutes *)
      (Dec.add ctx latitude
         (Dec.div_by ctx (Dec.add ctx latmin (Dec.div_by ctx latsec 100)) 60),
       Dec.add ctx longitude
         (Dec.div_by ctx (Dec.add ctx longmin (Dec.div_by ctx longsec 100)) 60))
    else
      (Dec.add ctx latitude
         (Dec.div_by ctx (Dec.add ctx latmin (Dec.div_by ctx latsec 60)) 60),
       Dec.add ctx longitude
         (Dec.div_by ctx (Dec.add ctx longmin (Dec.div_by ctx longsec 60)) 60)) in
  let latitude :=
    if is_str latdir "S" then Dec.mul ctx latitude minus_one else latitude in
  let longitude :=
    if is_str longdir "W" then Dec.mul ctx longitude minus_one else longitude in
  let lat_str := Dec.to_str (Dec.quantize ctx latitude precision) in
  let long_str := Dec.to_str (Dec.quantize ctx longitude precision) in
  Ok (lat_str, long_str).

(** [_convert_to_lat_lng] applied to the unpacked list of [_cleanup]. *)
Definition convert_fields (f : fields) : result (str * str) :=
  _convert_to_lat_lng (f_latdir f) (f_latdeg f) (f_latmin f) (f_latsec f)
                      (f_longdir f) (f_longdeg f) (f_longmin f) (f_longsec f).

Definition _convert_signs (parts : string -> option str) : result (str * str) :=
  let ctx := Dec.DefaultContext in
  let latdir :=
    upper0 (or_default (py_or (parts "latdir"%string) (parts "latdir2"%string)) "N") in
  let longdir :=
    upper0 (or_default (py_or (parts "longdir"%string) (parts "longdir2"%string)) "S") in
  latitude <- Decimal_trapped (parts "latitude"%string) ;;
  longitude <- Decimal_trapped (parts "longitude"%string) ;;
  let latitude :=
    if (str_eqb latdir (u "S") || str_eqb latdir (u "-"))%bool
    then Dec.mul ctx latitude minus_one else latitude in
  let longitude :=
    if (str_eqb longdir (u "W") || str_eqb longdir (u "-"))%bool
    then Dec.mul ctx longitude minus_one else longitude in
  Ok (Dec.to_str latitude, Dec.to_str longitude).

Definition retrieve_lat_long (string : str) : result (str * str) :=
  (* No conversion needed: check if is decimal degree format *)
  match Re.re_match Parser.decimal_degree_re string with
  | Some m => _convert_signs (Re.groupdict m)
  | None =>
      (* It's a degree/minute/second format *)
      let string := _normalize_string string in
      match Re.re_match Parser.degree_min_sec_re string with
      | Some m => convert_fields (_cleanup (Re.groupdict m))
      | None => Raise AttributeError
      end
  end.

(** Modelled from the spec: [geolucidate.links.tools.MapLink] is not part of
    the sources at hand; it holds the matched text and the coordinate pair. *)
Record MapLink : Type := mkMapLink {
  original_string : str;
  latitude : str;
  longitude : str
}.

Section Replacements.
Variable R : Type.
Variable sub_function : MapLink -> R.

Fixpoint substitute (ms : list Re.match_obj) : result (list (Re.match_obj * R)) :=
  match ms with
  | [] => Ok []
  | m :: ms' =>
      c <- convert_fields (_cleanup (Re.groupdict m)) ;;
      substitutions <- substitute ms' ;;
      Ok ((m, sub_function (mkMapLink (Re.m_group0 m) (fst c) (snd c))) :: substitutions)
  end.

(** The dictionary is the list of its items, in insertion order. *)
Definition get_replacements (string : str) : result (list (Re.match_obj * R)) :=
  let string := _normalize_string string in
  let matches := Re.finditer Parser.degree_min_sec_re string in
  substitute matches.

End Replacements.

(** [pattern.sub(repl, string)] with a callable [repl]: the scan is the one
    of [finditer]; the text between the matches is kept and each match gives
    way to what [repl] returns for it. An exception of [repl] ends the
    scan. *)
Fixpoint sub_from (r : Re.re) (repl : Re.match_obj -> result str)
    (n : nat) (s : str) (skip : nat) : result str :=
  match skip with
  | S k => match s with
           | [] => Ok []
           | _ :: s' => sub_from r repl (S n) s' k
           end
  | 0 =>
      match Re.match_at r n s with
      | Some m =>
          item <- repl m ;;
          filled <- match s with
                    | [] => Ok []
                    | x :: s' =>
                        match Re.m_end m - n with
                        | 0 => tail <- sub_from r repl (S n) s' 0 ;; Ok (x :: tail)
                        | S k => sub_from r repl (S n) s' k
                        end
                    end ;;
          Ok (item ++ filled)
      | None => match s with
                | [] => Ok []
                | x :: s' => tail <- sub_from r repl (S n) s' 0 ;; Ok (x :: tail)
                end
      end
  end.

Definition re_sub (r : Re.re) (repl : Re.match_obj -> result str) (s : str)
    : result str :=
  sub_from r repl 0 s 0.

Section Replace.
Variable sub_function : MapLink -> str.

Definition do_replace (m : Re.match_obj) : result str :=
  let original_string := Re.m_group0 m in
  c <- convert_fields (_cleanup (Re.groupdict m)) ;;
  Ok (sub_function (mkMapLink original_string (fst c) (snd c))).

Definition replace (string : str) : result str :=
  let string := _normalize_string string in
  re_sub Parser.degree_min_sec_re do_replace string.

End Replace.

(** The loop in the doctest of [get_replacements], which writes each link
    over the span of its match in [out], the spans shifted by [offset]:
    [out[start:end] = link]. *)
Fixpoint apply_replacements (replacements : list (Re.match_obj * str))
    (out : str) (offset : Z) : str :=
  match replacements with
  | [] => out
  | (m, link) :: replacements' =>
      let start := Z.to_nat (Z.of_nat (Re.m_start m) + offset) in
      let end_ := Z.to_nat (Z.of_nat (Re.m_end m) + offset) in
      apply_replacements replacements'
        (firstn start out ++ link ++ skipn end_ out)
        (offset + (Z.of_nat (length link) - Z.of_nat (length (Re.m_group0 m))))
  end.

(** [all_re] of parser.py *)
Definition all_re : list Re.re :=
  [Parser.decimal_degree_re; Parser.degree_min_sec_re].

(** ** Devices of the statements about the grammars *)

(** *** Which groups a path can set

    [outcomes gs r v] lists, for a path through [r] that starts with the
    groups [v] set, the sets of groups of [gs] that can be set at its end.
    A set of groups is the list of its members in the order of [gs]; a
    conditional on a group outside [gs] is followed on both sides. *)

Module Flow.
Import Re.

Definition mem (g : string) (v : list string) : bool := existsb (String.eqb g) v.

(** Lists of sets of groups, without repetition. *)
Fixpoint val_eqb (v w : list string) : bool :=
  match v, w with
  | [], [] => true
  | g :: v', h :: w' => (String.eqb g h && val_eqb v' w')%bool
  | _, _ => false
  end.

Definition insert (v : list string) (vs : list (list string)) : list (list string) :=
  if existsb (val_eqb v) vs then vs else v :: vs.

Definition union (a b : list (list string)) : list (list string) :=
  fold_right insert b a.

Section Tracked.
Variable gs : list string.

Definition set_group (g : string) (v : list string) : list string :=
  filter (fun h => (String.eqb h g || mem h v)%bool) gs.

Fixpoint outcomes (r : re) (v : list string) : list (list string) :=
  match r with
  | Eps | Bol | Eol | Chr _ | Rep _ _ _ => [v]
  | Seq a b => fold_right (fun v' acc => union (outcomes b v') acc) [] (outcomes a v)
  | Alt a b => union (outcomes a v) (outcomes b v)
  | Opt a => union (outcomes a v) [v]
  | Grp g a => fold_right (fun v' acc => insert (set_group g v') acc) [] (outcomes a v)
  | Cond g yes no =>
      if mem g gs then (if mem g v then outcomes yes v else outcomes no v)
      else union (outcomes yes v) (outcomes no v)
  end.

End Tracked.

(** The valuation [v] tells which of the groups [gs] are set in [c]. *)
Definition agrees (gs : list string) (c : list (string * str)) (v : list string) : Prop :=
  forall g, mem g gs = true -> isset g c = mem g v.

End Flow.

(** The groups of the degree-minute-second grammar. *)
Definition dms_groups : list string := Re.groups Parser.degree_min_sec_re.

(** [match.group(g) is not None] *)
Definition took_part (m : Re.match_obj) (g : string) : bool :=
  Re.isset g (Re.m_groups m).

(** *** What a group can hold *)

(** The words of a pattern: what a path through it can consume, whatever
    the groups set before. *)
Fixpoint words (r : Re.re) (w : str) : Prop :=
  match r with
  | Re.Eps | Re.Bol | Re.Eol => w = []
  | Re.Chr p => exists x, w = [x] /\ p x = true
  | Re.Seq a b => exists w1 w2, w = w1 ++ w2 /\ words a w1 /\ words b w2
  | Re.Alt a b => words a w \/ words b w
  | Re.Opt a => words a w \/ w = []
  | Re.Rep lo hi p => forallb p w = true /\ lo <= length w /\ Re.within hi (length w)
  | Re.Grp _ a => words a w
  | Re.Cond _ yes no => words yes w \/ words no w
  end.

(** [captures g P r]: whatever a group named [g] of the pattern [r] can
    hold satisfies [P]. *)
Fixpoint captures (g : string) (P : str -> Prop) (r : Re.re) : Prop :=
  match r with
  | Re.Eps | Re.Bol | Re.Eol | Re.Chr _ | Re.Rep _ _ _ => True
  | Re.Seq a b | Re.Alt a b => captures g P a /\ captures g P b
  | Re.Opt a => captures g P a
  | Re.Grp h a => (String.eqb g h = true -> forall w, words a w -> P w) /\ captures g P a
  | Re.Cond _ yes no => captures g P yes /\ captures g P no
  end.

(** Where the decimal digits lie. *)
Definition digit_block (z : char) : bool :=
  (N.eqb z 48 || (1632 <=? z) && (z <=? 4240) || (6112 <=? z) && (z <=? 7248)
   || (42528 <=? z))%N%bool.

(** A character of a numeral without sign and exponent. *)
Definition plain (c : char) : bool := (Unicode.isdigit c || eqc 46%N c)%bool.

(** The values of a string of digits. *)
Definition values (ds : str) : list N := fst (Dec.span_digits ds).

(** A numeral of digits alone, of a value up to [B]. *)
Definition whole (B : N) (w : str) : Prop :=
  w <> [] /\ forallb Unicode.isdigit w = true /\ (Dec.number_of (values w) <= B)%N.

(** A point and digits. *)
Definition fraction (w : str) : Prop :=
  exists fp, w = 46%N :: fp /\ forallb Unicode.isdigit fp = true.

(** One or two digits, then possibly a point and digits. *)
Definition seconds_numeral (w : str) : Prop :=
  exists ip t, w = ip ++ t /\ whole 99 ip /\ (t = [] \/ fraction t).

(** A word whose first letter is [a] or [b] in upper case. *)
Definition direction (a b : char) (w : str) : Prop :=
  exists c t, w = c :: t /\ (Unicode.toupper c = a \/ Unicode.toupper c = b).

(** A numeral without sign, of a magnitude up to [B]. *)
Definition numeral (B : N) (w : str) : Prop :=
  exists c e, Dec.of_str w = Some (Dec.Fin false c e) /\ Dec.below (Dec.Fin false c e) B.

(** *** Anchors *)

(** The pattern begins with the anchor for the start of the text. *)
Definition starts_at_start (r : Re.re) : bool :=
  match r with
  | Re.Seq Re.Bol _ => true
  | _ => false
  end.

(** The pattern ends with the anchor for the end of the text. *)
Fixpoint ends_at_end (r : Re.re) : bool :=
  match r with
  | Re.Eol => true
  | Re.Seq _ b => ends_at_end b
  | _ => false
  end.

(** *** Signs *)

(** A finite decimal without sign whose coefficient fits the precision. *)
Definition settled (prec : Z) (d : Dec.decimal) : Prop :=
  match d with
  | Dec.Fin s c _ => s = false /\ (Dec.ndigits c <= prec)%Z
  | Dec.NaN => False
  end.

(** The decimal with the other sign. *)
Definition negated (d : Dec.decimal) : Dec.decimal :=
  match d with
  | Dec.Fin s c e => Dec.Fin (negb s) c e
  | Dec.NaN => Dec.NaN
  end.

(** The string begins with a digit. *)
Definition unsigned (s : str) : Prop :=
  match s with
  | c :: _ => Dec.ascii_digit c = true
  | [] => False
  end.

(** *** Decimals *)

(** The number of characters after the first point of a string. *)
Fixpoint decimals (w : str) : nat :=
  match w with
  | [] => 0
  | c :: t => if eqc 46%N c then length t else decimals t
  end.

(** ** The conversion after the words of the spec

    The number of decimal places, in the words of the spec: 6 if either
    seconds field is not "00", else 3 if either minutes field is not "00",
    else 0. *)
Definition places (latmin latsec longmin longsec : str) : nat :=
  if (negb (str_eqb latsec (u "00")) || negb (str_eqb longsec (u "00")))%bool then 6
  else if (negb (str_eqb latmin (u "00")) || negb (str_eqb longmin (u "00")))%bool then 3
  else 0.


(** A second definition of the conversion, after the words of the spec
    (section 4.5), to compare [_convert_to_lat_lng] with: the decimal
    degrees degrees + (minutes + seconds / divisor) / 60 are computed
    exactly, as rationals, and rounded once, half to even, at the
    quantization. *)
Module Exact.

Definition Q_of (d : Dec.decimal) : option Q :=
  match d with
  | Dec.Fin s c e => Some (inject_Z (Dec.signed s c) * Qpower 10 e)%Q
  | Dec.NaN => None
  end.

Definition numeral (s : str) : option Q :=
  match Dec.of_str s with
  | Some d => Q_of d
  | None => None
  end.

(** The integer nearest to [y], the even one at a tie. *)
Definition round_half_even (y : Q) : Z :=
  let f := Qfloor y in
  match (y - inject_Z f ?= 1 # 2)%Q with
  | Lt => f
  | Gt => (f + 1)%Z
  | Eq => if Z.even f then f else (f + 1)%Z
  end.

Definition quantize (x : Q) (p : nat) : Dec.decimal :=
  Dec.Fin (negb (Qle_bool 0 x))
          (Z.to_N (round_half_even (Qabs x * Qpower 10 (Z.of_nat p))))
          (- Z.of_nat p).

Definition convert (latdir : option str) (latdeg latmin latsec : str)
    (longdir : option str) (longdeg longmin longsec : str)
    : option (str * str) :=
  let p := places latmin latsec longmin longsec in
  match numeral latdeg, numeral latmin, numeral latsec,
        numeral longdeg, numeral longmin, numeral longsec with
  | Some lat, Some latmin, Some latsec, Some long, Some longmin, Some longsec =>
      let divisor : Q :=
        if (negb (Qle_bool latsec 59) || negb (Qle_bool longsec 59))%bool
        then 100%Q else 60%Q in
      let lat := (lat + (latmin + latsec / divisor) / 60)%Q in
      let long := (long + (longmin + longsec / divisor) / 60)%Q in
      let lat := if is_str latdir "S" then (- lat)%Q else lat in
      let long := if is_str longdir "W" then (- long)%Q else long in
      Some (Dec.to_str (quantize lat p), Dec.to_str (quantize long p))
  | _, _, _, _, _, _ => None
  end.

End Exact.

(** ** Predicates of the statements *)

Definition starts_clean (s : str) : Prop :=
  match s with
  | c :: _ => Unicode.isspace c = false
  | [] => True
  end.

(** Neither the first nor the last character is white space. *)
Definition trimmed (s : str) : Prop := starts_clean s /\ starts_clean (rev s).

(** What the two substitutions do to one character. *)
Definition glyph (minute second : list char) (c : char) : char :=
  let c' := if existsb (N.eqb c) minute then 39%N else c in
  if existsb (N.eqb c') second then 34%N else c'.

Definition hemisphere_letters : str := u "NSEWnsew".


Definition no_numeral (s : str) : bool :=
  match Dec.of_str s with None => true | Some _ => false end.


(** * Properties *)

(** ** The matcher follows a path of the pattern *)

Module ReFacts.
Import Re.

Lemma orelse_Some A (x y : option A) v :
  orelse x y = Some v -> x = Some v \/ y = Some v.
Proof. destruct x; simpl; auto. Qed.

Lemma within_less hi n : more hi = true -> within (less hi) n -> within hi (S n).
Proof.
  destruct hi as [[|h]|]; simpl; try discriminate; intros _ H; auto. lia.
Qed.

Lemma rep_sound A p (k : mstate -> option A) s :
  forall lo hi n c v,
    rep p lo hi k n s c = Some v ->
    exists w s', s = w ++ s' /\ forallb p w = true /\ lo <= length w /\
                 within hi (length w) /\ k (MState (n + length w) s' c) = Some v.
Proof.
  induction s as [|x s IH]; intros lo hi n c v H.
  - simpl in H. destruct lo; [|discriminate].
    exists [], []. simpl. rewrite Nat.add_0_r.
    repeat split; auto. destruct hi; simpl; auto. lia.
  - assert (Hstop : match lo with 0 => k (MState n (x :: s) c) | S _ => None end = Some v ->
                    exists w s', x :: s = w ++ s' /\ forallb p w = true /\ lo <= length w /\
                                 within hi (length w) /\ k (MState (n + length w) s' c) = Some v).
    { intros Hs. destruct lo; [|discriminate].
      exists [], (x :: s). simpl. rewrite Nat.add_0_r.
      repeat split; auto. destruct hi; simpl; auto. lia. }
    simpl in H. destruct (p x && more hi)%bool eqn:Hp; [|auto].
    apply andb_prop in Hp as [Hpx Hm].
    apply orelse_Some in H as [H|H]; [|auto].
    apply IH in H as (w & s' & -> & Hw & Hlo & Hhi & Hk).
    exists (x :: w), s'. simpl. rewrite Hpx, Hw.
    replace (n + S (length w)) with (S n + length w) by lia.
    repeat split; auto; [lia | now apply within_less].
Qed.

(** A successful run of [r] followed by [k] goes through a state that a path
    of [r] reaches and from which [k] succeeds with the same result. *)
Lemma run_sound A r :
  forall (k : mstate -> option A) st v,
    run r k st = Some v -> exists st', exec r st st' /\ k st' = Some v.
Proof.
  induction r as [| | |p|a IHa b IHb|a IHa b IHb|a IHa|lo hi p|g a IHa|g y IHy n IHn];
    intros k st v H; simpl in H.
  - exists st; split; [constructor | assumption].
  - destruct (pos st) eqn:E; [|discriminate].
    exists st; split; [now constructor | assumption].
  - destruct (rest st) as [|x [|y t]] eqn:E; try discriminate.
    + exists st; split; [constructor; auto | assumption].
    + destruct (eqc 10%N x) eqn:Ex; [|discriminate].
      apply N.eqb_eq in Ex; subst x.
      exists st; split; [constructor; auto | assumption].
  - destruct st as [n s c]; simpl in H. destruct s as [|x s]; [discriminate|].
    destruct (p x) eqn:Hp; [|discriminate].
    eexists; split; [constructor; eassumption | assumption].
  - apply IHa in H as (st1 & H1 & H).
    apply IHb in H as (st2 & H2 & H).
    exists st2; split; [econstructor; eassumption | assumption].
  - apply orelse_Some in H as [H|H].
    + apply IHa in H as (st' & H1 & H). exists st'; split; [now apply exec_Alt_l | assumption].
    + apply IHb in H as (st' & H1 & H). exists st'; split; [now apply exec_Alt_r | assumption].
  - apply orelse_Some in H as [H|H].
    + apply IHa in H as (st' & H1 & H). exists st'; split; [now apply exec_Opt_some | assumption].
    + exists st; split; [apply exec_Opt_none | assumption].
  - destruct st as [n s c]; simpl in H.
    apply rep_sound in H as (w & s' & -> & Hw & Hlo & Hhi & Hk).
    eexists; split; [now apply exec_Rep | exact Hk].
  - apply IHa in H as (st' & H1 & H).
    eexists; split; [apply exec_Grp; eassumption | exact H].
  - destruct (isset g (caps st)) eqn:E.
    + apply IHy in H as (st' & H1 & H). exists st'; split; [now apply exec_Cond_yes | assumption].
    + apply IHn in H as (st' & H1 & H). exists st'; split; [now apply exec_Cond_no | assumption].
Qed.

(** A match object comes from a path of the whole pattern. *)
Lemma match_at_sound r n s m :
  match_at r n s = Some m ->
  exists st, exec r (MState n s []) st /\ m_groups m = caps st /\
             m_start m = n /\ m_end m = pos st.
Proof.
  unfold match_at. intros H.
  apply run_sound in H as (st & He & Hk).
  exists st. injection Hk as <-. simpl. auto.
Qed.

Lemma re_match_at r s : re_match r s = match_at r 0 s.
Proof. reflexivity. Qed.

(** *** Inversion of paths *)

Lemma exec_Seq_inv a b st st' :
  exec (Seq a b) st st' -> exists st1, exec a st st1 /\ exec b st1 st'.
Proof. inversion 1; subst; eauto. Qed.

Lemma exec_Alt_inv a b st st' :
  exec (Alt a b) st st' -> exec a st st' \/ exec b st st'.
Proof. inversion 1; subst; auto. Qed.

Lemma exec_Opt_inv a st st' :
  exec (Opt a) st st' -> exec a st st' \/ st' = st.
Proof. inversion 1; subst; auto. Qed.

Lemma exec_Grp_inv g a st st' :
  exec (Grp g a) st st' ->
  exists st1, exec a st st1 /\
    st' = MState (pos st1) (rest st1) ((g, firstn (pos st1 - pos st) (rest st)) :: caps st1).
Proof. inversion 1; subst; eauto. Qed.

Lemma exec_Cond_inv g y n st st' :
  exec (Cond g y n) st st' ->
  (isset g (caps st) = true /\ exec y st st') \/
  (isset g (caps st) = false /\ exec n st st').
Proof. inversion 1; subst; auto. Qed.

Lemma exec_Chr_inv p st st' :
  exec (Chr p) st st' ->
  exists x, p x = true /\ rest st = x :: rest st' /\ pos st' = S (pos st) /\
            caps st' = caps st.
Proof. inversion 1; subst; simpl; eauto. Qed.

(** *** Groups a pattern does not name are left as they were *)

Lemma exec_frame g r st st' :
  exec r st st' -> mentions g r = false -> lookup g (caps st') = lookup g (caps st).
Proof.
  unfold mentions.
  induction 1; simpl; intros Hg; auto;
    try (rewrite existsb_app in Hg; apply orb_false_iff in Hg as [Hg1 Hg2]).
  - rewrite IHexec2, IHexec1; auto.
  - auto.
  - auto.
  - apply orb_false_iff in Hg as [Hg1 Hg2]. rewrite Hg1. auto.
  - auto.
  - auto.
Qed.

Lemma exec_Grp_sets g a st st' :
  exec (Grp g a) st st' -> isset g (caps st') = true.
Proof.
  intros H. apply exec_Grp_inv in H as (st1 & _ & ->).
  unfold isset. simpl. now rewrite String.eqb_refl.
Qed.

Lemma isset_frame g r st st' :
  exec r st st' -> mentions g r = false -> isset g (caps st') = isset g (caps st).
Proof. intros H Hg. unfold isset. now rewrite (@exec_frame g r st st' H Hg). Qed.

(** *** A group once set stays set, and some patterns set a group on
    every path *)

Lemma exec_keeps g r st st' :
  exec r st st' -> isset g (caps st) = true -> isset g (caps st') = true.
Proof.
  induction 1; simpl; intros Hs; auto.
  unfold isset in *. simpl. destruct (String.eqb g g0); auto.
Qed.

Lemma exec_sets g r st st' :
  exec r st st' -> sets g r = true -> isset g (caps st') = true.
Proof.
  induction 1; simpl; intros Hs; try discriminate.
  - apply orb_true_iff in Hs as [Hs|Hs]; [|auto].
    eapply exec_keeps; eauto.
  - apply andb_true_iff in Hs as [Hs _]. auto.
  - apply andb_true_iff in Hs as [_ Hs]. auto.
  - unfold isset in *. simpl. destruct (String.eqb g g0); auto.
  - apply andb_true_iff in Hs as [Hs _]. auto.
  - apply andb_true_iff in Hs as [_ Hs]. auto.
Qed.

(** *** What a path consumes *)

Lemma exec_consumes r st st' :
  exec r st st' ->
  exists w, rest st = w ++ rest st' /\ pos st' = pos st + length w.
Proof.
  induction 1; simpl;
    try (exists []; simpl; split; [reflexivity | lia]).
  - exists [x]; simpl; split; [reflexivity | lia].
  - destruct IHexec1 as (w1 & E1 & P1), IHexec2 as (w2 & E2 & P2).
    exists (w1 ++ w2). rewrite E1, E2, P2, P1, length_app, app_assoc.
    split; [reflexivity | lia].
  - assumption.
  - assumption.
  - assumption.
  - exists w; auto.
  - assumption.
  - assumption.
  - assumption.
Qed.

End ReFacts.

(** ** Bounds and rounding of the decimal operations *)

Module DecFacts.
Import Dec.
Local Open Scope N_scope.
Unset Implicit Arguments.

Lemma pow10_pos k : 0 < pow10 k.
Proof. unfold pow10. apply N.neq_0_lt_0. apply N.pow_nonzero. discriminate. Qed.

Lemma pow10_nonpos k : (k <= 0)%Z -> pow10 k = 1.
Proof. intros H. unfold pow10. replace (Z.to_N k) with 0 by lia. reflexivity. Qed.

Lemma pow10_add a b :
  (0 <= a)%Z -> (0 <= b)%Z -> pow10 (a + b) = pow10 a * pow10 b.
Proof.
  intros Ha Hb. unfold pow10. rewrite Z2N.inj_add by assumption. apply N.pow_add_r.
Qed.

Lemma pow10_succ a : (0 <= a)%Z -> pow10 (a + 1) = 10 * pow10 a.
Proof. intros Ha. rewrite pow10_add by lia. change (pow10 1) with 10. lia. Qed.

Lemma pow10_le a b : (a <= b)%Z -> pow10 a <= pow10 b.
Proof. intros H. unfold pow10. apply N.pow_le_mono_r; [discriminate | lia]. Qed.

Lemma pow10_lt_inv a b : pow10 a < pow10 b -> (a < b)%Z.
Proof.
  intros H. destruct (Z.lt_ge_cases a b) as [|Hge]; [assumption|].
  apply pow10_le in Hge. lia.
Qed.

Lemma digits_aux_length fuel :
  forall n acc,
    n < 10 ^ N.of_nat (S fuel) ->
    exists k, length (digits_aux fuel n acc) = (k + length acc)%nat
              /\ (1 <= k)%nat /\ n < 10 ^ N.of_nat k
              /\ (k = 1%nat \/ 10 ^ N.of_nat (k - 1) <= n).
Proof.
  induction fuel as [|f IH]; intros n acc Hn.
  - exists 1%nat. simpl. repeat split; auto.
  - cbn [digits_aux]. destruct (n <? 10) eqn:E.
    + apply N.ltb_lt in E. exists 1%nat. simpl. repeat split; auto.
    + apply N.ltb_ge in E.
      destruct (IH (n / 10) ((48 + n mod 10) :: acc)) as (k & Hl & Hk & Hu & Hlo).
      { apply N.Div0.div_lt_upper_bound.
        rewrite <- N.pow_succ_r'. rewrite <- Nat2N.inj_succ. exact Hn. }
      exists (S k). rewrite Hl. simpl length. split; [lia|]. split; [lia|].
      split.
      * rewrite Nat2N.inj_succ, N.pow_succ_r'.
        pose proof (N.Div0.div_mod n 10) as D.
        pose proof (N.mod_upper_bound n 10). lia.
      * right. replace (S k - 1)%nat with (S (k - 1)) by lia.
        rewrite Nat2N.inj_succ, N.pow_succ_r'.
        destruct Hlo as [-> | Hlo].
        -- simpl. lia.
        -- pose proof (N.Div0.mul_div_le n 10). lia.
Qed.

Lemma ndigits_spec c :
  (1 <= ndigits c)%Z /\ c < pow10 (ndigits c)
  /\ (ndigits c = 1%Z \/ pow10 (ndigits c - 1) <= c).
Proof.
  unfold ndigits, digits.
  destruct (digits_aux_length (N.to_nat (N.log2 c)) c []) as (k & Hl & Hk & Hu & Hlo).
  { rewrite Nat2N.inj_succ, N2Nat.id.
    destruct (N.eq_dec c 0) as [->|Hc]; [reflexivity|].
    apply N.lt_le_trans with (2 ^ N.succ (N.log2 c)).
    - apply N.log2_spec. lia.
    - apply N.pow_le_mono_l. lia. }
  rewrite Hl. simpl length. rewrite Nat.add_0_r.
  unfold pow10. split; [lia|]. split.
  - replace (Z.to_N (Z.of_nat k)) with (N.of_nat k) by lia. exact Hu.
  - destruct Hlo as [-> | Hlo]; [left; reflexivity | right].
    replace (Z.to_N (Z.of_nat k - 1)) with (N.of_nat (k - 1)) by lia. exact Hlo.
Qed.

Lemma round_le c k M : c <= M * pow10 k -> round_half_even c k <= M.
Proof.
  intros H. unfold round_half_even.
  pose proof (pow10_pos k) as Hp.
  pose proof (N.Div0.div_mod c (pow10 k)) as D.
  pose proof (N.mod_upper_bound c (pow10 k)) as U.
  set (p := pow10 k) in *. set (q := c / p) in *. set (r := c mod p) in *.
  assert (U' : r < p) by (apply U; lia).
  assert (Hq : q <= M) by nia.
  assert (Hq1 : 0 < r -> q + 1 <= M) by (intros; nia).
  destruct (2 * r <? p) eqn:E1; [assumption|].
  apply N.ltb_ge in E1.
  destruct (p <? 2 * r) eqn:E2.
  - apply Hq1. apply N.ltb_lt in E2. lia.
  - destruct (N.even q); [assumption|]. apply Hq1. lia.
Qed.

(** The digits of a non-zero coefficient below a power of ten. *)
Lemma below_digits s c e B m :
  below (Fin s c e) B -> c <> 0 -> B < pow10 m -> (0 <= m)%Z ->
  (ndigits c + e <= m)%Z.
Proof.
  simpl. intros Hb Hc HB Hm.
  destruct (ndigits_spec c) as (H1 & Hu & Hlo).
  assert (Hlo' : pow10 (ndigits c - 1) <= c).
  { destruct Hlo as [-> | Hlo]; [change (pow10 (1 - 1)) with 1; lia | assumption]. }
  destruct (Z.le_gt_cases 0 e) as [He | He].
  - rewrite (pow10_nonpos (- e)) in Hb by lia.
    assert (pow10 (ndigits c - 1 + e) < pow10 m).
    { rewrite pow10_add by lia. pose proof (pow10_pos e). nia. }
    apply pow10_lt_inv in H. lia.
  - rewrite (pow10_nonpos e) in Hb by lia.
    assert (pow10 (ndigits c - 1) < pow10 (m + - e)).
    { rewrite pow10_add by lia. pose proof (pow10_pos (- e)). nia. }
    apply pow10_lt_inv in H. lia.
Qed.

Lemma digits_below c m : c < pow10 m -> (1 <= m)%Z -> (ndigits c <= m)%Z.
Proof.
  intros Hc Hm. destruct (ndigits_spec c) as (H1 & Hu & [E | Hlo]); [lia|].
  assert (pow10 (ndigits c - 1) < pow10 m) by lia.
  apply pow10_lt_inv in H. lia.
Qed.

Lemma fix_below prec d B :
  (0 < prec)%Z -> B < pow10 prec -> below d B -> below (fix_ prec d) B.
Proof.
  intros Hprec HB Hb. destruct d as [s c e|]; [|exact Hb].
  unfold fix_. destruct (prec <? ndigits c)%Z eqn:E; [|exact Hb].
  apply Z.ltb_lt in E.
  assert (Hc : c <> 0).
  { intros ->. change (ndigits 0) with 1%Z in E. lia. }
  pose proof (@below_digits s c e B prec Hb Hc HB ltac:(lia)) as Hd.
  set (k := (ndigits c - prec)%Z) in *.
  assert (He : (e < 0)%Z) by lia.
  assert (Hek : (e + k <= 0)%Z) by lia.
  simpl in Hb. rewrite (pow10_nonpos e) in Hb by lia.
  replace (- e)%Z with (- (e + k) + k)%Z in Hb by lia.
  rewrite pow10_add in Hb by lia. rewrite N.mul_assoc in Hb.
  rewrite N.mul_1_r in Hb.
  apply round_le in Hb.
  set (q := round_half_even c k) in *.
  destruct (prec <? ndigits q)%Z; simpl.
  - destruct (Z.eq_dec (e + k) 0) as [E0 | E0].
    + rewrite E0 in *. change (pow10 (0 + 1)) with 10. change (pow10 (- (0 + 1))) with 1.
      change (pow10 (- 0)) with 1 in Hb.
      pose proof (N.Div0.mul_div_le q 10). lia.
    + rewrite (pow10_nonpos (e + k + 1)) by lia.
      replace (- (e + k))%Z with (- (e + k + 1) + 1)%Z in Hb by lia.
      rewrite pow10_succ in Hb by lia.
      rewrite N.mul_1_r. apply N.Div0.div_le_upper_bound. lia.
  - rewrite (pow10_nonpos (e + k)) by lia. lia.
Qed.

Lemma rescale_below c e1 e A :
  (e <= e1)%Z -> c * pow10 e1 <= A * pow10 (- e1) ->
  c * pow10 (e1 - e) * pow10 e <= A * pow10 (- e).
Proof.
  intros He H.
  destruct (Z.le_gt_cases 0 e) as [H0 | H0].
  - rewrite (pow10_nonpos (- e)) by lia.
    rewrite (pow10_nonpos (- e1)) in H by lia.
    rewrite <- N.mul_assoc, <- pow10_add by lia.
    replace (e1 - e + e)%Z with e1 by lia. exact H.
  - rewrite (pow10_nonpos e) by lia. rewrite N.mul_1_r.
    destruct (Z.le_gt_cases 0 e1) as [H1 | H1].
    + rewrite (pow10_nonpos (- e1)) in H by lia.
      replace (e1 - e)%Z with (e1 + - e)%Z by lia.
      rewrite pow10_add by lia. pose proof (pow10_pos (- e)). nia.
    + rewrite (pow10_nonpos e1) in H by lia.
      replace (- e)%Z with (- e1 + (e1 - e))%Z by lia.
      rewrite pow10_add by lia. pose proof (pow10_pos (e1 - e)). nia.
Qed.

Lemma add_below prec a b A B :
  (0 < prec)%Z -> A + B < pow10 prec ->
  below a A -> below b B -> below (add prec a b) (A + B).
Proof.
  intros Hprec HB Ha Hb.
  destruct a as [s1 c1 e1|]; [|contradiction].
  destruct b as [s2 c2 e2|]; [|contradiction].
  unfold add. apply fix_below; try assumption.
  simpl in *.
  set (e := Z.min e1 e2).
  pose proof (@rescale_below c1 e1 e A ltac:(lia) Ha) as R1.
  pose proof (@rescale_below c2 e2 e B ltac:(lia) Hb) as R2.
  set (x1 := c1 * pow10 (e1 - e)) in *. set (x2 := c2 * pow10 (e2 - e)) in *.
  assert (Hz : Z.abs_N (signed s1 x1 + signed s2 x2) <= x1 + x2).
  { unfold signed. destruct s1, s2; lia. }
  pose proof (pow10_pos e). nia.
Qed.

Lemma mul_minus_one_below prec a A :
  (0 < prec)%Z -> A < pow10 prec ->
  below a A -> below (mul prec a (Fin true 1 0)) A.
Proof.
  intros Hprec HA Ha. destruct a as [s c e|]; [|contradiction].
  unfold mul. apply fix_below; try assumption.
  simpl in *. now rewrite N.mul_1_r, Z.add_0_r.
Qed.

Lemma to_ideal_below s A fuel :
  forall c e, below (Fin s c e) A ->
              below (Fin s (fst (to_ideal fuel c e)) (snd (to_ideal fuel c e))) A.
Proof.
  induction fuel as [|f IH]; intros c e Hb; simpl; [exact Hb|].
  destruct (c mod 10 =? 0) eqn:E; [|exact Hb].
  apply N.eqb_eq in E. apply IH. simpl in *.
  pose proof (N.Div0.div_mod c 10) as D. rewrite E, N.add_0_r in D.
  destruct (Z.le_gt_cases 0 e) as [H0 | H0].
  - rewrite (pow10_nonpos (- (e + 1))) by lia.
    rewrite (pow10_nonpos (- e)) in Hb by lia.
    rewrite pow10_succ by lia. nia.
  - rewrite (pow10_nonpos (e + 1)) by lia.
    rewrite (pow10_nonpos e) in Hb by lia.
    replace (- e)%Z with (- (e + 1) + 1)%Z in Hb by lia.
    rewrite pow10_succ in Hb by lia. nia.
Qed.

Lemma div_by_below prec a k A :
  (0 < prec)%Z -> A < pow10 prec -> below a A -> below (div_by prec a k) A.
Proof.
  intros Hprec HA Ha. destruct a as [s c e|]; [|contradiction].
  unfold div_by. destruct (c =? 0) eqn:Ec.
  { apply fix_below; try assumption. simpl. lia. }
  apply N.eqb_neq in Ec.
  pose proof (@below_digits s c e A prec Ha Ec HA ltac:(lia)) as Hd.
  destruct (ndigits_spec (N.pos k)) as (Hk1 & _ & _).
  set (sh := (ndigits (N.pos k) - ndigits c + prec + 1)%Z) in *.
  assert (Hneg : (e - sh < 0)%Z) by lia.
  set (num := if (0 <=? sh)%Z then c * pow10 sh else c).
  set (den := if (0 <=? sh)%Z then N.pos k else N.pos k * pow10 (- sh)).
  set (X := A * pow10 (sh - e)).
  pose proof (pow10_pos (- sh)) as Psh.
  assert (Hden : den <> 0) by (unfold den; destruct (0 <=? sh)%Z; lia).
  pose proof (N.Div0.div_mod num den) as D.
  pose proof (N.mod_upper_bound num den Hden) as U.
  assert (Hq : num / den <= X /\ (num mod den <> 0 -> num / den + 1 <= X)).
  { set (q := num / den) in *. set (r := num mod den) in *.
    unfold num, den in D. simpl in Ha. unfold X.
    destruct (0 <=? sh)%Z eqn:Es.
    - apply Z.leb_le in Es.
      assert (Hn : c * pow10 sh <= A * pow10 (sh - e)).
      { destruct (Z.le_gt_cases 0 e) as [H0 | H0].
        - rewrite (pow10_nonpos (- e)) in Ha by lia.
          replace sh with (e + (sh - e))%Z at 1 by lia.
          rewrite pow10_add by lia. pose proof (pow10_pos (sh - e)). nia.
        - rewrite (pow10_nonpos e) in Ha by lia.
          replace (sh - e)%Z with (- e + sh)%Z by lia.
          rewrite pow10_add by lia. pose proof (pow10_pos sh). nia. }
      split; [nia | intros Hr; nia].
    - apply Z.leb_gt in Es.
      rewrite (pow10_nonpos e) in Ha by lia.
      replace (- e)%Z with ((sh - e) + - sh)%Z in Ha by lia.
      rewrite pow10_add in Ha by lia.
      split; [nia | intros Hr; nia]. }
  destruct Hq as [Hq Hq1].
  assert (Hfin : forall q, q <= X -> below (Fin s q (e - sh)) A).
  { intros q Hle. simpl. rewrite (pow10_nonpos (e - sh)) by lia.
    replace (- (e - sh))%Z with (sh - e)%Z by lia. fold X. lia. }
  destruct (num mod den =? 0) eqn:Er.
  - pose proof (@to_ideal_below s A (Z.to_nat sh) (num / den) (e - sh) (Hfin _ Hq)) as T.
    destruct (to_ideal (Z.to_nat sh) (num / den) (e - sh)) as [q' e'].
    apply fix_below; assumption.
  - apply N.eqb_neq in Er. apply fix_below; try assumption.
    apply Hfin. destruct (num / den mod 5 =? 0); auto.
Qed.

Lemma round_half_even_spec c k :
  let p := pow10 k in
  let q := round_half_even c k in
  2 * (q * p) <= 2 * c + p /\ 2 * c <= 2 * (q * p) + p
  /\ (2 * (q * p) = 2 * c + p \/ 2 * c = 2 * (q * p) + p -> N.even q = true).
Proof.
  cbv zeta. unfold round_half_even.
  pose proof (pow10_pos k) as Hp.
  pose proof (N.Div0.div_mod c (pow10 k)) as D.
  pose proof (N.mod_upper_bound c (pow10 k)) as U.
  set (p := pow10 k) in *. set (q := c / p) in *. set (r := c mod p) in *.
  assert (U' : r < p) by (apply U; lia).
  destruct (2 * r <? p) eqn:E1.
  - apply N.ltb_lt in E1. split; [nia|]. split; [nia|]. intros [H | H]; nia.
  - apply N.ltb_ge in E1. destruct (p <? 2 * r) eqn:E2.
    + apply N.ltb_lt in E2. split; [nia|]. split; [nia|]. intros [H | H]; nia.
    + apply N.ltb_ge in E2. destruct (N.even q) eqn:Ev.
      * split; [nia|]. split; [nia|]. intros _. exact Ev.
      * split; [nia|]. split; [nia|]. intros _.
        rewrite N.even_add, Ev. reflexivity.
Qed.

Lemma quantize_below prec s c x B p s0 c0 :
  (0 < prec)%Z -> (0 <= p)%Z -> B * pow10 p < pow10 prec ->
  below (Fin s c x) B ->
  exists c',
    quantize prec (Fin s c x) (Fin s0 c0 (- p)) = Fin s c' (- p)
    /\ rounds_half_even c x c' (- p)
    /\ below (Fin s c' (- p)) B.
Proof.
  intros Hprec Hp HB Hb. unfold quantize.
  assert (HB' : B < pow10 (prec - p)).
  { destruct (Z.le_gt_cases p prec) as [H | H].
    - replace prec with (prec - p + p)%Z in HB by lia.
      rewrite pow10_add in HB by lia. pose proof (pow10_pos p). nia.
    - pose proof (@pow10_le prec p ltac:(lia)).
      pose proof (pow10_pos p). rewrite (pow10_nonpos (prec - p)) by lia. nia. }
  destruct (c =? 0) eqn:Ec.
  { apply N.eqb_eq in Ec. subst c. exists 0. split; [reflexivity|]. split.
    - unfold rounds_half_even. destruct (- p <=? x)%Z; [reflexivity|].
      pose proof (pow10_pos (- p - x)). repeat split; try lia.
    - simpl. lia. }
  apply N.eqb_neq in Ec.
  assert (Hround : exists c', (if (- p <=? x)%Z then c * pow10 (x - - p)
                               else round_half_even c (- p - x)) = c'
                              /\ rounds_half_even c x c' (- p)
                              /\ c' <= B * pow10 p).
  { eexists. split; [reflexivity|]. unfold rounds_half_even.
    simpl in Hb. destruct (- p <=? x)%Z eqn:E.
    - apply Z.leb_le in E. split; [reflexivity|].
      pose proof (@rescale_below c x (- p) B E Hb) as R.
      rewrite (pow10_nonpos (- p)) in R by lia.
      replace (- - p)%Z with p in R by lia. lia.
    - apply Z.leb_gt in E. split; [apply round_half_even_spec|].
      apply round_le.
      rewrite (pow10_nonpos x) in Hb by lia.
      replace (- x)%Z with (p + (- p - x))%Z in Hb by lia.
      rewrite pow10_add in Hb by lia. lia. }
  destruct Hround as (c' & Ec' & Hr & Hc').
  destruct (Z.le_gt_cases (prec - p) 0) as [Hpp | Hpp].
  { exfalso. rewrite (pow10_nonpos (prec - p)) in HB' by lia.
    assert (B = 0) by lia. subst B. simpl in Hb.
    pose proof (pow10_pos x). nia. }
  pose proof (@below_digits s c x B (prec - p) Hb Ec HB' ltac:(lia)) as Hd.
  replace (prec <? ndigits c + x - - p)%Z with false
    by (symmetry; apply Z.ltb_ge; lia).
  rewrite Ec'.
  assert (Hdig : (ndigits c' <= prec)%Z) by (apply digits_below; [lia | lia]).
  replace (prec <? ndigits c')%Z with false by (symmetry; apply Z.ltb_ge; lia).
  exists c'. split; [reflexivity|]. split; [assumption|].
  simpl. rewrite (pow10_nonpos (- p)) by lia.
  replace (- - p)%Z with p by lia. lia.
Qed.

Lemma digits_aux_ascii fuel :
  forall n acc, forallb ascii_digit acc = true ->
                forallb ascii_digit (digits_aux fuel n acc) = true.
Proof.
  assert (D : forall n, ascii_digit (48 + n mod 10) = true).
  { intros n. unfold ascii_digit, in_range.
    assert (n mod 10 < 10) by (apply N.mod_upper_bound; discriminate).
    generalize dependent (n mod 10). intros m Hm.
    apply andb_true_iff; split; apply N.leb_le; lia. }
  induction fuel as [|f IH]; intros n acc Hacc; cbn [digits_aux].
  - cbn [forallb]. now rewrite D.
  - destruct (n <? 10).
    + cbn [forallb]. now rewrite D.
    + apply IH. cbn [forallb]. now rewrite D.
Qed.

Lemma digits_ascii c : forallb ascii_digit (digits c) = true.
Proof. apply digits_aux_ascii. reflexivity. Qed.

Lemma digits_nonempty c : (1 <= length (digits c))%nat.
Proof. pose proof (ndigits_spec c) as [H _]. unfold ndigits in H. lia. Qed.

Lemma zeros_ascii n : forallb ascii_digit (zeros n) = true.
Proof. induction n; simpl; auto. Qed.

Lemma to_str_fixed_point s c p :
  (p <= 6)%nat -> fixed_point p (to_str (Fin s c (- Z.of_nat p))).
Proof.
  intros Hp. unfold to_str.
  pose proof (digits_nonempty c) as HL. pose proof (digits_ascii c) as HA.
  set (int := digits c) in *. set (L := length int) in *.
  replace ((- Z.of_nat p <=? 0)%Z && (-6 <? - Z.of_nat p + Z.of_nat L)%Z)%bool
    with true
    by (symmetry; apply andb_true_iff; split; [apply Z.leb_le | apply Z.ltb_lt]; lia).
  rewrite Z.eqb_refl, app_nil_r.
  exists (if s then u "-" else []).
  destruct (- Z.of_nat p + Z.of_nat L <=? 0)%Z eqn:E1.
  - apply Z.leb_le in E1.
    exists (u "0"), (zeros (p - L) ++ int).
    destruct p as [|p']; [lia|].
    split.
    { replace (Z.to_nat (- (- Z.of_nat (S p') + Z.of_nat L))) with (S p' - L)%nat by lia.
      reflexivity. }
    split; [destruct s; auto|]. split; [discriminate|]. split; [reflexivity|].
    split.
    + rewrite forallb_app, zeros_ascii, HA. reflexivity.
    + rewrite length_app. unfold zeros. rewrite repeat_length. fold L. lia.
  - apply Z.leb_gt in E1.
    destruct (Z.of_nat L <=? - Z.of_nat p + Z.of_nat L)%Z eqn:E2.
    + apply Z.leb_le in E2. assert (p = 0)%nat by lia. subst p.
      exists int, []. simpl.
      replace (Z.to_nat (Z.of_nat L) - L)%nat with 0%nat by lia.
      simpl. rewrite !app_nil_r.
      split; [reflexivity|]. split; [destruct s; auto|].
      split; [intros E; apply (f_equal (@length char)) in E; fold L in E; simpl in E; lia|].
      auto.
    + apply Z.leb_gt in E2.
      destruct p as [|p']; [lia|].
      exists (firstn (L - S p') int), (skipn (L - S p') int).
      replace (Z.to_nat (- Z.of_nat (S p') + Z.of_nat L)) with (L - S p')%nat by lia.
      split; [reflexivity|]. split; [destruct s; auto|].
      split.
      { intros E. apply (f_equal (@length char)) in E.
        rewrite length_firstn in E. fold L in E. simpl in E. lia. }
      pose proof (firstn_skipn (L - S p') int) as FS.
      rewrite <- FS, forallb_app in HA. apply andb_true_iff in HA as [HA1 HA2].
      split; [assumption|]. split; [assumption|].
      rewrite length_skipn. fold L. lia.
Qed.

Set Implicit Arguments.

End DecFacts.

(** ** Scanning a text for coordinates *)

(** C1 (the code departs from its documentation): [degree_min_sec_re] begins
    with the anchor for the start of the string and ends with the anchor for
    its end, so a scan can only find a match that covers the whole text. On
    the text of the documented example, which holds two coordinates, the
    scan finds no match and [get_replacements] returns an empty dictionary,
    although each of the two coordinates matches when it stands alone. *)
Theorem get_replacements_embedded_pair_finds_nothing :
  let text := u "4630 NORTH 5705 WEST 58147N/07720W" in
  Re.finditer Parser.degree_min_sec_re (_normalize_string text) = []
  /\ (forall (R : Type) (sub_function : MapLink -> R),
        get_replacements sub_function text = Ok [])
  /\ (exists m,
        get_replacements (fun l => l) (u "4630 NORTH 5705 WEST")
        = Ok [(m, mkMapLink (u "4630 NORTH 5705 WEST") (u "46.500") (u "-57.083"))])
  /\ retrieve_lat_long (u "58147N/07720W") = Ok (u "58.235278", u "-77.333333").
Proof.
  cbv zeta. split; [vm_compute; reflexivity|].
  split; [intros R f; vm_compute; reflexivity|].
  split; [eexists; vm_compute; reflexivity|].
  vm_compute; reflexivity.
Qed.

(** ** Seconds above 59 *)

(** C2: when either seconds value is above 59, both the latitude and the
    longitude seconds are divided by 100, not by 60: one decision for the
    pair. In "50 27 55 N 127 27 65 W" only the longitude seconds are above
    59, and the latitude seconds are hundredths of a minute as well. *)
Theorem seconds_over_59_divide_both_by_100 :
  (forall latdir latdeg latmin latsec longdir longdeg longmin longsec
          dlat dlatmin dlatsec dlong dlongmin dlongsec,
      Dec.of_str latdeg = Some dlat ->
      Dec.of_str latmin = Some dlatmin ->
      Dec.of_str latsec = Some dlatsec ->
      Dec.of_str longdeg = Some dlong ->
      Dec.of_str longmin = Some dlongmin ->
      Dec.of_str longsec = Some dlongsec ->
      Dec.gt_int dlatsec 59 = true \/ Dec.gt_int dlongsec 59 = true ->
      let ctx := Dec.ExtendedContext in
      let hundredths deg min sec :=
        Dec.add ctx deg (Dec.div_by ctx (Dec.add ctx min (Dec.div_by ctx sec 100)) 60) in
      let signed_by dir letter d :=
        if is_str dir letter then Dec.mul ctx d minus_one else d in
      let precision := precision_of latmin latsec longmin longsec in
      _convert_to_lat_lng latdir (Some latdeg) latmin latsec
                          longdir (Some longdeg) longmin longsec
      = Ok (Dec.to_str (Dec.quantize ctx
                          (signed_by latdir "S"%string (hundredths dlat dlatmin dlatsec))
                          precision),
            Dec.to_str (Dec.quantize ctx
                          (signed_by longdir "W"%string (hundredths dlong dlongmin dlongsec))
                          precision)))
  /\ retrieve_lat_long (u "50 27 55 N 127 27 65 W") = Ok (u "50.459167", u "-127.460833").
Proof.
  split; [|vm_compute; reflexivity].
  intros latdir latdeg latmin latsec longdir longdeg longmin longsec
         dlat dlatmin dlatsec dlong dlongmin dlongsec H1 H2 H3 H4 H5 H6 Hgt.
  cbv zeta. unfold _convert_to_lat_lng, Decimal_untrapped, bind.
  rewrite H1, H2, H3, H4, H5, H6.
  assert (E : (Dec.gt_int dlatsec 59 || Dec.gt_int dlongsec 59)%bool = true)
    by (apply orb_true_iff; exact Hgt).
  rewrite E. reflexivity.
Qed.

Lemma seconds_over_59_divide_both_by_100_witness :
  Dec.gt_int (Dec.Fin false 55 0) 59 = false
  /\ Dec.gt_int (Dec.Fin false 65 0) 59 = true
  /\ _convert_to_lat_lng (Some (u "N")) (Some (u "50")) (u "27") (u "55")
                         (Some (u "W")) (Some (u "127")) (u "27") (u "65")
     = Ok (u "50.459167", u "-127.460833").
Proof.
  split; [reflexivity|]. split; [reflexivity|].
  assert (P : forall s n, Dec.of_str (u s) = Some (Dec.Fin false n 0) ->
                          Dec.of_str (u s) = Some (Dec.Fin false n 0)) by auto.
  rewrite (proj1 seconds_over_59_divide_both_by_100
             (Some (u "N")) (u "50") (u "27") (u "55") (Some (u "W")) (u "127") (u "27") (u "65")
             (Dec.Fin false 50 0) (Dec.Fin false 27 0) (Dec.Fin false 55 0)
             (Dec.Fin false 127 0) (Dec.Fin false 27 0) (Dec.Fin false 65 0)
             ltac:(vm_compute; reflexivity) ltac:(vm_compute; reflexivity)
             ltac:(vm_compute; reflexivity) ltac:(vm_compute; reflexivity)
             ltac:(vm_compute; reflexivity) ltac:(vm_compute; reflexivity)
             (or_intror eq_refl)).
  vm_compute. reflexivity.
Defined.

(** ** Coordinates without a direction *)


(** ** Hemisphere on the decimal-degree path *)

(** C7, as the claim states it, fails: "-59.59 N 43.50 E" has a leading
    minus and the letter N; the minus is the first-position token, it is
    read before the letter, and the latitude is negated. Without the minus
    the same text gives a positive latitude. *)
Lemma leading_minus_wins_over_letter :
  exists m,
    Re.re_match Parser.decimal_degree_re (u "-59.59 N 43.50 E") = Some m
    /\ Re.groupdict m "latdir"%string = Some (u "-")
    /\ Re.groupdict m "latdir2"%string = Some (u "N")
    /\ retrieve_lat_long (u "-59.59 N 43.50 E") = Ok (u "-59.59", u "43.50")
    /\ retrieve_lat_long (u "59.59 N 43.50 E") = Ok (u "59.59", u "43.50").
Proof.
  eexists. split; [vm_compute; reflexivity|].
  repeat split; vm_compute; reflexivity.
Qed.

(** ** The order of normalizing and matching *)

(** C8, as the claim states it, fails: the normalized form of
    "  43.897481, -80.051911" (two leading spaces) is recognized by the
    decimal-degree grammar and its sign-normalized pair is
    ("43.897481", "-80.051911"), but [retrieve_lat_long] matches the
    decimal-degree grammar against the text as it is given, goes on to the
    degree-minute-second grammar and raises. *)
Lemma padded_decimal_degrees_raise :
  (exists m,
      Re.re_match Parser.decimal_degree_re
                  (_normalize_string (u "  43.897481, -80.051911")) = Some m
      /\ _convert_signs (Re.groupdict m) = Ok (u "43.897481", u "-80.051911"))
  /\ retrieve_lat_long (u "  43.897481, -80.051911") = Raise AttributeError.
Proof.
  split.
  - eexists. split; [vm_compute; reflexivity|]. vm_compute. reflexivity.
  - vm_compute. reflexivity.
Qed.

(** C8, amended: [retrieve_lat_long] tries the decimal-degree grammar on the
    text as given, before any normalizing; when it matches, the result is
    that of the sign normalizer on the groups of this match. The normalizer
    is applied only afterwards, for the degree-minute-second grammar. *)
Theorem decimal_degree_grammar_reads_raw_input :
  forall s,
    (forall m, Re.re_match Parser.decimal_degree_re s = Some m ->
               retrieve_lat_long s = _convert_signs (Re.groupdict m))
    /\ (Re.re_match Parser.decimal_degree_re s = None ->
        retrieve_lat_long s
        = match Re.re_match Parser.degree_min_sec_re (_normalize_string s) with
          | Some m => convert_fields (_cleanup (Re.groupdict m))
          | None => Raise AttributeError
          end).
Proof.
  intros s. unfold retrieve_lat_long. split.
  - intros m H. now rewrite H.
  - intros H. now rewrite H.
Qed.

Lemma decimal_degree_grammar_reads_raw_input_witness :
  exists m,
    Re.re_match Parser.decimal_degree_re (u "43.897481, -80.051911") = Some m
    /\ retrieve_lat_long (u "43.897481, -80.051911") = _convert_signs (Re.groupdict m)
    /\ _convert_signs (Re.groupdict m) = Ok (u "43.897481", u "-80.051911").
Proof.
  eexists. split; [vm_compute; reflexivity|]. split.
  - apply (proj1 (decimal_degree_grammar_reads_raw_input (u "43.897481, -80.051911"))).
    vm_compute. reflexivity.
  - vm_compute. reflexivity.
Defined.

(** ** The text normalizer *)

Module NormalizeFacts.

Lemma lstrip_starts_clean s : starts_clean (lstrip s).
Proof.
  induction s as [|c s IH]; simpl; auto.
  destruct (Unicode.isspace c) eqn:E; simpl; auto.
Qed.

Lemma lstrip_id s : starts_clean s -> lstrip s = s.
Proof. destruct s as [|c s]; simpl; auto. intros ->. reflexivity. Qed.

Lemma lstrip_split s :
  exists p, s = p ++ lstrip s /\ forallb Unicode.isspace p = true.
Proof.
  induction s as [|c s (p & E & Hp)]; simpl.
  - exists []; auto.
  - destruct (Unicode.isspace c) eqn:Ec.
    + exists (c :: p). simpl. rewrite Ec, Hp, <- E. auto.
    + exists []; auto.
Qed.

Lemma strip_split s :
  exists p q, s = p ++ strip s ++ q
              /\ forallb Unicode.isspace p = true /\ forallb Unicode.isspace q = true.
Proof.
  unfold strip.
  destruct (lstrip_split s) as (p & E & Hp).
  destruct (lstrip_split (rev (lstrip s))) as (q & Eq & Hq).
  exists p, (rev q). split; [|split; auto].
  - rewrite <- rev_app_distr, <- Eq, rev_involutive. exact E.
  - rewrite forallb_forall in *. intros x Hx. apply Hq. now apply in_rev.
Qed.

Lemma strip_trimmed s : trimmed (strip s).
Proof.
  unfold strip, trimmed. split.
  - destruct (lstrip_split (rev (lstrip s))) as (q & Eq & _).
    pose proof (lstrip_starts_clean s) as Hc.
    apply (f_equal (@rev char)) in Eq.
    rewrite rev_involutive, rev_app_distr in Eq.
    destruct (rev (lstrip (rev (lstrip s)))) as [|c t]; simpl; auto.
    rewrite Eq in Hc. exact Hc.
  - rewrite rev_involutive. apply lstrip_starts_clean.
Qed.

Lemma trimmed_strip s : trimmed s -> strip s = s.
Proof.
  intros [H1 H2]. unfold strip.
  rewrite (lstrip_id _ H1), (lstrip_id _ H2). apply rev_involutive.
Qed.

Lemma starts_clean_map (f : char -> char) s :
  (forall c, Unicode.isspace c = false -> Unicode.isspace (f c) = false) ->
  starts_clean s -> starts_clean (map f s).
Proof. intros Hf. destruct s; simpl; auto. Qed.

Lemma trimmed_map (f : char -> char) s :
  (forall c, Unicode.isspace c = false -> Unicode.isspace (f c) = false) ->
  trimmed s -> trimmed (map f s).
Proof.
  intros Hf [H1 H2]. split.
  - now apply starts_clean_map.
  - rewrite <- map_rev. now apply starts_clean_map.
Qed.

Lemma normalize_with_map minute second s :
  normalize_with minute second s = map (glyph minute second) (strip s).
Proof. unfold normalize_with, sub_chars. now rewrite map_map. Qed.

Lemma glyph_cases minute second c :
  glyph minute second c = c \/ glyph minute second c = 39%N
  \/ glyph minute second c = 34%N.
Proof.
  unfold glyph.
  destruct (existsb (N.eqb c) minute);
    match goal with |- context [existsb ?f second] => destruct (existsb f second) end;
    auto.
Qed.

Lemma glyph_clean minute second c :
  Unicode.isspace c = false -> Unicode.isspace (glyph minute second c) = false.
Proof.
  intros H. destruct (glyph_cases minute second c) as [-> | [-> | ->]];
    [assumption | reflexivity | reflexivity].
Qed.

Lemma glyph_idempotent minute second c :
  existsb (N.eqb 34%N) minute = false ->
  glyph minute second (glyph minute second c) = glyph minute second c.
Proof.
  intros H34. unfold glyph.
  destruct (existsb (N.eqb c) minute) eqn:Em.
  - destruct (existsb (N.eqb 39%N) second) eqn:Es.
    + rewrite H34. destruct (existsb (N.eqb 34%N) second); reflexivity.
    + destruct (existsb (N.eqb 39%N) minute); now rewrite Es.
  - destruct (existsb (N.eqb c) second) eqn:Es.
    + rewrite H34. destruct (existsb (N.eqb 34%N) second); reflexivity.
    + now rewrite Em, Es.
Qed.

(** The normalizer is idempotent for any two classes of glyphs, as long as
    the double quote is no minute glyph. *)
Lemma normalize_with_idempotent minute second s :
  existsb (N.eqb 34%N) minute = false ->
  normalize_with minute second (normalize_with minute second s)
  = normalize_with minute second s.
Proof.
  intros H34. rewrite !normalize_with_map.
  rewrite trimmed_strip
    by (apply trimmed_map; [apply glyph_clean | apply strip_trimmed]).
  rewrite map_map. apply map_ext. intros c. now apply glyph_idempotent.
Qed.

End NormalizeFacts.

(** C9: [_normalize_string] is idempotent, and it changes nothing but the
    white space it trims at both ends and the minute and second glyphs: the
    input is a trimmed text [t] between leading and trailing white space,
    the result is as long as [t], and position by position it holds an
    apostrophe for a minute glyph of [t], a double quote for a second glyph,
    and the character of [t] otherwise. *)
Theorem normalize_string_idempotent_and_local :
  forall s,
    _normalize_string (_normalize_string s) = _normalize_string s
    /\ (exists p q t,
           s = p ++ t ++ q
           /\ forallb Unicode.isspace p = true /\ forallb Unicode.isspace q = true
           /\ trimmed t
           /\ length (_normalize_string s) = length t
           /\ forall i c, nth_error t i = Some c ->
                nth_error (_normalize_string s) i
                = Some (if existsb (N.eqb c) MINUTE_CHARACTERS then 39%N
                        else if existsb (N.eqb c) SECOND_CHARACTERS then 34%N
                        else c)).
Proof.
  intros s. split.
  - apply NormalizeFacts.normalize_with_idempotent. reflexivity.
  - destruct (NormalizeFacts.strip_split s) as (p & q & E & Hp & Hq).
    exists p, q, (strip s). split; [exact E|]. split; [exact Hp|]. split; [exact Hq|].
    split; [apply NormalizeFacts.strip_trimmed|].
    unfold _normalize_string. rewrite NormalizeFacts.normalize_with_map.
    split; [apply length_map|].
    intros i c Hi. rewrite nth_error_map, Hi.
    unfold option_map, glyph. cbv zeta.
    destruct (existsb (N.eqb c) MINUTE_CHARACTERS); reflexivity.
Qed.

Lemma normalize_string_idempotent_and_local_witness :
  let s := [32; 52; 51; 176; 52; 52; 8242; 51; 48; 8243; 78; 32; 10]%N in
  _normalize_string (_normalize_string s) = _normalize_string s
  /\ _normalize_string s = [52; 51; 176; 52; 52; 39; 51; 48; 34; 78]%N.
Proof.
  cbv zeta. split.
  - apply (proj1 (normalize_string_idempotent_and_local
                    [32; 52; 51; 176; 52; 52; 8242; 51; 48; 8243; 78; 32; 10]%N)).
  - vm_compute. reflexivity.
Defined.

(** ** Paths of the two grammars *)

Module GrammarFacts.
Import Re ReFacts.
Local Open Scope string_scope.
Local Open Scope list_scope.



Lemma two_chars p q st st' :
  exec (Seq (Chr p) (Chr q)) st st' ->
  exists x y, p x = true /\ q y = true /\ rest st = x :: y :: rest st' /\
              pos st' = 2 + pos st /\ caps st' = caps st.
Proof.
  intros H. apply exec_Seq_inv in H as (st1 & H1 & H2).
  apply exec_Chr_inv in H1 as (x & Hx & R1 & P1 & C1).
  apply exec_Chr_inv in H2 as (y & Hy & R2 & P2 & C2).
  exists x, y. rewrite R1, R2, P2, P1, C2, C1. auto.
Qed.

Lemma ascii_digit_range lo hi x :
  (48 <= lo)%N -> (hi <= 57)%N -> in_range lo hi x = true -> in_range 48%N 57%N x = true.
Proof.
  unfold in_range. intros Hl Hh H. apply andb_true_iff in H as [H1 H2].
  apply N.leb_le in H1, H2. apply andb_true_iff. split; apply N.leb_le; lia.
Qed.

(** Without a decimal point the group of the latitude holds two digits and
    the character after them. *)
Lemma latitude_without_point st0 st :
  exec Parser.decimal_degree_re st0 st ->
  lookup "latpoint" (caps st) = None ->
  exists d1 d2 x,
    lookup "latitude" (caps st) = Some [d1; d2; x]
    /\ in_range 48%N 57%N d1 = true /\ in_range 48%N 57%N d2 = true
    /\ Unicode.isdigit x = false.
Proof.
  unfold Parser.decimal_degree_re. intros H Hp.
  do 4 (let st := fresh "st" in let Ha := fresh "Ha" in
        apply exec_Seq_inv in H as (st & Ha & H); clear Ha).
  apply exec_Seq_inv in H as (st5 & Ha & H).
  rewrite (@exec_frame "latpoint" _ _ _ H eq_refl) in Hp.
  rewrite (@exec_frame "latitude" _ _ _ H eq_refl). clear H.
  apply exec_Grp_inv in Ha as (s1 & Ha & ->). simpl in *.
  apply exec_Seq_inv in Ha as (sa & Hdeg & Ha).
  apply exec_Seq_inv in Ha as (sb & Hpt & Hend).
  apply exec_Cond_inv in Hend as [[C Hend] | [C Hend]].
  { apply (@exec_keeps "latpoint" _ _ _ Hend) in C.
    unfold isset in C. rewrite Hp in C. discriminate. }
  apply exec_Opt_inv in Hpt as [Hpt | ->].
  { apply exec_Grp_sets in Hpt. congruence. }
  apply exec_Chr_inv in Hend as (x & Hx & R & P & _).
  assert (Hd : exists d1 d2, in_range 48%N 57%N d1 = true /\ in_range 48%N 57%N d2 = true /\
                             rest st4 = d1 :: d2 :: rest sa /\ pos sa = 2 + pos st4).
  { apply exec_Alt_inv in Hdeg as [Hdeg | Hdeg].
    - apply two_chars in Hdeg as (d1 & d2 & H1 & H2 & R2 & P2 & _).
      exists d1, d2. repeat split; auto.
      + unfold Parser.digit in H1. simpl in H1. rewrite !orb_false_r in H1.
        eapply ascii_digit_range; [| |exact H1]; lia.
      + unfold Parser.digit in H2. simpl in H2. rewrite !orb_false_r in H2.
        eapply ascii_digit_range; [| |exact H2]; lia.
    - change (lit "90") with (Seq (Chr (ci 57%N)) (Chr (ci 48%N))) in Hdeg.
      apply two_chars in Hdeg as (d1 & d2 & H1 & H2 & R2 & P2 & _).
      exists d1, d2. repeat split; auto.
      + apply N.eqb_eq in H1. now subst.
      + apply N.eqb_eq in H2. now subst. }
  destruct Hd as (d1 & d2 & H1 & H2 & Rd & Pd).
  exists d1, d2, x. repeat split; auto.
  - rewrite Rd, R, P, Pd. replace (S (2 + pos st4) - pos st4) with 3 by lia. reflexivity.
  - now apply negb_true_iff.
Qed.

Lemma one_char p st st' :
  exec (Chr p) st st' ->
  exists x, p x = true /\ rest st = x :: rest st' /\ pos st' = 1 + pos st.
Proof.
  intros H. apply exec_Chr_inv in H as (x & Hx & R & P & _). exists x. auto.
Qed.

Lemma long_degrees_digits st st' :
  exec Parser.long_degrees st st' ->
  exists ds, rest st = ds ++ rest st' /\ pos st' = length ds + pos st
             /\ forallb (in_range 48%N 57%N) ds = true
             /\ (length ds = 2 \/ length ds = 3).
Proof.
  unfold Parser.long_degrees. intros H.
  assert (D : forall lo hi x, (48 <= lo)%N -> (hi <= 57)%N ->
                in_range lo hi x || false || false = true -> in_range 48%N 57%N x = true).
  { intros lo hi x Hl Hh E. rewrite !orb_false_r in E. eapply ascii_digit_range; eauto. }
  assert (L : forall c x, (48 <= c <= 57)%N -> ci c x = true -> in_range 48%N 57%N x = true).
  { intros c x Hc E. unfold ci in E.
    replace (Unicode.is_ascii_upper c || Unicode.is_ascii_lower c)%bool with false in E.
    - apply N.eqb_eq in E. subst x. unfold in_range.
      apply andb_true_iff; split; apply N.leb_le; lia.
    - symmetry. unfold Unicode.is_ascii_upper, Unicode.is_ascii_lower, in_range.
      apply orb_false_iff; split; apply andb_false_iff; left; apply N.leb_gt; lia. }
  apply exec_Alt_inv in H as [H | H].
  - apply exec_Seq_inv in H as (s1 & H1 & H).
    change (lit "1") with (Chr (ci 49%N)) in H1.
    apply one_char in H1 as (a & Ha & Ra & Pa).
    assert (H' : exec (Seq (Chr (fun x => existsb (fun a => existsb (fun b => in_range a b x) (u "7")) (u "0")))
                           (Chr (fun x => existsb (fun a => existsb (fun b => in_range a b x) (u "9")) (u "0")))) s1 st'
                 \/ exec (Seq (Chr (ci 56%N)) (Chr (ci 48%N))) s1 st').
    { apply exec_Alt_inv in H as [H | H]; [left | right]; exact H. }
    destruct H' as [H' | H']; apply two_chars in H' as (b & c & Hb & Hc & R & P & _);
      exists [a; b; c]; rewrite Ra, R, P, Pa;
      (split; [reflexivity|]; split; [simpl; lia|]; split; [|auto]).
    + simpl in Hb, Hc. simpl forallb.
      rewrite (L 49%N a), (D 48%N 55%N b), (D 48%N 57%N c); auto; lia.
    + simpl forallb. rewrite (L 49%N a), (L 56%N b), (L 48%N c); auto; lia.
  - apply exec_Seq_inv in H as (s1 & H1 & H).
    apply two_chars in H as (b & c & Hb & Hc & R & P & _). simpl in Hb, Hc.
    apply exec_Opt_inv in H1 as [H1 | ->].
    + change (lit "0") with (Chr (ci 48%N)) in H1.
      apply one_char in H1 as (a & Ha & Ra & Pa).
      exists [a; b; c]. rewrite Ra, R, P, Pa.
      split; [reflexivity|]. split; [simpl; lia|]. split; [|auto].
      simpl forallb.
      rewrite (L 48%N a), (D 48%N 57%N b), (D 48%N 57%N c); auto; lia.
    + exists [b; c]. rewrite R, P.
      split; [reflexivity|]. split; [simpl; lia|]. split; [|auto].
      simpl forallb.
      rewrite (D 48%N 57%N b), (D 48%N 57%N c); auto; lia.
Qed.

(** Without a decimal point the group of the longitude holds two or three
    digits and the character after them. *)
Lemma longitude_without_point st0 st :
  exec Parser.decimal_degree_re st0 st ->
  lookup "longpoint" (caps st) = None ->
  exists ds x,
    lookup "longitude" (caps st) = Some (ds ++ [x])
    /\ forallb (in_range 48%N 57%N) ds = true
    /\ (length ds = 2 \/ length ds = 3)
    /\ Unicode.isdigit x = false.
Proof.
  unfold Parser.decimal_degree_re. intros H Hp.
  do 12 (let st := fresh "st" in let Ha := fresh "Ha" in
         apply exec_Seq_inv in H as (st & Ha & H); clear Ha).
  apply exec_Seq_inv in H as (st13 & Ha & H).
  rewrite (@exec_frame "longpoint" _ _ _ H eq_refl) in Hp.
  rewrite (@exec_frame "longitude" _ _ _ H eq_refl). clear H.
  apply exec_Grp_inv in Ha as (s1 & Ha & ->). simpl in *.
  apply exec_Seq_inv in Ha as (sa & Hdeg & Ha).
  apply exec_Seq_inv in Ha as (sb & Hpt & Hend).
  apply exec_Cond_inv in Hend as [[C Hend] | [C Hend]].
  { apply (@exec_keeps "longpoint" _ _ _ Hend) in C.
    unfold isset in C. rewrite Hp in C. discriminate. }
  apply exec_Opt_inv in Hpt as [Hpt | ->].
  { apply exec_Grp_sets in Hpt. congruence. }
  apply exec_Chr_inv in Hend as (x & Hx & R & P & _).
  apply long_degrees_digits in Hdeg as (ds & Rd & Pd & Hds & Hlen).
  exists ds, x. repeat split; auto.
  - rewrite Rd, R, P, Pd.
    match goal with
    | |- context [firstn ?k _] =>
        replace k with (length (ds ++ [x]))
          by (rewrite length_app; change (length [x]) with 1; lia)
    end.
    change (x :: rest s1) with ([x] ++ rest s1). rewrite app_assoc.
    now rewrite firstn_app, Nat.sub_diag, firstn_all, app_nil_r.
  - now apply negb_true_iff.
Qed.

(** A match found by a scan is a match at the start of the scan or at a
    later offset. *)
Lemma finditer_from_In r s :
  forall n skip m,
    In m (finditer_from r n s skip) ->
    (skip = 0 /\ match_at r n s = Some m)
    \/ (exists n' s', n < n' /\ match_at r n' s' = Some m).
Proof.
  induction s as [|x s IH]; intros n skip m H.
  - destruct skip; simpl in H; [|contradiction].
    destruct (match_at r n []) eqn:E; [|contradiction].
    destruct H as [<- | []]. auto.
  - assert (R : forall k, In m (finditer_from r (S n) s k) ->
                exists n' s', n < n' /\ match_at r n' s' = Some m).
    { intros k Hk. apply IH in Hk as [[_ Hk] | (n' & s' & Hn & Hk)].
      - exists (S n), s. auto.
      - exists n', s'. split; [lia | assumption]. }
    destruct skip; simpl in H; [|right; eauto].
    destruct (match_at r n (x :: s)) eqn:E.
    + destruct H as [<- | H]; [auto | right; eauto].
    + right; eauto.
Qed.

(** The degree-minute-second grammar is anchored at both ends: a match
    starts at offset 0 and ends at the end of the text, or before a line
    feed that ends the text. *)
Lemma dms_match_is_anchored n s m :
  match_at Parser.degree_min_sec_re n s = Some m ->
  n = 0 /\ m_start m = 0
  /\ (length s = m_end m \/ length s = S (m_end m)).
Proof.
  intros H. apply match_at_sound in H as (st & H & _ & Hs & He).
  pose proof (exec_consumes H) as (w & Hw & Hp). simpl in Hw, Hp.
  unfold Parser.degree_min_sec_re in H.
  apply exec_Seq_inv in H as (st1 & Hbol & H).
  inversion Hbol; subst. simpl in *.
  assert (Hend : rest st = [] \/ rest st = [10%N]).
  { repeat (let st := fresh "st" in let Ha := fresh "Ha" in
           apply exec_Seq_inv in H as (st & Ha & H); clear Ha).
    inversion H; subst. assumption. }
  assert (E0 : m_start m = 0) by assumption.
  split; [exact E0|]. split; [exact E0|].
  rewrite He, Hp, E0, length_app.
  destruct Hend as [-> | ->]; simpl; [left | right]; lia.
Qed.

Lemma dms_scan_is_anchored s m :
  In m (finditer Parser.degree_min_sec_re s) ->
  m_start m = 0 /\ (length s = m_end m \/ length s = S (m_end m)).
Proof.
  unfold finditer. intros H.
  apply finditer_from_In in H as [[_ H] | (n' & s' & Hn & H)].
  - apply dms_match_is_anchored in H as (_ & H1 & H2). auto.
  - apply dms_match_is_anchored in H as (E & _). lia.
Qed.

End GrammarFacts.

(** ** Granularity of latitude and longitude *)




(** ** Whole degrees on the decimal-degree path *)

Lemma ascii_digit_cases d :
  in_range 48%N 57%N d = true -> In d (u "0123456789").
Proof.
  unfold in_range. intros H. apply andb_true_iff in H as [H1 H2].
  apply N.leb_le in H1, H2.
  assert (d = 48 \/ d = 49 \/ d = 50 \/ d = 51 \/ d = 52 \/ d = 53 \/ d = 54
          \/ d = 55 \/ d = 56 \/ d = 57)%N as E by lia.
  simpl. intuition.
Qed.

Lemma two_digits_and_letter :
  forallb (fun a => forallb (fun b => forallb (fun c =>
    no_numeral [a; b; c]) hemisphere_letters) (u "0123456789")) (u "0123456789") = true.
Proof. vm_compute. reflexivity. Qed.

Lemma three_digits_and_letter :
  forallb (fun a => forallb (fun b => forallb (fun c => forallb (fun d =>
    no_numeral [a; b; c; d]) hemisphere_letters) (u "0123456789"))
    (u "0123456789")) (u "0123456789") = true.
Proof. vm_compute. reflexivity. Qed.

(** Two or three digits followed by a hemisphere letter are no numeral. *)
Lemma digits_and_letter_are_no_numeral ds x :
  forallb (in_range 48%N 57%N) ds = true ->
  length ds = 2 \/ length ds = 3 ->
  In x hemisphere_letters ->
  Dec.of_str (ds ++ [x]) = None.
Proof.
  intros Hds Hlen Hx.
  assert (E : no_numeral (ds ++ [x]) = true);
    [|unfold no_numeral in E; destruct (Dec.of_str (ds ++ [x])); [discriminate E | reflexivity]].
  destruct ds as [|a [|b [|c [|d ds]]]]; simpl in Hlen; try lia.
  - apply andb_true_iff in Hds as [Ha Hds].
    apply andb_true_iff in Hds as [Hb _].
    pose proof (proj1 (forallb_forall _ _) two_digits_and_letter
                  a (ascii_digit_cases a Ha)) as Ta.
    pose proof (proj1 (forallb_forall _ _) Ta b (ascii_digit_cases b Hb)) as Tb.
    exact (proj1 (forallb_forall _ _) Tb x Hx).
  - apply andb_true_iff in Hds as [Ha Hds].
    apply andb_true_iff in Hds as [Hb Hds].
    apply andb_true_iff in Hds as [Hc _].
    pose proof (proj1 (forallb_forall _ _) three_digits_and_letter
                  a (ascii_digit_cases a Ha)) as Ta.
    pose proof (proj1 (forallb_forall _ _) Ta b (ascii_digit_cases b Hb)) as Tb.
    pose proof (proj1 (forallb_forall _ _) Tb c (ascii_digit_cases c Hc)) as Tc.
    exact (proj1 (forallb_forall _ _) Tc x Hx).
Qed.

(** C10: when the decimal-degree grammar matches and a coordinate has no
    decimal point, its numeric group holds the digits of the degrees and one
    more character, which is no digit. When this character is a hemisphere
    letter the group is no numeral, the conversion to Decimal raises, and
    [retrieve_lat_long] returns no pair although the grammar matched:
    "52N 43E" is such an input. *)
Theorem whole_degrees_capture_the_next_character :
  (forall n s m,
      Re.match_at Parser.decimal_degree_re n s = Some m ->
      Re.groupdict m "latpoint"%string = None ->
      exists d1 d2 x,
        Re.groupdict m "latitude"%string = Some [d1; d2; x]
        /\ in_range 48%N 57%N d1 = true /\ in_range 48%N 57%N d2 = true
        /\ Unicode.isdigit x = false)
  /\ (forall n s m,
      Re.match_at Parser.decimal_degree_re n s = Some m ->
      Re.groupdict m "longpoint"%string = None ->
      exists ds x,
        Re.groupdict m "longitude"%string = Some (ds ++ [x])
        /\ forallb (in_range 48%N 57%N) ds = true
        /\ (length ds = 2 \/ length ds = 3)
        /\ Unicode.isdigit x = false)
  /\ (forall s m t x,
      Re.re_match Parser.decimal_degree_re s = Some m ->
      Re.groupdict m "latpoint"%string = None ->
      Re.groupdict m "latitude"%string = Some (t ++ [x]) ->
      In x hemisphere_letters ->
      retrieve_lat_long s = Raise InvalidOperation)
  /\ (forall s m t x,
      Re.re_match Parser.decimal_degree_re s = Some m ->
      Re.groupdict m "longpoint"%string = None ->
      Re.groupdict m "longitude"%string = Some (t ++ [x]) ->
      In x hemisphere_letters ->
      forall pair, retrieve_lat_long s <> Ok pair)
  /\ (exists m,
      Re.re_match Parser.decimal_degree_re (u "52N 43E") = Some m
      /\ Re.groupdict m "latpoint"%string = None
      /\ Re.groupdict m "latitude"%string = Some (u "52N")
      /\ Dec.of_str (u "52N") = None
      /\ retrieve_lat_long (u "52N 43E") = Raise InvalidOperation).
Proof.
  assert (Lat : forall n s m,
      Re.match_at Parser.decimal_degree_re n s = Some m ->
      Re.groupdict m "latpoint"%string = None ->
      exists d1 d2 x,
        Re.groupdict m "latitude"%string = Some [d1; d2; x]
        /\ in_range 48%N 57%N d1 = true /\ in_range 48%N 57%N d2 = true
        /\ Unicode.isdigit x = false).
  { intros n s m H Hp.
    apply ReFacts.match_at_sound in H as (st & H & G & _).
    unfold Re.groupdict in *. rewrite G in *.
    now apply GrammarFacts.latitude_without_point with (st0 := Re.MState n s []). }
  assert (Long : forall n s m,
      Re.match_at Parser.decimal_degree_re n s = Some m ->
      Re.groupdict m "longpoint"%string = None ->
      exists ds x,
        Re.groupdict m "longitude"%string = Some (ds ++ [x])
        /\ forallb (in_range 48%N 57%N) ds = true
        /\ (length ds = 2 \/ length ds = 3)
        /\ Unicode.isdigit x = false).
  { intros n s m H Hp.
    apply ReFacts.match_at_sound in H as (st & H & G & _).
    unfold Re.groupdict in *. rewrite G in *.
    now apply GrammarFacts.longitude_without_point with (st0 := Re.MState n s []). }
  split; [exact Lat|]. split; [exact Long|]. split; [|split].
  - intros s m t x H Hp Hl Hx.
    pose proof H as H0. rewrite ReFacts.re_match_at in H0.
    destruct (Lat 0 s m H0 Hp) as (d1 & d2 & x' & E & H1 & H2 & _).
    rewrite Hl in E. injection E as E.
    apply (@app_inj_tail char t [d1; d2] x x') in E as [-> ->].
    unfold retrieve_lat_long. rewrite H.
    unfold _convert_signs, Decimal_trapped, bind. rewrite Hl.
    rewrite (@digits_and_letter_are_no_numeral [d1; d2] x'); auto.
    simpl. now rewrite H1, H2.
  - intros s m t x H Hp Hl Hx pair.
    pose proof H as H0. rewrite ReFacts.re_match_at in H0.
    destruct (Long 0 s m H0 Hp) as (ds & x' & E & Hds & Hlen & _).
    rewrite Hl in E. injection E as E.
    apply app_inj_tail in E as [-> ->].
    unfold retrieve_lat_long. rewrite H.
    unfold _convert_signs, Decimal_trapped, bind. rewrite Hl.
    rewrite (@digits_and_letter_are_no_numeral ds x'); auto.
    destruct (Re.groupdict m "latitude"%string) as [l|]; [|discriminate].
    destruct (Dec.of_str l); discriminate.
  - eexists. split; [vm_compute; reflexivity|].
    repeat split; vm_compute; reflexivity.
Qed.

Lemma whole_degrees_capture_the_next_character_witness :
  exists m,
    Re.re_match Parser.decimal_degree_re (u "52N 43E") = Some m
    /\ (exists d1 d2 x,
           Re.groupdict m "latitude"%string = Some [d1; d2; x]
           /\ in_range 48%N 57%N d1 = true /\ in_range 48%N 57%N d2 = true
           /\ Unicode.isdigit x = false)
    /\ retrieve_lat_long (u "52N 43E") = Raise InvalidOperation.
Proof.
  eexists. split; [vm_compute; reflexivity|]. split.
  - apply (proj1 whole_degrees_capture_the_next_character 0 (u "52N 43E"));
      vm_compute; reflexivity.
  - eapply (proj1 (proj2 (proj2 whole_degrees_capture_the_next_character))
              (u "52N 43E") _ (u "52") 78%N).
    + vm_compute. reflexivity.
    + vm_compute. reflexivity.
    + vm_compute. reflexivity.
    + vm_compute. tauto.
Defined.

(** ** Precision and rendering of the conversion *)

Lemma precision_of_places latmin latsec longmin longsec :
  precision_of latmin latsec longmin longsec
  = Dec.Fin false 1 (- Z.of_nat (places latmin latsec longmin longsec))
  /\ places latmin latsec longmin longsec <= 6.
Proof.
  unfold precision_of, places.
  destruct (negb (str_eqb latsec (u "00")) || negb (str_eqb longsec (u "00")))%bool;
    [split; [reflexivity | lia]|].
  destruct (negb (str_eqb latmin (u "00")) || negb (str_eqb longmin (u "00")))%bool;
    split; try reflexivity; lia.
Qed.

(** One coordinate: degrees below [D], minutes below 60, seconds below 100. *)
Lemma coordinate_below deg min sec D (k : positive) :
  (D + 160 < 1000)%N ->
  Dec.below deg D -> Dec.below min 60 -> Dec.below sec 100 ->
  let ctx := Dec.ExtendedContext in
  Dec.below (Dec.add ctx deg (Dec.div_by ctx (Dec.add ctx min (Dec.div_by ctx sec k)) 60))
            (D + 160).
Proof.
  intros HD Hdeg Hmin Hsec ctx.
  assert (P : (0 < ctx)%Z) by (unfold ctx, Dec.ExtendedContext; lia).
  assert (T : forall B, (B < 1000)%N -> (B < Dec.pow10 ctx)%N).
  { intros B HB. change (Dec.pow10 ctx) with 1000000000%N. lia. }
  apply DecFacts.add_below; [exact P | apply T; lia | exact Hdeg |].
  apply DecFacts.div_by_below; [exact P | apply T; lia |].
  change 160%N with (60 + 100)%N.
  apply DecFacts.add_below; [exact P | apply T; lia | exact Hmin |].
  apply DecFacts.div_by_below; [exact P | apply T; lia | exact Hsec].
Qed.

Lemma rendered_below (dir : option str) (letter : string) v B p q0 q1 :
  (B * 1000000 < 1000000000)%N -> p <= 6 ->
  Dec.below v B ->
  let ctx := Dec.ExtendedContext in
  let v' := if is_str dir letter then Dec.mul ctx v minus_one else v in
  exists s c x c',
    v' = Dec.Fin s c x
    /\ Dec.rounds_half_even c x c' (- Z.of_nat p)
    /\ Dec.quantize ctx v' (Dec.Fin q0 q1 (- Z.of_nat p)) = Dec.Fin s c' (- Z.of_nat p)
    /\ Dec.fixed_point p (Dec.to_str (Dec.Fin s c' (- Z.of_nat p))).
Proof.
  intros HB Hp Hv ctx v'.
  assert (P : (0 < ctx)%Z) by (unfold ctx, Dec.ExtendedContext; lia).
  assert (Hv' : Dec.below v' B).
  { unfold v'. destruct (is_str dir letter); [|exact Hv].
    apply DecFacts.mul_minus_one_below; [exact P | | exact Hv].
    change (Dec.pow10 ctx) with 1000000000%N. lia. }
  destruct v' as [s c x|]; [|contradiction].
  destruct (@DecFacts.quantize_below ctx s c x B (Z.of_nat p) q0 q1 P ltac:(lia))
    as (c' & Hq & Hr & _); [|exact Hv'|].
  { change (Dec.pow10 ctx) with 1000000000%N.
    assert (Dec.pow10 (Z.of_nat p) <= Dec.pow10 6)%N by (apply DecFacts.pow10_le; lia).
    change (Dec.pow10 6) with 1000000%N in H. nia. }
  exists s, c, x, c'. repeat split; auto.
  now apply DecFacts.to_str_fixed_point.
Qed.

(** C3, as the claim states it, fails: the arithmetic is not exact. With
    latitude 50 degrees, 0 minutes and 0.00539 seconds the exact value is
    50.0000014972..., which is 50.000001 at six places. The converter works
    in the extended context of nine significant digits: the sum is rounded
    to 50.0000015 first, the quantization then meets a tie and rounds it to
    the even 50.000002. The grammar accepts such an input. *)
Lemma extended_context_rounds_before_the_quantization :
  _convert_to_lat_lng (Some (u "N")) (Some (u "50")) (u "00") (u "0.00539")
                      (Some (u "W")) (Some (u "100")) (u "00") (u "00")
  = Ok (u "50.000002", u "-100.000000")
  /\ Exact.convert (Some (u "N")) (u "50") (u "00") (u "0.00539")
                   (Some (u "W")) (u "100") (u "00") (u "00")
     = Some (u "50.000001", u "-100.000000")
  /\ retrieve_lat_long (u "50 00 0.00539N 100 00 00W")
     = Ok (u "50.000002", u "-100.000000").
Proof. repeat split; vm_compute; reflexivity. Qed.

(** C3, amended: for fields that are numerals with degrees up to 90 and 180,
    minutes up to 60 and seconds up to 100, the converter returns for each
    coordinate the value degrees + (minutes + seconds / divisor) / 60,
    computed with nine significant digits (every sum and quotient rounded
    half to even in the extended context, not exactly), negated for S and W,
    then quantized half to even at the precision of the field strings: 6
    places if either seconds field is not "00", else 3 if either minutes
    field is not "00", else 0. Each result is rendered in fixed-point
    notation with exactly that many digits after the point. *)
Theorem converter_quantizes_to_field_precision :
  forall latdir latdeg latmin latsec longdir longdeg longmin longsec
         dlat dlatmin dlatsec dlong dlongmin dlongsec,
    Dec.of_str latdeg = Some dlat -> Dec.below dlat 90 ->
    Dec.of_str latmin = Some dlatmin -> Dec.below dlatmin 60 ->
    Dec.of_str latsec = Some dlatsec -> Dec.below dlatsec 100 ->
    Dec.of_str longdeg = Some dlong -> Dec.below dlong 180 ->
    Dec.of_str longmin = Some dlongmin -> Dec.below dlongmin 60 ->
    Dec.of_str longsec = Some dlongsec -> Dec.below dlongsec 100 ->
    let ctx := Dec.ExtendedContext in
    let p := places latmin latsec longmin longsec in
    let e := (- Z.of_nat p)%Z in
    let divisor :=
      if (Dec.gt_int dlatsec 59 || Dec.gt_int dlongsec 59)%bool
      then 100%positive else 60%positive in
    let value deg min sec :=
      Dec.add ctx deg (Dec.div_by ctx (Dec.add ctx min (Dec.div_by ctx sec divisor)) 60) in
    let signed_by dir letter d :=
      if is_str dir letter then Dec.mul ctx d minus_one else d in
    exists sl cl xl cl' sg cg xg cg',
      signed_by latdir "S"%string (value dlat dlatmin dlatsec) = Dec.Fin sl cl xl
      /\ signed_by longdir "W"%string (value dlong dlongmin dlongsec) = Dec.Fin sg cg xg
      /\ Dec.rounds_half_even cl xl cl' e
      /\ Dec.rounds_half_even cg xg cg' e
      /\ _convert_to_lat_lng latdir (Some latdeg) latmin latsec
                             longdir (Some longdeg) longmin longsec
         = Ok (Dec.to_str (Dec.Fin sl cl' e), Dec.to_str (Dec.Fin sg cg' e))
      /\ Dec.fixed_point p (Dec.to_str (Dec.Fin sl cl' e))
      /\ Dec.fixed_point p (Dec.to_str (Dec.Fin sg cg' e)).
Proof.
  intros latdir latdeg latmin latsec longdir longdeg longmin longsec
         dlat dlatmin dlatsec dlong dlongmin dlongsec
         P1 B1 P2 B2 P3 B3 P4 B4 P5 B5 P6 B6.
  cbv zeta.
  destruct (precision_of_places latmin latsec longmin longsec) as [Hprec Hp].
  set (p := places latmin latsec longmin longsec) in *.
  set (divisor := if (Dec.gt_int dlatsec 59 || Dec.gt_int dlongsec 59)%bool
                  then 100%positive else 60%positive).
  pose proof (@coordinate_below dlat dlatmin dlatsec 90 divisor
                ltac:(reflexivity) B1 B2 B3) as Vlat.
  pose proof (@coordinate_below dlong dlongmin dlongsec 180 divisor
                ltac:(reflexivity) B4 B5 B6) as Vlong.
  cbv zeta in Vlat, Vlong.
  destruct (@rendered_below latdir "S" _ (90 + 160)%N p false 1%N ltac:(reflexivity) Hp Vlat)
    as (sl & cl & xl & cl' & E1 & R1 & Q1 & F1).
  destruct (@rendered_below longdir "W" _ (180 + 160)%N p false 1%N ltac:(reflexivity) Hp Vlong)
    as (sg & cg & xg & cg' & E2 & R2 & Q2 & F2).
  exists sl, cl, xl, cl', sg, cg, xg, cg'.
  split; [exact E1|]. split; [exact E2|]. split; [exact R1|]. split; [exact R2|].
  split; [|split; assumption].
  unfold _convert_to_lat_lng, Decimal_untrapped, bind.
  rewrite P1, P2, P3, P4, P5, P6, Hprec.
  unfold divisor in Q1, Q2.
  destruct (Dec.gt_int dlatsec 59 || Dec.gt_int dlongsec 59)%bool;
    rewrite Q1, Q2; reflexivity.
Qed.

Lemma converter_quantizes_to_field_precision_witness :
  exists sl cl' sg cg',
    _convert_to_lat_lng (Some (u "N")) (Some (u "50")) (u "00") (u "0.00539")
                        (Some (u "W")) (Some (u "100")) (u "00") (u "00")
    = Ok (Dec.to_str (Dec.Fin sl cl' (-6)), Dec.to_str (Dec.Fin sg cg' (-6)))
    /\ Dec.fixed_point 6 (Dec.to_str (Dec.Fin sl cl' (-6)))
    /\ Dec.fixed_point 6 (Dec.to_str (Dec.Fin sg cg' (-6))).
Proof.
  assert (B : forall c e b, N.leb (c * Dec.pow10 e) (b * Dec.pow10 (- e)) = true ->
                            Dec.below (Dec.Fin false c e) b)
    by (intros c e b H; apply N.leb_le; exact H).
  destruct (@converter_quantizes_to_field_precision
              (Some (u "N")) (u "50") (u "00") (u "0.00539")
              (Some (u "W")) (u "100") (u "00") (u "00")
              (Dec.Fin false 50 0) (Dec.Fin false 0 0) (Dec.Fin false 539 (-5))
              (Dec.Fin false 100 0) (Dec.Fin false 0 0) (Dec.Fin false 0 0)
              ltac:(vm_compute; reflexivity) (B 50%N 0%Z 90%N eq_refl)
              ltac:(vm_compute; reflexivity) (B 0%N 0%Z 60%N eq_refl)
              ltac:(vm_compute; reflexivity) (B 539%N (-5)%Z 100%N eq_refl)
              ltac:(vm_compute; reflexivity) (B 100%N 0%Z 180%N eq_refl)
              ltac:(vm_compute; reflexivity) (B 0%N 0%Z 60%N eq_refl)
              ltac:(vm_compute; reflexivity) (B 0%N 0%Z 100%N eq_refl))
    as (sl & cl & xl & cl' & sg & cg & xg & cg' & _ & _ & _ & _ & E & F1 & F2).
  exists sl, cl', sg, cg'. split; [exact E|]. split; [exact F1 | exact F2].
Defined.

(** ** Scans with the degree-minute-second grammar

    [replace] and [get_replacements] scan the normalized text with a grammar
    that is anchored at both ends. *)

Module ScanFacts.
Import Re ReFacts.

Section Anchored.
Variable r : re.
Hypothesis anchored : forall n s, match_at r (S n) s = None.

Lemma finditer_from_anchored s :
  forall n k, finditer_from r (S n) s k = [].
Proof.
  induction s as [|x s IH]; intros n k; destruct k; simpl;
    rewrite ?anchored; auto.
Qed.

Lemma finditer_anchored s :
  finditer r s = match match_at r 0 s with Some m => [m] | None => [] end.
Proof.
  unfold finditer. destruct s as [|x s]; simpl.
  - reflexivity.
  - destruct (match_at r 0 (x :: s)); rewrite finditer_from_anchored; reflexivity.
Qed.

Lemma sub_from_anchored repl s :
  forall n k, sub_from r repl (S n) s k = Ok (skipn k s).
Proof.
  induction s as [|x s IH]; intros n k; destruct k; simpl;
    rewrite ?anchored; auto.
  rewrite IH. reflexivity.
Qed.

Lemma re_sub_anchored repl s :
  re_sub r repl s
  = match match_at r 0 s with
    | Some m => item <- repl m ;; Ok (item ++ skipn (m_end m) s)
    | None => Ok s
    end.
Proof.
  unfold re_sub. destruct s as [|x s]; simpl.
  - destruct (match_at r 0 []); [|reflexivity].
    destruct (repl m); simpl; [|reflexivity]. now rewrite skipn_nil.
  - destruct (match_at r 0 (x :: s)); [|now rewrite sub_from_anchored].
    destruct (repl m); simpl; [|reflexivity].
    rewrite Nat.sub_0_r. destruct (m_end m); rewrite sub_from_anchored; reflexivity.
Qed.

End Anchored.

Lemma match_at_span r n s m :
  match_at r n s = Some m ->
  exists st, exec r (MState n s []) st
             /\ m = Match n (pos st) (firstn (pos st - n) s) (caps st).
Proof.
  unfold match_at. intros H. apply run_sound in H as (st & H & E).
  exists st. split; [assumption | congruence].
Qed.

Lemma dms_later n s : match_at Parser.degree_min_sec_re (S n) s = None.
Proof.
  destruct (match_at Parser.degree_min_sec_re (S n) s) eqn:E; [|reflexivity].
  apply GrammarFacts.dms_match_is_anchored in E as (E & _). discriminate E.
Qed.

Lemma dms_match_covers s m :
  match_at Parser.degree_min_sec_re 0 s = Some m ->
  m_start m = 0 /\ m_end m = length (m_group0 m)
  /\ (s = m_group0 m \/ s = m_group0 m ++ [10%N]).
Proof.
  intros H. apply match_at_span in H as (st & H & ->).
  pose proof (exec_consumes H) as (w & Hw & Hp). simpl in Hw, Hp.
  unfold Parser.degree_min_sec_re in H.
  assert (Hend : rest st = [] \/ rest st = [10%N]).
  { repeat (let st := fresh "st" in let Ha := fresh "Ha" in
           apply exec_Seq_inv in H as (st & Ha & H); clear Ha).
    inversion H; subst. assumption. }
  clear H. simpl. rewrite Hp, Nat.sub_0_r, Hw, firstn_app, Nat.sub_diag, firstn_all.
  simpl. rewrite app_nil_r. split; [reflexivity|]. split; [reflexivity|].
  destruct Hend as [-> | ->]; [left; now rewrite app_nil_r | right; reflexivity].
Qed.

Lemma trimmed_no_line_feed w : ~ trimmed (w ++ [10%N]).
Proof.
  intros [_ H]. rewrite rev_app_distr in H. simpl in H. discriminate H.
Qed.

Lemma normalize_trimmed s : trimmed (_normalize_string s).
Proof.
  unfold _normalize_string. rewrite NormalizeFacts.normalize_with_map.
  apply NormalizeFacts.trimmed_map.
  - apply NormalizeFacts.glyph_clean.
  - apply NormalizeFacts.strip_trimmed.
Qed.

Lemma dms_match_trimmed s m :
  trimmed s -> match_at Parser.degree_min_sec_re 0 s = Some m ->
  m_start m = 0 /\ m_end m = length s /\ m_group0 m = s.
Proof.
  intros T H. apply dms_match_covers in H as (H1 & H2 & [H3 | H3]).
  - rewrite <- H3 in H2. auto.
  - rewrite H3 in T. now apply trimmed_no_line_feed in T.
Qed.

Lemma cleanup_degrees parts :
  f_latdeg (_cleanup parts) = parts "latdeg"%string
  /\ f_longdeg (_cleanup parts) = parts "longdeg"%string.
Proof.
  unfold _cleanup.
  destruct (truthy (parts "latdecsec"%string) && truthy (parts "longdecsec"%string))%bool;
    split; reflexivity.
Qed.

Lemma Decimal_untrapped_Some v : exists d, Decimal_untrapped (Some v) = Ok d.
Proof.
  unfold Decimal_untrapped. destruct (Dec.of_str v); eauto.
Qed.

Lemma convert_Some latdir latdeg latmin latsec longdir longdeg longmin longsec :
  exists lat long,
    _convert_to_lat_lng latdir (Some latdeg) latmin latsec
                        longdir (Some longdeg) longmin longsec = Ok (lat, long).
Proof.
  unfold _convert_to_lat_lng.
  destruct (Decimal_untrapped_Some latdeg) as (d1 & ->).
  destruct (Decimal_untrapped_Some latmin) as (d2 & ->).
  destruct (Decimal_untrapped_Some latsec) as (d3 & ->).
  destruct (Decimal_untrapped_Some longdeg) as (d4 & ->).
  destruct (Decimal_untrapped_Some longmin) as (d5 & ->).
  destruct (Decimal_untrapped_Some longsec) as (d6 & ->).
  cbn [bind].
  destruct (Dec.gt_int d3 59 || Dec.gt_int d6 59)%bool; eauto.
Qed.

(** The degrees are part of every match of the degree-minute-second
    grammar, so the conversion of a match raises nothing. *)
Lemma dms_match_converts n s m :
  match_at Parser.degree_min_sec_re n s = Some m ->
  exists lat long, convert_fields (_cleanup (groupdict m)) = Ok (lat, long).
Proof.
  intros H. apply match_at_sound in H as (st & H & G & _).
  pose proof (@exec_sets "latdeg" _ _ _ H eq_refl) as S1.
  pose proof (@exec_sets "longdeg" _ _ _ H eq_refl) as S2.
  unfold isset in S1, S2. rewrite <- G in S1, S2.
  change (lookup "latdeg" (m_groups m)) with (groupdict m "latdeg") in S1.
  change (lookup "longdeg" (m_groups m)) with (groupdict m "longdeg") in S2.
  unfold convert_fields.
  destruct (cleanup_degrees (groupdict m)) as [-> ->].
  destruct (groupdict m "latdeg"); [|discriminate S1].
  destruct (groupdict m "longdeg"); [|discriminate S2].
  apply convert_Some.
Qed.

End ScanFacts.

(** X1: for every text and every substitution function, [get_replacements]
    raises nothing and returns either no entry, when the degree-minute-second
    grammar does not match the whole normalized text, or exactly one entry,
    whose match spans the whole normalized text and whose link is built from
    that text and its converted coordinates. *)
Theorem get_replacements_whole_text_or_nothing
    (R : Type) (sub_function : MapLink -> R) (string : str) :
  let text := _normalize_string string in
  (Re.re_match Parser.degree_min_sec_re text = None
   /\ get_replacements sub_function string = Ok [])
  \/ (exists m lat long,
        Re.re_match Parser.degree_min_sec_re text = Some m
        /\ Re.m_start m = 0 /\ Re.m_end m = length text /\ Re.m_group0 m = text
        /\ convert_fields (_cleanup (Re.groupdict m)) = Ok (lat, long)
        /\ get_replacements sub_function string
           = Ok [(m, sub_function (mkMapLink text lat long))]).
Proof.
  intros text. unfold get_replacements. fold text.
  rewrite (@ScanFacts.finditer_anchored _ ScanFacts.dms_later), ReFacts.re_match_at.
  destruct (Re.match_at Parser.degree_min_sec_re 0 text) as [m|] eqn:E.
  - right.
    destruct (@ScanFacts.dms_match_trimmed _ _ (ScanFacts.normalize_trimmed string) E)
      as (H1 & H2 & H3).
    destruct (@ScanFacts.dms_match_converts _ _ _ E) as (lat & long & C).
    exists m, lat, long. repeat (split; [assumption || reflexivity|]).
    cbn [substitute]. rewrite C, H3. reflexivity.
  - left. split; reflexivity.
Qed.

(** X2: for every text and every substitution function, [replace] raises
    nothing and returns either the normalized text unchanged, when the
    degree-minute-second grammar does not match the whole of it, or the link
    alone, built from the whole normalized text and its converted
    coordinates. *)
Theorem replace_whole_text_or_nothing (sub_function : MapLink -> str) (string : str) :
  let text := _normalize_string string in
  (Re.re_match Parser.degree_min_sec_re text = None
   /\ replace sub_function string = Ok text)
  \/ (exists m lat long,
        Re.re_match Parser.degree_min_sec_re text = Some m
        /\ convert_fields (_cleanup (Re.groupdict m)) = Ok (lat, long)
        /\ replace sub_function string = Ok (sub_function (mkMapLink text lat long))).
Proof.
  intros text. unfold replace. fold text.
  rewrite (@ScanFacts.re_sub_anchored _ ScanFacts.dms_later), ReFacts.re_match_at.
  destruct (Re.match_at Parser.degree_min_sec_re 0 text) as [m|] eqn:E.
  - right.
    destruct (@ScanFacts.dms_match_trimmed _ _ (ScanFacts.normalize_trimmed string) E)
      as (H1 & H2 & H3).
    destruct (@ScanFacts.dms_match_converts _ _ _ E) as (lat & long & C).
    exists m, lat, long. split; [reflexivity|]. split; [assumption|].
    unfold do_replace. rewrite C, H2, H3. cbn [bind fst snd].
    now rewrite skipn_all, app_nil_r.
  - left. split; reflexivity.
Qed.

(** X3: for every text, [replace] returns what the loop in the doctest of
    [get_replacements] makes of the normalized text: each link of
    [get_replacements] written over the span of its match. *)
Theorem replace_is_get_replacements_applied (sub_function : MapLink -> str) (string : str) :
  replace sub_function string
  = (replacements <- get_replacements sub_function string ;;
     Ok (apply_replacements replacements (_normalize_string string) 0)).
Proof.
  unfold replace, get_replacements.
  rewrite (@ScanFacts.re_sub_anchored _ ScanFacts.dms_later).
  rewrite (@ScanFacts.finditer_anchored _ ScanFacts.dms_later).
  destruct (Re.match_at Parser.degree_min_sec_re 0 (_normalize_string string))
    as [m|] eqn:E; [|reflexivity].
  destruct (@ScanFacts.dms_match_trimmed _ _ (ScanFacts.normalize_trimmed string) E)
    as (H1 & H2 & H3).
  cbn [substitute]. unfold do_replace.
  destruct (convert_fields (_cleanup (Re.groupdict m))) as [c|e]; [|reflexivity].
  cbn [bind apply_replacements]. rewrite H1, H2, H3.
  cbn [Z.of_nat]. rewrite !Z.add_0_r, Nat2Z.id. cbn [Z.to_nat firstn app].
  now rewrite skipn_all.
Qed.

(** ** The groups that are set together *)

Module FlowFacts.
Import Re ReFacts Flow.

Lemma val_eqb_eq v : forall w, val_eqb v w = true -> v = w.
Proof.
  induction v as [|g v IH]; intros [|h w] H; try discriminate H; [reflexivity|].
  simpl in H. apply andb_true_iff in H as [H1 H2].
  apply String.eqb_eq in H1. apply IH in H2. congruence.
Qed.

Lemma In_insert x v vs : In x (insert v vs) <-> x = v \/ In x vs.
Proof.
  unfold insert. destruct (existsb (val_eqb v) vs) eqn:E; simpl.
  - split; [auto|]. intros [-> | H]; [|assumption].
    apply existsb_exists in E as (w & Hw & E). apply val_eqb_eq in E. now subst.
  - split; intros [H | H]; auto.
Qed.

Lemma In_union x a b : In x (union a b) <-> In x a \/ In x b.
Proof.
  unfold union. induction a as [|v a IH]; simpl.
  - tauto.
  - rewrite In_insert, IH. intuition.
Qed.

Lemma In_unions (f : list string -> list (list string)) x v vs :
  In v vs -> In x (f v) ->
  In x (fold_right (fun v' acc => union (f v') acc) [] vs).
Proof.
  induction vs as [|w vs IH]; simpl; [tauto|].
  intros [-> | H] Hx; apply In_union; auto.
Qed.

Lemma In_inserts (f : list string -> list string) v vs :
  In v vs -> In (f v) (fold_right (fun v' acc => insert (f v') acc) [] vs).
Proof.
  induction vs as [|w vs IH]; simpl; [tauto|].
  intros [-> | H]; apply In_insert; auto.
Qed.

Lemma mem_In g v : mem g v = true <-> In g v.
Proof.
  unfold mem. rewrite existsb_exists. split.
  - intros (h & H & E). apply String.eqb_eq in E. now subst.
  - intros H. exists g. split; [assumption | apply String.eqb_refl].
Qed.

Lemma mem_set_group gs g h v :
  mem h gs = true -> mem h (set_group gs g v) = (String.eqb h g || mem h v)%bool.
Proof.
  intros H. apply mem_In in H. unfold set_group.
  destruct (String.eqb h g || mem h v)%bool eqn:E.
  - apply mem_In, filter_In. auto.
  - destruct (mem h (filter _ gs)) eqn:F; [|reflexivity].
    apply mem_In, filter_In in F as [_ F]. congruence.
Qed.

Lemma agrees_set gs g w c v :
  agrees gs c v -> agrees gs ((g, w) :: c) (set_group gs g v).
Proof.
  intros A h Hh. rewrite (@mem_set_group gs g h v Hh), <- (A h Hh).
  unfold isset. simpl. destruct (String.eqb h g); reflexivity.
Qed.

Lemma outcomes_sound gs r st st' :
  exec r st st' ->
  forall v, agrees gs (caps st) v ->
  exists v', In v' (outcomes gs r v) /\ agrees gs (caps st') v'.
Proof.
  induction 1; intros v A; simpl; try (exists v; split; [now left | assumption]).
  - destruct (IHexec1 v A) as (v1 & I1 & A1).
    destruct (IHexec2 v1 A1) as (v2 & I2 & A2).
    exists v2. split; [|assumption]. eapply In_unions; eassumption.
  - destruct (IHexec v A) as (v1 & I1 & A1). exists v1. split; [|assumption].
    apply In_union. auto.
  - destruct (IHexec v A) as (v1 & I1 & A1). exists v1. split; [|assumption].
    apply In_union. auto.
  - destruct (IHexec v A) as (v1 & I1 & A1). exists v1. split; [|assumption].
    apply In_union. auto.
  - exists v. split; [|assumption]. apply In_union. right. now left.
  - destruct (IHexec v A) as (v1 & I1 & A1).
    exists (set_group gs g v1). split.
    + now apply In_inserts.
    + now apply agrees_set.
  - destruct (IHexec v A) as (v1 & I1 & A1). exists v1. split; [|assumption].
    destruct (mem g gs) eqn:G.
    + rewrite <- (A g G), H. assumption.
    + apply In_union. auto.
  - destruct (IHexec v A) as (v1 & I1 & A1). exists v1. split; [|assumption].
    destruct (mem g gs) eqn:G.
    + rewrite <- (A g G), H. assumption.
    + apply In_union. auto.
Qed.

(** What holds of every outcome of the pattern holds of the groups of every
    match. *)
Lemma match_outcome gs r (check : list string -> bool) n s m :
  forallb check (outcomes gs r []) = true ->
  match_at r n s = Some m ->
  exists v, check v = true /\ agrees gs (m_groups m) v.
Proof.
  intros C H. apply match_at_sound in H as (st & H & G & _).
  destruct (@outcomes_sound gs _ _ _ H []) as (v & I & A).
  - intros g _. reflexivity.
  - exists v. split.
    + exact (proj1 (forallb_forall _ _) C v I).
    + now rewrite G.
Qed.

End FlowFacts.

Module GroupFacts.
Import Re Flow FlowFacts.
Local Open Scope string_scope.
Local Open Scope list_scope.

(** [settle A]: the groups named in the goal are read in the valuation of
    the path. *)
Ltac settle A :=
  unfold took_part;
  repeat match goal with
         | |- context [isset ?g (m_groups ?m)] =>
             rewrite (A g eq_refl)
         end.

End GroupFacts.

(** X4: in every match of the degree-minute-second grammar, wherever it
    starts, the direction tokens come in pairs: the latitude has a direction
    after its number if and only if the longitude has one after its number;
    the longitude has a direction before its number only if the latitude has
    one before its number; and a minus sign stands only where there is no
    direction before the number. *)
Theorem direction_tokens_go_together :
  forall n s m,
    Re.match_at Parser.degree_min_sec_re n s = Some m ->
    took_part m "latdir2" = took_part m "longdir2"
    /\ (took_part m "longdir" = true -> took_part m "latdir" = true)
    /\ (took_part m "latsign" = true -> took_part m "latdir" = false)
    /\ (took_part m "longsign" = true -> took_part m "longdir" = false).
Proof.
  intros n s m H.
  pose (check := fun v =>
    (Bool.eqb (Flow.mem "latdir2" v) (Flow.mem "longdir2" v)
     && implb (Flow.mem "longdir" v) (Flow.mem "latdir" v)
     && implb (Flow.mem "latsign" v) (negb (Flow.mem "latdir" v))
     && implb (Flow.mem "longsign" v) (negb (Flow.mem "longdir" v)))%bool).
  destruct (@FlowFacts.match_outcome dms_groups Parser.degree_min_sec_re check n s m) as (v & C & A);
    [vm_compute; reflexivity | exact H |].
  GroupFacts.settle A. unfold check in C.
  destruct (Flow.mem "latdir2" v), (Flow.mem "longdir2" v), (Flow.mem "longdir" v),
    (Flow.mem "latdir" v), (Flow.mem "latsign" v), (Flow.mem "longsign" v);
    try discriminate C; auto.
Qed.

Lemma direction_tokens_go_together_witness :
  exists m,
    Re.match_at Parser.degree_min_sec_re 0 (u "51 15 N 89 40 W") = Some m
    /\ took_part m "latdir2" = true
    /\ took_part m "latdir2" = took_part m "longdir2".
Proof.
  eexists. split; [vm_compute; reflexivity|]. split; [vm_compute; reflexivity|].
  match goal with
  | |- took_part ?M _ = _ =>
      assert (H : Re.match_at Parser.degree_min_sec_re 0 (u "51 15 N 89 40 W") = Some M)
        by (vm_compute; reflexivity);
      exact (proj1 (@direction_tokens_go_together 0 (u "51 15 N 89 40 W") M H))
  end.
Defined.

(** X5: in every match of the degree-minute-second grammar, on each side
    the seconds and the decimal fraction of the minutes exclude each other,
    neither occurs without minutes, the group of minutes and seconds is set
    exactly when the minutes are, and a period as degree mark is a degree
    mark. *)
Theorem seconds_and_fraction_need_minutes :
  forall n s m,
    Re.match_at Parser.degree_min_sec_re n s = Some m ->
    (took_part m "latsec" = true -> took_part m "latdecsec" = false)
    /\ (took_part m "longsec" = true -> took_part m "longdecsec" = false)
    /\ (took_part m "latsec" = true \/ took_part m "latdecsec" = true ->
        took_part m "latmin" = true)
    /\ (took_part m "longsec" = true \/ took_part m "longdecsec" = true ->
        took_part m "longmin" = true)
    /\ took_part m "latminsec" = took_part m "latmin"
    /\ took_part m "longminsec" = took_part m "longmin"
    /\ (took_part m "degpd" = true -> took_part m "degmark" = true).
Proof.
  intros n s m H.
  pose (check := fun v =>
    (implb (Flow.mem "latsec" v) (negb (Flow.mem "latdecsec" v))
     && implb (Flow.mem "longsec" v) (negb (Flow.mem "longdecsec" v))
     && implb (Flow.mem "latsec" v || Flow.mem "latdecsec" v) (Flow.mem "latmin" v)
     && implb (Flow.mem "longsec" v || Flow.mem "longdecsec" v) (Flow.mem "longmin" v)
     && Bool.eqb (Flow.mem "latminsec" v) (Flow.mem "latmin" v)
     && Bool.eqb (Flow.mem "longminsec" v) (Flow.mem "longmin" v)
     && implb (Flow.mem "degpd" v) (Flow.mem "degmark" v))%bool).
  destruct (@FlowFacts.match_outcome dms_groups Parser.degree_min_sec_re
              check n s m) as (v & C & A);
    [vm_compute; reflexivity | exact H |].
  GroupFacts.settle A. unfold check in C.
  destruct (Flow.mem "latsec" v), (Flow.mem "latdecsec" v), (Flow.mem "longsec" v),
    (Flow.mem "longdecsec" v), (Flow.mem "latmin" v), (Flow.mem "longmin" v),
    (Flow.mem "latminsec" v), (Flow.mem "longminsec" v), (Flow.mem "degpd" v),
    (Flow.mem "degmark" v);
    try discriminate C; intuition discriminate.
Qed.

Lemma seconds_and_fraction_need_minutes_witness :
  exists m,
    Re.match_at Parser.degree_min_sec_re 0 (u "50 27 55 N 127 27 65 W") = Some m
    /\ took_part m "latsec" = true
    /\ took_part m "latdecsec" = false.
Proof.
  eexists. split; [vm_compute; reflexivity|]. split; [vm_compute; reflexivity|].
  match goal with
  | |- took_part ?M _ = _ =>
      assert (H : Re.match_at Parser.degree_min_sec_re 0 (u "50 27 55 N 127 27 65 W") = Some M)
        by (vm_compute; reflexivity);
      apply (proj1 (@seconds_and_fraction_need_minutes 0 (u "50 27 55 N 127 27 65 W") M H))
  end.
  vm_compute. reflexivity.
Defined.

(** ** Numerals *)

Unset Implicit Arguments.

Module NumeralFacts.
Local Open Scope N_scope.

Lemma digit_in_spec zs c v :
  Unicode.digit_in zs c = Some v ->
  exists z, In z zs /\ z <= c <= z + 9 /\ v = c - z.
Proof.
  induction zs as [|z zs IH]; simpl; [discriminate|].
  unfold in_range. destruct (andb _ _) eqn:E.
  - intros [= <-]. apply andb_true_iff in E as [E1 E2].
    apply N.leb_le in E1, E2. exists z. auto.
  - intros H. destruct (IH H) as (z' & I & R). exists z'. auto.
Qed.

Lemma isdigit_cases c :
  Unicode.isdigit c = true ->
  48 <= c <= 57 \/ 1632 <= c <= 4249 \/ 6112 <= c <= 7257 \/ 42528 <= c.
Proof.
  unfold Unicode.isdigit, Unicode.digit_value.
  destruct (Unicode.digit_in Unicode.digit_zeros c) as [v|] eqn:E; [|discriminate].
  intros _. apply digit_in_spec in E as (z & I & R & _).
  assert (B : forallb digit_block Unicode.digit_zeros = true) by (vm_compute; reflexivity).
  pose proof (proj1 (forallb_forall _ _) B z I) as Hz. unfold digit_block in Hz.
  repeat (apply orb_true_iff in Hz as [Hz | Hz]).
  - apply N.eqb_eq in Hz. lia.
  - apply andb_true_iff in Hz as [H1 H2]. apply N.leb_le in H1, H2. lia.
  - apply andb_true_iff in Hz as [H1 H2]. apply N.leb_le in H1, H2. lia.
  - apply N.leb_le in Hz. lia.
Qed.

Lemma in_range_out lo hi c : c < lo \/ hi < c -> in_range lo hi c = false.
Proof.
  intros H. unfold in_range. apply andb_false_iff.
  destruct H; [left | right]; apply N.leb_gt; assumption.
Qed.

Lemma eqc_out x c : c <> x -> eqc x c = false.
Proof. intros H. unfold eqc. now apply N.eqb_neq. Qed.

Lemma isdigit_not_space c : Unicode.isdigit c = true -> Unicode.isspace c = false.
Proof.
  intros H. apply isdigit_cases in H. unfold Unicode.isspace.
  rewrite !in_range_out, !eqc_out by lia. reflexivity.
Qed.

Lemma digit_value_le c v : Unicode.digit_value c = Some v -> v <= 9.
Proof.
  intros H. apply digit_in_spec in H as (z & _ & R & ->). lia.
Qed.

Lemma ascii_digit_value c :
  in_range 48 57 c = true -> Unicode.digit_value c = Some (c - 48).
Proof.
  intros H. unfold Unicode.digit_value, Unicode.digit_zeros.
  cbn [Unicode.digit_in]. change (48 + 9) with 57. now rewrite H.
Qed.

Lemma ascii_isdigit c : in_range 48 57 c = true -> Unicode.isdigit c = true.
Proof.
  intros H. unfold Unicode.isdigit. now rewrite (ascii_digit_value _ H).
Qed.


Lemma span_digits_app ds tail :
  forallb Unicode.isdigit ds = true ->
  Dec.span_digits (ds ++ tail)
  = (values ds ++ fst (Dec.span_digits tail), snd (Dec.span_digits tail)).
Proof.
  unfold values. induction ds as [|d ds IH]; intros H.
  - simpl. now destruct (Dec.span_digits tail).
  - simpl in H. apply andb_true_iff in H as [H1 H2].
    unfold Unicode.isdigit in H1. simpl.
    destruct (Unicode.digit_value d); [|discriminate H1].
    rewrite (IH H2). now destruct (Dec.span_digits ds).
Qed.

Lemma span_digits_all ds :
  forallb Unicode.isdigit ds = true -> Dec.span_digits ds = (values ds, []).
Proof.
  intros H. pose proof (span_digits_app ds [] H) as E.
  rewrite !app_nil_r in E. exact E.
Qed.

Lemma values_length ds :
  forallb Unicode.isdigit ds = true -> length (values ds) = length ds.
Proof.
  unfold values. induction ds as [|d ds IH]; intros H; [reflexivity|].
  simpl in H. apply andb_true_iff in H as [H1 H2].
  unfold Unicode.isdigit in H1. simpl.
  destruct (Unicode.digit_value d); [|discriminate H1].
  specialize (IH H2). destruct (Dec.span_digits ds). simpl in *. now rewrite IH.
Qed.

Lemma values_le ds : Forall (fun v => v <= 9) (values ds).
Proof.
  unfold values. induction ds as [|d ds IH]; simpl; [constructor|].
  destruct (Unicode.digit_value d) eqn:E; [|constructor].
  destruct (Dec.span_digits ds). simpl in *. constructor; [|assumption].
  exact (digit_value_le _ _ E).
Qed.

Lemma values_cons d ds :
  Unicode.isdigit d = true -> exists v, Unicode.digit_value d = Some v /\ values (d :: ds) = v :: values ds.
Proof.
  unfold Unicode.isdigit, values. simpl.
  destruct (Unicode.digit_value d) as [v|]; [|discriminate]. intros _.
  exists v. split; [reflexivity|]. now destruct (Dec.span_digits ds).
Qed.

Lemma fold_number ds : forall a,
  fold_left (fun a d => 10 * a + d) ds a
  = a * 10 ^ N.of_nat (length ds) + Dec.number_of ds.
Proof.
  unfold Dec.number_of. induction ds as [|d ds IH]; intros a.
  - simpl. lia.
  - cbn [fold_left length]. rewrite IH, (IH (10 * 0 + d)).
    rewrite Nat2N.inj_succ, N.pow_succ_r'. lia.
Qed.

Lemma number_of_app a b :
  Dec.number_of (a ++ b)
  = Dec.number_of a * 10 ^ N.of_nat (length b) + Dec.number_of b.
Proof.
  unfold Dec.number_of at 1. rewrite fold_left_app.
  fold (Dec.number_of a). apply fold_number.
Qed.

Lemma number_of_lt ds :
  Forall (fun v => v <= 9) ds -> Dec.number_of ds < 10 ^ N.of_nat (length ds).
Proof.
  induction ds as [|d ds IH] using rev_ind; intros H.
  - reflexivity.
  - apply Forall_app in H as [H1 H2]. inversion H2; subst.
    rewrite number_of_app, length_app. specialize (IH H1).
    change (length [d]) with 1%nat. change (Dec.number_of [d]) with (10 * 0 + d).
    change (10 ^ N.of_nat 1) with 10.
    rewrite Nat.add_1_r, Nat2N.inj_succ, N.pow_succ_r'. lia.
Qed.

Lemma plain_cases c :
  plain c = true ->
  c = 46 \/ 48 <= c <= 57 \/ 1632 <= c <= 4249 \/ 6112 <= c <= 7257 \/ 42528 <= c.
Proof.
  unfold plain. intros H. apply orb_true_iff in H as [H | H].
  - right. now apply isdigit_cases.
  - left. apply N.eqb_eq in H. auto.
Qed.

Lemma plain_not_space c : plain c = true -> Unicode.isspace c = false.
Proof.
  intros H. apply plain_cases in H. unfold Unicode.isspace.
  rewrite !in_range_out, !eqc_out by lia. reflexivity.
Qed.

Lemma plain_trimmed s : forallb plain s = true -> trimmed s.
Proof.
  intros H.
  assert (C : forall t, forallb plain t = true -> starts_clean t).
  { intros [|c t] Ht; simpl; [exact I|].
    simpl in Ht. apply andb_true_iff in Ht as [Ht _]. now apply plain_not_space. }
  split; apply C; [assumption|].
  apply forallb_forall. intros x Hx. apply in_rev in Hx.
  exact (proj1 (forallb_forall _ _) H x Hx).
Qed.

Lemma plain_no_underscore s :
  forallb plain s = true -> filter (fun c => negb (eqc 95 c)) s = s.
Proof.
  induction s as [|c s IH]; intros H; [reflexivity|].
  simpl in H. apply andb_true_iff in H as [H1 H2]. simpl.
  apply plain_cases in H1. rewrite eqc_out by lia. simpl. now rewrite IH.
Qed.

Lemma plain_no_sign c s :
  Unicode.isdigit c = true -> Dec.parse_sign (c :: s) = (false, c :: s).
Proof.
  intros H. apply isdigit_cases in H. unfold Dec.parse_sign.
  rewrite !eqc_out by lia. reflexivity.
Qed.

Lemma forallb_digits_plain ds :
  forallb Unicode.isdigit ds = true -> forallb plain ds = true.
Proof.
  intros H. apply forallb_forall. intros x Hx. unfold plain.
  now rewrite (proj1 (forallb_forall _ _) H x Hx).
Qed.

(** A string of digits is read as its number. *)
Lemma of_str_integer ip :
  ip <> [] -> forallb Unicode.isdigit ip = true ->
  Dec.of_str ip = Some (Dec.Fin false (Dec.number_of (values ip)) 0).
Proof.
  intros Hne H. unfold Dec.of_str.
  pose proof (forallb_digits_plain _ H) as P.
  rewrite (NormalizeFacts.trimmed_strip (plain_trimmed _ P)), (plain_no_underscore _ P).
  destruct ip as [|c ip]; [congruence|].
  assert (Hc : Unicode.isdigit c = true) by (simpl in H; now apply andb_true_iff in H).
  rewrite (plain_no_sign _ _ Hc), (span_digits_all _ H).
  destruct (values_cons c ip Hc) as (v & _ & E). rewrite app_nil_r, E. reflexivity.
Qed.

(** Digits, a point and digits are read as a number of that many places. *)
Lemma of_str_fraction ip fp :
  ip <> [] -> forallb Unicode.isdigit ip = true -> forallb Unicode.isdigit fp = true ->
  Dec.of_str (ip ++ 46 :: fp)
  = Some (Dec.Fin false (Dec.number_of (values ip ++ values fp))
                  (- Z.of_nat (length fp))).
Proof.
  intros Hne H F. unfold Dec.of_str.
  assert (P : forallb plain (ip ++ 46 :: fp) = true).
  { rewrite forallb_app. cbn [forallb]. rewrite !forallb_digits_plain by assumption.
    reflexivity. }
  rewrite (NormalizeFacts.trimmed_strip (plain_trimmed _ P)), (plain_no_underscore _ P).
  destruct ip as [|c ip]; [congruence|].
  assert (Hc : Unicode.isdigit c = true) by (simpl in H; now apply andb_true_iff in H).
  rewrite <- app_comm_cons, (plain_no_sign _ _ Hc), app_comm_cons.
  rewrite (span_digits_app _ _ H).
  change (Dec.span_digits (46 :: fp)) with (@nil N, 46 :: fp).
  cbn [fst snd]. rewrite app_nil_r.
  change (eqc 46 46) with true. cbv iota. rewrite (span_digits_all _ F).
  destruct (values_cons c ip Hc) as (v & _ & E). rewrite E.
  rewrite <- app_comm_cons, (values_length _ F). reflexivity.
Qed.

End NumeralFacts.

Set Implicit Arguments.

(** ** What the groups hold *)

Module WordFacts.
Import Re ReFacts.

Lemma exec_words r st st' :
  exec r st st' ->
  exists w, rest st = w ++ rest st' /\ pos st' = pos st + length w /\ words r w.
Proof.
  induction 1; simpl.
  - exists []. auto.
  - exists []. auto.
  - exists []. auto.
  - exists [x]. repeat split; [simpl; lia | eauto].
  - destruct IHexec1 as (w1 & R1 & P1 & W1), IHexec2 as (w2 & R2 & P2 & W2).
    exists (w1 ++ w2). rewrite R1, R2, P2, P1, length_app, <- app_assoc.
    repeat split; [lia | eauto].
  - destruct IHexec as (w & R & P & W). exists w. auto.
  - destruct IHexec as (w & R & P & W). exists w. auto.
  - destruct IHexec as (w & R & P & W). exists w. auto.
  - exists []. auto.
  - exists w. auto.
  - destruct IHexec as (w & R & P & W). exists w. auto.
  - destruct IHexec as (w & R & P & W). exists w. auto.
  - destruct IHexec as (w & R & P & W). exists w. auto.
Qed.

Lemma exec_captures g P r st st' :
  exec r st st' -> captures g P r ->
  (forall w, lookup g (caps st) = Some w -> P w) ->
  forall w, lookup g (caps st') = Some w -> P w.
Proof.
  induction 1; simpl; intros C I; auto.
  - destruct C as [C1 C2]. auto.
  - destruct C as [C1 C2]. auto.
  - destruct C as [C1 C2]. auto.
  - destruct C as [C1 C2]. intros w.
    destruct (String.eqb g g0) eqn:E.
    + intros [= <-]. apply (C1 eq_refl).
      apply exec_words in H as (w & R & Pw & W).
      rewrite R, Pw. replace (pos st + length w - pos st) with (length w) by lia.
      now rewrite firstn_app, Nat.sub_diag, firstn_all, app_nil_r.
    + apply IHexec; assumption.
  - destruct C as [C1 C2]. auto.
  - destruct C as [C1 C2]. auto.
Qed.

Lemma captures_plain g P r : groups r = [] -> captures g P r.
Proof.
  induction r; simpl; intros H; auto; try discriminate H.
  - apply app_eq_nil in H as [H1 H2]. auto.
  - apply app_eq_nil in H as [H1 H2]. auto.
  - apply app_eq_nil in H as [H1 H2]. auto.
Qed.

(** What holds of every word a group can hold holds of the group of every
    match. *)
Lemma match_captures g P r n s m w :
  captures g P r -> match_at r n s = Some m -> groupdict m g = Some w -> P w.
Proof.
  intros C H G. apply match_at_sound in H as (st & H & E & _).
  unfold groupdict in G. rewrite E in G.
  apply (exec_captures g P H C); [discriminate | exact G].
Qed.

End WordFacts.

Unset Implicit Arguments.

Module ShapeFacts.
Import Re ReFacts WordFacts NumeralFacts.
Local Open Scope N_scope.

Lemma in_range_spec lo hi x : in_range lo hi x = true <-> lo <= x <= hi.
Proof.
  unfold in_range. rewrite andb_true_iff, !N.leb_le. tauto.
Qed.

Lemma values_ascii x ds :
  48 <= x <= 57 -> values (x :: ds) = (x - 48) :: values ds.
Proof.
  intros H. apply in_range_spec in H.
  destruct (values_cons x ds (ascii_isdigit _ H)) as (v & E & E').
  rewrite (ascii_digit_value _ H) in E. injection E as <-. exact E'.
Qed.

Lemma whole_ascii1 x B : 48 <= x <= 57 -> x - 48 <= B -> whole B [x].
Proof.
  intros Hx HB. split; [discriminate|]. split.
  - cbn [forallb]. rewrite ascii_isdigit by now apply in_range_spec. reflexivity.
  - rewrite values_ascii by assumption. change (values []) with (@nil N).
    unfold Dec.number_of. cbn [fold_left]. lia.
Qed.

Lemma whole_ascii2 x y B :
  48 <= x <= 57 -> 48 <= y <= 57 -> 10 * (x - 48) + (y - 48) <= B -> whole B [x; y].
Proof.
  intros Hx Hy HB. split; [discriminate|]. split.
  - cbn [forallb]. rewrite !ascii_isdigit by now apply in_range_spec. reflexivity.
  - rewrite !values_ascii by assumption. change (values []) with (@nil N).
    unfold Dec.number_of. cbn [fold_left]. lia.
Qed.

Lemma whole_ascii3 x y z B :
  48 <= x <= 57 -> 48 <= y <= 57 -> 48 <= z <= 57 ->
  100 * (x - 48) + 10 * (y - 48) + (z - 48) <= B -> whole B [x; y; z].
Proof.
  intros Hx Hy Hz HB. split; [discriminate|]. split.
  - cbn [forallb]. rewrite !ascii_isdigit by now apply in_range_spec. reflexivity.
  - rewrite !values_ascii by assumption. change (values []) with (@nil N).
    unfold Dec.number_of. cbn [fold_left]. lia.
Qed.

(** One character of [lo-hi], for single characters [lo] and [hi]. *)
Lemma words_digit lo hi w :
  words (Parser.digit (String lo EmptyString) (String hi EmptyString)) w ->
  exists x, w = [x] /\ N_of_ascii lo <= x <= N_of_ascii hi.
Proof.
  intros (x & -> & H). cbn [u existsb] in H. rewrite !orb_false_r in H.
  apply in_range_spec in H. eauto.
Qed.

(** [codes]: the code points of the character literals at hand. *)
Ltac codes :=
  repeat match goal with
         | H : context [N_of_ascii ?a] |- _ =>
             let v := eval vm_compute in (N_of_ascii a) in
             change (N_of_ascii a) with v in H
         | |- context [N_of_ascii ?a] =>
             let v := eval vm_compute in (N_of_ascii a) in
             change (N_of_ascii a) with v
         end.

Lemma words_char c w : words (Chr (eqc c)) w -> w = [c].
Proof.
  intros (x & -> & H). apply N.eqb_eq in H. now subst.
Qed.

(** The degrees of the latitude: [0-8]?[0-9] or 90. *)
Lemma words_latdeg w :
  words (Alt (Seq (Opt (Parser.digit "0" "8")) (Parser.digit "0" "9")) (lit "90")) w ->
  whole 90 w.
Proof.
  intros [(w1 & w2 & -> & H1 & H2) | (w1 & w2 & -> & H1 & H2)].
  - apply words_digit in H2 as (y & -> & Hy). destruct H1 as [H1 | ->].
    + apply words_digit in H1 as (x & -> & Hx). codes; apply whole_ascii2; lia.
    + codes; apply whole_ascii1; lia.
  - apply words_char in H1, H2. subst. codes; apply whole_ascii2; lia.
Qed.

(** The minutes: [0-5]?[0-9]. *)
Lemma words_minutes w :
  words (Seq (Opt (Parser.digit "0" "5")) (Parser.digit "0" "9")) w -> whole 59 w.
Proof.
  intros (w1 & w2 & -> & H1 & H2).
  apply words_digit in H2 as (y & -> & Hy). destruct H1 as [H1 | ->].
  - apply words_digit in H1 as (x & -> & Hx). codes; apply whole_ascii2; lia.
  - codes; apply whole_ascii1; lia.
Qed.

(** The degrees of the longitude: 1[0-7][0-9], 180 or 0?[0-9][0-9]. *)
Lemma words_long_degrees w : words Parser.long_degrees w -> whole 180 w.
Proof.
  intros [(w1 & w2 & -> & H1 & [H2 | H2]) | (w1 & w2 & -> & H1 & H2)].
  - apply words_char in H1. subst.
    destruct H2 as (w3 & w4 & -> & H3 & H4).
    apply words_digit in H3 as (y & -> & Hy), H4 as (z & -> & Hz).
    codes; apply whole_ascii3; lia.
  - apply words_char in H1. subst.
    destruct H2 as (w3 & w4 & -> & H3 & H4).
    apply words_char in H3, H4. subst. codes; apply whole_ascii3; lia.
  - destruct H2 as (w3 & w4 & -> & H3 & H4).
    apply words_digit in H3 as (y & -> & Hy), H4 as (z & -> & Hz).
    destruct H1 as [H1 | ->].
    + apply words_char in H1. subst. codes; apply whole_ascii3; lia.
    + codes; apply whole_ascii2; lia.
Qed.

Lemma whole_digits w k B :
  forallb Unicode.isdigit w = true -> (1 <= length w <= k)%nat ->
  10 ^ N.of_nat k <= B + 1 -> whole B w.
Proof.
  intros H L HB. split; [destruct w; [simpl in L; lia | discriminate]|].
  split; [assumption|].
  pose proof (number_of_lt _ (values_le w)) as V. rewrite (values_length _ H) in V.
  assert (10 ^ N.of_nat (length w) <= 10 ^ N.of_nat k) by (apply N.pow_le_mono_r; lia).
  lia.
Qed.

(** The seconds: one or two digits, then possibly a point and digits. *)
Lemma words_seconds w :
  words (Seq (Rep 1%nat (Some 2%nat) Unicode.isdigit) (Opt (Seq Parser.dot Parser.digits1))) w ->
  seconds_numeral w.
Proof.
  intros (ip & t & -> & (H1 & L1 & L2) & H2). exists ip, t.
  split; [reflexivity|]. split.
  - apply (whole_digits ip 2); [assumption | simpl in L2; lia | reflexivity].
  - destruct H2 as [(w1 & fp & -> & H3 & (H4 & _)) | ->]; [right | now left].
    apply words_char in H3. subst. exists fp. auto.
Qed.

(** The decimal fraction of the minutes: a point and one to three digits. *)
Lemma words_decsec w :
  words (Seq Parser.dot (Rep 1%nat (Some 3%nat) Unicode.isdigit)) w -> fraction w.
Proof.
  intros (w1 & fp & -> & H1 & (H2 & _)). apply words_char in H1. subst.
  exists fp. auto.
Qed.

End ShapeFacts.

Module FieldFacts.
Import Re ReFacts WordFacts NumeralFacts ShapeFacts.
Local Open Scope N_scope.

(** [tests]: every comparison of code points in sight is decided. *)
Ltac tests :=
  repeat match goal with
         | H : context [N.leb ?a ?b] |- _ => destruct (N.leb_spec a b)
         | H : context [N.eqb ?a ?b] |- _ => destruct (N.eqb_spec a b)
         | |- context [N.leb ?a ?b] => destruct (N.leb_spec a b)
         | |- context [N.eqb ?a ?b] => destruct (N.eqb_spec a b)
         end.

(** A letter of a direction matches itself in either case, and the long s
    for an S; the upper case of each is the letter. *)
Lemma ci_letter c x :
  In c [78; 83; 69; 87] -> ci c x = true -> Unicode.toupper x = c.
Proof.
  intros Hc. unfold ci.
  assert (U : (Unicode.is_ascii_upper c || Unicode.is_ascii_lower c)%bool = true).
  { simpl in Hc. decompose [or] Hc; subst; try reflexivity. contradiction. }
  rewrite U. cbv zeta. intros H.
  apply existsb_exists in H as (y & Hy & E). apply N.eqb_eq in E. subst y.
  simpl in Hc. decompose [or] Hc; subst; try contradiction;
    cbn in Hy; decompose [or] Hy; try contradiction;
    match goal with
    | E : _ = Unicode.tolower x |- _ =>
        revert E; unfold Unicode.tolower, Unicode.toupper, Unicode.is_ascii_upper,
          Unicode.is_ascii_lower, in_range, eqc; intros E
    end;
    tests; simpl in *; lia.
Qed.

Lemma words_lit_head c t w :
  words (lit_of (c :: t)) w -> exists x w', w = x :: w' /\ ci c x = true.
Proof.
  destruct t as [|c' t]; simpl.
  - intros (x & -> & H). eauto.
  - intros (w1 & w2 & -> & (x & -> & H) & _). exists x, w2. auto.
Qed.

Lemma words_compass (north south both : string) c1 t1 c2 t2 w :
  u north = c1 :: t1 -> u south = c2 :: t2 ->
  In c1 [78; 83; 69; 87] -> In c2 [78; 83; 69; 87] ->
  (forall x, any_of both x = true -> ci c1 x = true \/ ci c2 x = true) ->
  words (Alt (lit north) (Alt (lit south) (Chr (any_of both)))) w ->
  direction c1 c2 w.
Proof.
  unfold lit. intros -> -> H1 H2 Hb [H | [H | (x & -> & H)]].
  - apply words_lit_head in H as (x & w' & -> & H).
    exists x, w'. split; [reflexivity|]. left. now apply ci_letter.
  - apply words_lit_head in H as (x & w' & -> & H).
    exists x, w'. split; [reflexivity|]. right. now apply ci_letter.
  - exists x, []. split; [reflexivity|].
    destruct (Hb x H); [left | right]; now apply ci_letter.
Qed.

(** NORTH, SOUTH, N or S in any case. *)
Lemma words_north_south w :
  words (Alt (lit "NORTH") (Alt (lit "SOUTH") (Chr (any_of "NS")))) w ->
  direction 78 83 w.
Proof.
  apply (words_compass "NORTH" "SOUTH" "NS" 78 (u "ORTH") 83 (u "OUTH"));
    try reflexivity; try (simpl; tauto).
  intros x H. unfold any_of in H. cbn [u existsb] in H.
  rewrite orb_false_r in H. now apply orb_true_iff in H.
Qed.

(** EAST, WEST, E or W in any case. *)
Lemma words_east_west w :
  words (Alt (lit "EAST") (Alt (lit "WEST") (Chr (any_of "EW")))) w ->
  direction 69 87 w.
Proof.
  apply (words_compass "EAST" "WEST" "EW" 69 (u "AST") 87 (u "EST"));
    try reflexivity; try (simpl; tauto).
  intros x H. unfold any_of in H. cbn [u existsb] in H.
  rewrite orb_false_r in H. now apply orb_true_iff in H.
Qed.

Lemma words_minus w : words (lit "-") w -> w = [45].
Proof. apply words_char. Qed.

End FieldFacts.

Module DmsFacts.
Import Re ReFacts WordFacts NumeralFacts ShapeFacts FieldFacts.
Local Open Scope string_scope.
Local Open Scope list_scope.

(** [walk L]: the groups of the degree-minute-second grammar are visited;
    at the group in question the lemma [L] tells what its words are. *)
Ltac walk L :=
  unfold Parser.degree_min_sec_re, Parser.minutes_mark, Parser.seconds,
    Parser.seconds_mark;
  cbn [captures];
  repeat match goal with
         | |- _ /\ _ => split
         | |- True => exact I
         | |- captures _ _ _ => apply captures_plain; reflexivity
         | |- String.eqb _ _ = true -> _ =>
             let E := fresh "E" in
             intros E; vm_compute in E; first [discriminate E | clear E; exact L]
         end.

Lemma dms_latdeg : captures "latdeg" (whole 90) Parser.degree_min_sec_re.
Proof. walk words_latdeg. Qed.

Lemma dms_longdeg : captures "longdeg" (whole 180) Parser.degree_min_sec_re.
Proof. walk words_long_degrees. Qed.

Lemma dms_latmin : captures "latmin" (whole 59) Parser.degree_min_sec_re.
Proof. walk words_minutes. Qed.

Lemma dms_longmin : captures "longmin" (whole 59) Parser.degree_min_sec_re.
Proof. walk words_minutes. Qed.

Lemma dms_latsec : captures "latsec" seconds_numeral Parser.degree_min_sec_re.
Proof. walk words_seconds. Qed.

Lemma dms_longsec : captures "longsec" seconds_numeral Parser.degree_min_sec_re.
Proof. walk words_seconds. Qed.

Lemma dms_latdecsec : captures "latdecsec" fraction Parser.degree_min_sec_re.
Proof. walk words_decsec. Qed.

Lemma dms_longdecsec : captures "longdecsec" fraction Parser.degree_min_sec_re.
Proof. walk words_decsec. Qed.

Lemma dms_latdir : captures "latdir" (direction 78%N 83%N) Parser.degree_min_sec_re.
Proof. walk words_north_south. Qed.

Lemma dms_latdir2 : captures "latdir2" (direction 78%N 83%N) Parser.degree_min_sec_re.
Proof. walk words_north_south. Qed.

Lemma dms_longdir : captures "longdir" (direction 69%N 87%N) Parser.degree_min_sec_re.
Proof. walk words_east_west. Qed.

Lemma dms_longdir2 : captures "longdir2" (direction 69%N 87%N) Parser.degree_min_sec_re.
Proof. walk words_east_west. Qed.

Lemma dms_latsign : captures "latsign" (fun w => w = [45%N]) Parser.degree_min_sec_re.
Proof. walk words_minus. Qed.

Lemma dms_longsign : captures "longsign" (fun w => w = [45%N]) Parser.degree_min_sec_re.
Proof. walk words_minus. Qed.

End DmsFacts.

(** ** The conversion of a match *)

Module ConvertFacts.
Import Re ReFacts WordFacts NumeralFacts ShapeFacts FieldFacts DmsFacts.
Local Open Scope N_scope.

Lemma numeral_mono B B' w : B <= B' -> numeral B w -> numeral B' w.
Proof.
  intros H (c & e & E & Hd). exists c, e. split; [assumption|]. simpl in *.
  pose proof (DecFacts.pow10_pos (- e)). nia.
Qed.

Lemma whole_numeral B w : whole B w -> numeral B w.
Proof.
  intros (Hne & H & HB). exists (Dec.number_of (values w)), 0%Z.
  split; [now apply of_str_integer|]. simpl.
  change (Dec.pow10 0) with 1. lia.
Qed.

Lemma fraction_numeral B ip t :
  whole B ip -> fraction t -> numeral (B + 1) (ip ++ t).
Proof.
  intros (Hne & H & HB) (fp & -> & F).
  do 2 eexists. split; [now apply of_str_fraction|]. simpl.
  rewrite DecFacts.pow10_nonpos by lia. rewrite Z.opp_involutive.
  unfold Dec.pow10. rewrite <- nat_N_Z, N2Z.id.
  rewrite number_of_app, (values_length _ F).
  pose proof (number_of_lt _ (values_le fp)) as V. rewrite (values_length _ F) in V.
  nia.
Qed.

Lemma seconds_is_numeral w : seconds_numeral w -> numeral 100 w.
Proof.
  intros (ip & t & -> & H & [-> | F]).
  - rewrite app_nil_r. apply (numeral_mono 99); [lia | now apply whole_numeral].
  - now apply (fraction_numeral 99).
Qed.

Lemma whole_00 : whole 59 (u "00").
Proof.
  split; [discriminate|]. split; [reflexivity|]. apply N.leb_le. reflexivity.
Qed.

Lemma minutes_field x :
  (forall w, x = Some w -> whole 59 w) -> whole 59 (or_default x "00").
Proof.
  intros H. destruct x as [[|c t]|]; [apply whole_00 | | apply whole_00].
  apply H. reflexivity.
Qed.

Lemma seconds_field x :
  (forall w, x = Some w -> seconds_numeral w) -> numeral 100 (or_default x "00").
Proof.
  intros H.
  assert (Z : numeral 100 (u "00"))
    by (apply (numeral_mono 59); [lia | apply whole_numeral, whole_00]).
  destruct x as [[|c t]|]; [exact Z | | exact Z].
  apply seconds_is_numeral, H. reflexivity.
Qed.

Lemma fraction_field x :
  truthy x = true -> (forall w, x = Some w -> fraction w) -> fraction (or_default x "").
Proof.
  intros T H. destruct x as [[|c t]|]; try discriminate T. apply H. reflexivity.
Qed.

(** The minutes and seconds that [_cleanup] hands to the conversion are
    numerals below 60 and 100, when the groups hold what the grammar lets
    them hold. *)
Lemma cleanup_fields (parts : string -> option str) :
  (forall w, parts "latmin"%string = Some w -> whole 59 w) ->
  (forall w, parts "longmin"%string = Some w -> whole 59 w) ->
  (forall w, parts "latsec"%string = Some w -> seconds_numeral w) ->
  (forall w, parts "longsec"%string = Some w -> seconds_numeral w) ->
  (forall w, parts "latdecsec"%string = Some w -> fraction w) ->
  (forall w, parts "longdecsec"%string = Some w -> fraction w) ->
  numeral 60 (f_latmin (_cleanup parts)) /\ numeral 100 (f_latsec (_cleanup parts))
  /\ numeral 60 (f_longmin (_cleanup parts)) /\ numeral 100 (f_longsec (_cleanup parts)).
Proof.
  intros M1 M2 S1 S2 D1 D2. unfold _cleanup.
  assert (Z : numeral 100 (u "00"))
    by (apply (numeral_mono 59); [lia | apply whole_numeral, whole_00]).
  destruct (truthy (parts "latdecsec"%string) && truthy (parts "longdecsec"%string))%bool
    eqn:T; cbn [f_latmin f_latsec f_longmin f_longsec].
  - apply andb_true_iff in T as [T1 T2].
    repeat split; try exact Z; apply (fraction_numeral 59);
      auto using minutes_field, fraction_field.
  - repeat split; auto using seconds_field;
      apply (numeral_mono 59); try lia; apply whole_numeral; auto using minutes_field.
Qed.

(** Numerals within the ranges of the grammar are converted to a pair of
    fixed-point numerals at the precision of the field strings. *)
Lemma convert_numerals latdir latdeg latmin latsec longdir longdeg longmin longsec :
  numeral 90 latdeg -> numeral 60 latmin -> numeral 100 latsec ->
  numeral 180 longdeg -> numeral 60 longmin -> numeral 100 longsec ->
  exists lat long,
    _convert_to_lat_lng latdir (Some latdeg) latmin latsec
                        longdir (Some longdeg) longmin longsec = Ok (lat, long)
    /\ Dec.fixed_point (places latmin latsec longmin longsec) lat
    /\ Dec.fixed_point (places latmin latsec longmin longsec) long.
Proof.
  intros (c1 & e1 & P1 & B1) (c2 & e2 & P2 & B2) (c3 & e3 & P3 & B3)
         (c4 & e4 & P4 & B4) (c5 & e5 & P5 & B5) (c6 & e6 & P6 & B6).
  set (dlat := Dec.Fin false c1 e1) in *. set (dlatmin := Dec.Fin false c2 e2) in *.
  set (dlatsec := Dec.Fin false c3 e3) in *. set (dlong := Dec.Fin false c4 e4) in *.
  set (dlongmin := Dec.Fin false c5 e5) in *. set (dlongsec := Dec.Fin false c6 e6) in *.
  destruct (precision_of_places latmin latsec longmin longsec) as [Hprec Hp].
  set (p := places latmin latsec longmin longsec) in *.
  set (divisor := if (Dec.gt_int dlatsec 59 || Dec.gt_int dlongsec 59)%bool
                  then 100%positive else 60%positive).
  pose proof (@coordinate_below dlat dlatmin dlatsec 90 divisor
                ltac:(reflexivity) B1 B2 B3) as Vlat.
  pose proof (@coordinate_below dlong dlongmin dlongsec 180 divisor
                ltac:(reflexivity) B4 B5 B6) as Vlong.
  cbv zeta in Vlat, Vlong.
  destruct (@rendered_below latdir "S" _ (90 + 160)%N p false 1%N ltac:(reflexivity) Hp Vlat)
    as (sl & cl & xl & cl' & E1 & R1 & Q1 & F1).
  destruct (@rendered_below longdir "W" _ (180 + 160)%N p false 1%N ltac:(reflexivity) Hp Vlong)
    as (sg & cg & xg & cg' & E2 & R2 & Q2 & F2).
  exists (Dec.to_str (Dec.Fin sl cl' (- Z.of_nat p))),
         (Dec.to_str (Dec.Fin sg cg' (- Z.of_nat p))).
  split; [|split; assumption].
  unfold _convert_to_lat_lng, Decimal_untrapped, bind.
  rewrite P1, P2, P3, P4, P5, P6, Hprec.
  unfold divisor in Q1, Q2.
  destruct (Dec.gt_int dlatsec 59 || Dec.gt_int dlongsec 59)%bool;
    rewrite Q1, Q2; reflexivity.
Qed.

(** The hemisphere that [_cleanup] derives from direction tokens and
    signs. *)
Lemma cleanup_hemisphere (a b : char) (d1 d2 sign : option str) (letter : string) :
  (forall w, d1 = Some w -> direction a b w) ->
  (forall w, d2 = Some w -> direction a b w) ->
  (forall w, sign = Some w -> w = [45]) ->
  let dir := py_or d1 d2 in
  let dir' := match dir with
              | Some (c :: t) => Some (upper0 (c :: t))
              | _ => match sign with
                     | Some v => if str_eqb v (u "-") then Some (u letter) else dir
                     | None => dir
                     end
              end in
  dir' = None \/ dir' = Some [a] \/ dir' = Some [b] \/ dir' = Some (u letter).
Proof.
  intros H1 H2 H3.
  assert (D : forall d, (forall w, d = Some w -> direction a b w) ->
                d = None \/ exists c t, d = Some (c :: t)
                                        /\ (Unicode.toupper c = a \/ Unicode.toupper c = b)).
  { intros [w|] H; [right | now left].
    destruct (H w eq_refl) as (c & t & -> & Hc). eauto. }
  cbv zeta.
  destruct (D d1 H1) as [-> | (c & t & -> & Hc)].
  - destruct (D d2 H2) as [-> | (c & t & -> & Hc)].
    + simpl. destruct sign as [v|]; [|now left].
      rewrite (H3 v eq_refl). right; right; right. reflexivity.
    + simpl. destruct Hc as [<- | <-]; auto.
  - simpl. destruct Hc as [<- | <-]; auto.
Qed.

End ConvertFacts.

Set Implicit Arguments.

Module MatchFacts.
Import Re ReFacts WordFacts DmsFacts ConvertFacts.

(** The degrees take part in every match. *)
Lemma dms_degrees n s m :
  match_at Parser.degree_min_sec_re n s = Some m ->
  exists latdeg longdeg,
    groupdict m "latdeg" = Some latdeg /\ groupdict m "longdeg" = Some longdeg.
Proof.
  intros H. apply match_at_sound in H as (st & H & G & _).
  pose proof (@exec_sets "latdeg" _ _ _ H eq_refl) as S1.
  pose proof (@exec_sets "longdeg" _ _ _ H eq_refl) as S2.
  unfold isset in S1, S2. rewrite <- G in S1, S2. unfold groupdict.
  destruct (lookup "latdeg" (m_groups m)); [|discriminate S1].
  destruct (lookup "longdeg" (m_groups m)); [|discriminate S2].
  eauto.
Qed.

End MatchFacts.

(** X6: whatever text the degree-minute-second grammar matches, the
    conversion of its cleaned-up groups raises nothing and yields no NaN: it
    returns a pair of fixed-point numerals, each with exactly as many digits
    after the point as the precision of the fields asks for (6, 3 or 0). *)
Theorem dms_match_converts_to_fixed_point :
  forall n s m,
    Re.match_at Parser.degree_min_sec_re n s = Some m ->
    let f := _cleanup (Re.groupdict m) in
    let p := places (f_latmin f) (f_latsec f) (f_longmin f) (f_longsec f) in
    exists lat long,
      convert_fields f = Ok (lat, long)
      /\ Dec.fixed_point p lat /\ Dec.fixed_point p long.
Proof.
  intros n s m H f p.
  destruct (@MatchFacts.dms_degrees n s m H) as (latdeg & longdeg & E1 & E2).
  pose proof (fun g P w C => @WordFacts.match_captures g P _ n s m w C H) as K.
  destruct (@ConvertFacts.cleanup_fields (Re.groupdict m)
              (fun w => K "latmin"%string _ w DmsFacts.dms_latmin)
              (fun w => K "longmin"%string _ w DmsFacts.dms_longmin)
              (fun w => K "latsec"%string _ w DmsFacts.dms_latsec)
              (fun w => K "longsec"%string _ w DmsFacts.dms_longsec)
              (fun w => K "latdecsec"%string _ w DmsFacts.dms_latdecsec)
              (fun w => K "longdecsec"%string _ w DmsFacts.dms_longdecsec))
    as (N1 & N2 & N3 & N4).
  unfold convert_fields. fold f in N1, N2, N3, N4 |- *.
  destruct (@ScanFacts.cleanup_degrees (Re.groupdict m)) as [D1 D2].
  fold f in D1, D2. rewrite D1, D2, E1, E2.
  apply ConvertFacts.convert_numerals; try assumption.
  - apply ConvertFacts.whole_numeral, (K "latdeg"%string _ latdeg DmsFacts.dms_latdeg E1).
  - apply ConvertFacts.whole_numeral, (K "longdeg"%string _ longdeg DmsFacts.dms_longdeg E2).
Qed.

Lemma dms_match_converts_to_fixed_point_witness :
  exists m lat long,
    Re.match_at Parser.degree_min_sec_re 0 (u "58147N/07720W") = Some m
    /\ convert_fields (_cleanup (Re.groupdict m)) = Ok (lat, long)
    /\ Dec.fixed_point 6 lat /\ Dec.fixed_point 6 long.
Proof.
  eexists ?[m].
  assert (H : Re.match_at Parser.degree_min_sec_re 0 (u "58147N/07720W") = Some ?m)
    by (vm_compute; reflexivity).
  destruct (@dms_match_converts_to_fixed_point 0 (u "58147N/07720W") _ H)
    as (lat & long & E & F1 & F2).
  exists lat, long. split; [exact H|]. split; [exact E|]. split; [exact F1 | exact F2].
Defined.

(** X7: for every match of the degree-minute-second grammar, the
    hemisphere that [_cleanup] hands on for the latitude is unset, "N" or
    "S", and the one for the longitude is unset, "E" or "W", whatever the
    case or the length of the direction tokens. *)
Theorem cleanup_hemispheres_are_letters :
  forall n s m,
    Re.match_at Parser.degree_min_sec_re n s = Some m ->
    let f := _cleanup (Re.groupdict m) in
    In (f_latdir f) [None; Some (u "N"); Some (u "S")]
    /\ In (f_longdir f) [None; Some (u "E"); Some (u "W")].
Proof.
  intros n s m H f.
  pose proof (fun g P w C => @WordFacts.match_captures g P _ n s m w C H) as K.
  pose proof (@ConvertFacts.cleanup_hemisphere 78%N 83%N
                (Re.groupdict m "latdir") (Re.groupdict m "latdir2")
                (Re.groupdict m "latsign") "S"
                (fun w => K "latdir"%string _ w DmsFacts.dms_latdir)
                (fun w => K "latdir2"%string _ w DmsFacts.dms_latdir2)
                (fun w => K "latsign"%string _ w DmsFacts.dms_latsign)) as L1.
  pose proof (@ConvertFacts.cleanup_hemisphere 69%N 87%N
                (Re.groupdict m "longdir") (Re.groupdict m "longdir2")
                (Re.groupdict m "longsign") "W"
                (fun w => K "longdir"%string _ w DmsFacts.dms_longdir)
                (fun w => K "longdir2"%string _ w DmsFacts.dms_longdir2)
                (fun w => K "longsign"%string _ w DmsFacts.dms_longsign)) as L2.
  cbv zeta in L1, L2.
  change [78%N] with (u "N") in L1. change [83%N] with (u "S") in L1.
  change [69%N] with (u "E") in L2. change [87%N] with (u "W") in L2.
  unfold f, _cleanup. cbv zeta.
  destruct (truthy (Re.groupdict m "latdecsec") && truthy (Re.groupdict m "longdecsec"))%bool;
    cbn [f_latdir f_longdir In];
    (split; [clear L2; destruct L1 as [-> | [-> | [-> | ->]]]
            | clear L1; destruct L2 as [-> | [-> | [-> | ->]]]]); auto.
Qed.

Lemma cleanup_hemispheres_are_letters_witness :
  exists m,
    Re.match_at Parser.degree_min_sec_re 0 (u "46 30 south 57 05 west") = Some m
    /\ In (f_latdir (_cleanup (Re.groupdict m))) [None; Some (u "N"); Some (u "S")]
    /\ f_latdir (_cleanup (Re.groupdict m)) = Some (u "S")
    /\ f_longdir (_cleanup (Re.groupdict m)) = Some (u "W").
Proof.
  eexists ?[m].
  assert (H : Re.match_at Parser.degree_min_sec_re 0 (u "46 30 south 57 05 west") = Some ?m)
    by (vm_compute; reflexivity).
  split; [exact H|]. split.
  - exact (proj1 (@cleanup_hemispheres_are_letters 0 (u "46 30 south 57 05 west") _ H)).
  - split; vm_compute; reflexivity.
Defined.

(** ** The decimal-degree path *)

Unset Implicit Arguments.

Module DecimalDegreeFacts.
Import Re ReFacts WordFacts NumeralFacts ShapeFacts.
Local Open Scope string_scope.
Local Open Scope list_scope.

(** A group holds the word of the path through it. *)
Lemma exec_Grp_word g a st st' :
  exec (Grp g a) st st' ->
  exists st1 w, exec a st st1 /\ rest st = w ++ rest st1
                /\ pos st1 = pos st + length w
                /\ st' = MState (pos st1) (rest st1) ((g, w) :: caps st1).
Proof.
  intros H. apply exec_Grp_inv in H as (st1 & H & ->).
  pose proof (@exec_consumes _ _ _ H) as (w & R & P).
  exists st1, w. repeat split; try assumption.
  rewrite R, P. replace (pos st + length w - pos st) with (length w) by lia.
  now rewrite firstn_app, Nat.sub_diag, firstn_all, app_nil_r.
Qed.

(** The degrees of the latitude on the decimal-degree path: [0-8][0-9] or 90. *)
Lemma words_two_digits w :
  words (Alt (Seq (Parser.digit "0" "8") (Parser.digit "0" "9")) (lit "90")) w ->
  whole 90 w.
Proof.
  intros [(w1 & w2 & -> & H1 & H2) | (w1 & w2 & -> & H1 & H2)].
  - apply words_digit in H1 as (x & -> & Hx), H2 as (y & -> & Hy).
    codes; apply whole_ascii2; lia.
  - apply words_char in H1, H2. subst. codes; apply whole_ascii2; lia.
Qed.

(** A coordinate of the decimal-degree grammar: the degrees, an optional
    point in a group of its own and, if the point is there, digits, else one
    character that is no digit. With the point the words are numerals. *)
Lemma coordinate_with_point (point : string) (degrees : re) B st st' :
  groups degrees = [] ->
  (forall w, words degrees w -> whole B w) ->
  exec (Seq degrees (Seq (Opt (Grp point Parser.dot))
                         (Cond point Parser.digits1 Parser.nondigit))) st st' ->
  isset point (caps st) = false ->
  isset point (caps st') = true ->
  exists ip fp : str, rest st = (ip ++ 46%N :: fp) ++ rest st'
                /\ whole B ip /\ forallb Unicode.isdigit fp = true.
Proof.
  intros G W H I0 I1.
  apply exec_Seq_inv in H as (sa & Hdeg & H).
  apply exec_Seq_inv in H as (sb & Hpt & Hend).
  assert (Ia : isset point (caps sa) = false).
  { rewrite (@isset_frame point _ _ _ Hdeg); [exact I0|].
    unfold mentions. now rewrite G. }
  apply exec_words in Hdeg as (ip & Rd & _ & Wd).
  apply exec_Opt_inv in Hpt as [Hpt | ->].
  - pose proof (@exec_Grp_sets _ _ _ _ Hpt) as C.
    apply exec_words in Hpt as (wp & Rp & _ & Wp). apply words_char in Wp. subst wp.
    apply exec_Cond_inv in Hend as [[_ Hend] | [C' _]]; [|congruence].
    apply exec_words in Hend as (fp & Rf & _ & (Wf & _)).
    exists ip, fp. rewrite Rd, Rp, Rf, <- app_assoc. simpl. auto.
  - apply exec_Cond_inv in Hend as [[C _] | [_ Hend]]; [congruence|].
    rewrite (@isset_frame point _ _ _ Hend eq_refl) in I1. congruence.
Qed.


(** With a decimal point the group of the latitude holds a numeral: two
    digits, the point and digits. *)
Lemma latitude_with_point st0 st :
  exec Parser.decimal_degree_re st0 st ->
  isset "latpoint" (caps st0) = false ->
  isset "latpoint" (caps st) = true ->
  exists ip fp : str, lookup "latitude" (caps st) = Some (ip ++ 46%N :: fp)
                /\ whole 90 ip /\ forallb Unicode.isdigit fp = true.
Proof.
  unfold Parser.decimal_degree_re. intros H I0 I1.
  do 4 (let st := fresh "st" in let Ha := fresh "Ha" in
        apply exec_Seq_inv in H as (st & Ha & H);
        rewrite <- (@isset_frame "latpoint" _ _ _ Ha eq_refl) in I0; clear Ha).
  apply exec_Seq_inv in H as (st5 & Ha & H).
  rewrite (@isset_frame "latpoint" _ _ _ H eq_refl) in I1.
  rewrite (@exec_frame "latitude" _ _ _ H eq_refl). clear H.
  apply exec_Grp_word in Ha as (s1 & w & Ha & R & _ & ->).
  change (isset "latpoint" (caps s1) = true) in I1.
  destruct (coordinate_with_point "latpoint"
              (Alt (Seq (Parser.digit "0" "8") (Parser.digit "0" "9")) (lit "90"))
              90 _ _ eq_refl words_two_digits Ha I0 I1)
    as (ip & fp & R' & Hip & Hfp).
  rewrite R in R'. apply app_inv_tail in R'. subst w.
  exists ip, fp. auto.
Qed.

(** With a decimal point the group of the longitude holds a numeral: two or
    three digits, the point and digits. *)
Lemma longitude_with_point st0 st :
  exec Parser.decimal_degree_re st0 st ->
  isset "longpoint" (caps st0) = false ->
  isset "longpoint" (caps st) = true ->
  exists ip fp : str, lookup "longitude" (caps st) = Some (ip ++ 46%N :: fp)
                /\ whole 180 ip /\ forallb Unicode.isdigit fp = true.
Proof.
  unfold Parser.decimal_degree_re. intros H I0 I1.
  do 12 (let st := fresh "st" in let Ha := fresh "Ha" in
         apply exec_Seq_inv in H as (st & Ha & H);
         rewrite <- (@isset_frame "longpoint" _ _ _ Ha eq_refl) in I0; clear Ha).
  apply exec_Seq_inv in H as (st13 & Ha & H).
  rewrite (@isset_frame "longpoint" _ _ _ H eq_refl) in I1.
  rewrite (@exec_frame "longitude" _ _ _ H eq_refl). clear H.
  apply exec_Grp_word in Ha as (s1 & w & Ha & R & _ & ->).
  change (isset "longpoint" (caps s1) = true) in I1.
  destruct (coordinate_with_point "longpoint" Parser.long_degrees
              180 _ _ eq_refl words_long_degrees Ha I0 I1)
    as (ip & fp & R' & Hip & Hfp).
  rewrite R in R'. apply app_inv_tail in R'. subst w.
  exists ip, fp. auto.
Qed.

(** Both coordinates take part in every match of the decimal-degree
    grammar. *)
Lemma decimal_coordinates n s m :
  match_at Parser.decimal_degree_re n s = Some m ->
  exists latitude longitude,
    groupdict m "latitude" = Some latitude /\ groupdict m "longitude" = Some longitude.
Proof.
  intros H. apply match_at_sound in H as (st & H & G & _).
  pose proof (@exec_sets "latitude" _ _ _ H eq_refl) as S1.
  pose proof (@exec_sets "longitude" _ _ _ H eq_refl) as S2.
  unfold isset in S1, S2. rewrite <- G in S1, S2. unfold groupdict.
  destruct (lookup "latitude" (m_groups m)); [|discriminate S1].
  destruct (lookup "longitude" (m_groups m)); [|discriminate S2].
  eauto.
Qed.

Lemma fraction_parses B (ip fp : str) :
  whole B ip -> forallb Unicode.isdigit fp = true ->
  exists d, Dec.of_str (ip ++ 46%N :: fp) = Some d.
Proof.
  intros (Hne & H & _) F. eexists. now apply of_str_fraction.
Qed.

(** The sign normalizer raises no TypeError on the groups of a match, and
    nothing at all when both coordinates have a decimal point. *)
Lemma convert_signs_of_match n s m :
  match_at Parser.decimal_degree_re n s = Some m ->
  (exists pair, _convert_signs (groupdict m) = Ok pair)
  \/ (_convert_signs (groupdict m) = Raise InvalidOperation
      /\ (took_part m "latpoint" = false \/ took_part m "longpoint" = false)).
Proof.
  intros H. destruct (decimal_coordinates _ _ _ H) as (la & lo & E1 & E2).
  unfold _convert_signs. rewrite E1, E2. unfold Decimal_trapped.
  apply match_at_sound in H as (st & H & G & _).
  unfold took_part, groupdict in *. rewrite G in *.
  destruct (isset "latpoint" (caps st)) eqn:P1.
  - destruct (latitude_with_point _ _ H eq_refl P1) as (ip & fp & L & Hip & Hfp).
    rewrite L in E1. injection E1 as <-.
    destruct (fraction_parses _ _ _ Hip Hfp) as (d1 & ->). cbn [bind].
    destruct (isset "longpoint" (caps st)) eqn:P2.
    + destruct (longitude_with_point _ _ H eq_refl P2) as (ip' & fp' & L' & Hip' & Hfp').
      rewrite L' in E2. injection E2 as <-.
      destruct (fraction_parses _ _ _ Hip' Hfp') as (d2 & ->). cbn [bind].
      left. eauto.
    + destruct (Dec.of_str lo); cbn [bind]; [left; eauto | right; auto].
  - destruct (Dec.of_str la); cbn [bind]; [|right; auto].
    destruct (Dec.of_str lo); cbn [bind]; [left; eauto|].
    right. split; [reflexivity | now left].
Qed.

End DecimalDegreeFacts.

(** X8: [retrieve_lat_long] raises in two ways only. When it raises
    AttributeError, neither grammar matched (the decimal-degree one on the
    text as given, the degree-minute-second one on the normalized text);
    when it raises InvalidOperation, the decimal-degree grammar matched and
    one of the coordinates has no decimal point. It never raises TypeError,
    and it raises nothing when the degree-minute-second grammar is the one
    that matched, or when both coordinates of a decimal-degree match have a
    decimal point. *)
Theorem retrieve_lat_long_raises_only :
  forall s e,
    retrieve_lat_long s = Raise e ->
    (e = AttributeError
     /\ Re.re_match Parser.decimal_degree_re s = None
     /\ Re.re_match Parser.degree_min_sec_re (_normalize_string s) = None)
    \/ (e = InvalidOperation
        /\ exists m, Re.re_match Parser.decimal_degree_re s = Some m
                     /\ (took_part m "latpoint" = false \/ took_part m "longpoint" = false)).
Proof.
  intros s e. unfold retrieve_lat_long.
  destruct (Re.re_match Parser.decimal_degree_re s) as [m|] eqn:E1.
  - rewrite ReFacts.re_match_at in E1.
    destruct (DecimalDegreeFacts.convert_signs_of_match _ _ _ E1) as [(pair & ->) | (-> & P)];
      [discriminate|].
    intros [= <-]. right. split; [reflexivity|]. exists m. auto.
  - destruct (Re.re_match Parser.degree_min_sec_re (_normalize_string s)) as [m|] eqn:E2.
    + rewrite ReFacts.re_match_at in E2.
      destruct (@ScanFacts.dms_match_converts _ _ _ E2) as (lat & long & ->). discriminate.
    + intros [= <-]. left. auto.
Qed.

Lemma retrieve_lat_long_raises_only_witness :
  retrieve_lat_long (u "52N 43E") = Raise InvalidOperation
  /\ exists m, Re.re_match Parser.decimal_degree_re (u "52N 43E") = Some m
               /\ (took_part m "latpoint" = false \/ took_part m "longpoint" = false).
Proof.
  assert (H : retrieve_lat_long (u "52N 43E") = Raise InvalidOperation)
    by (vm_compute; reflexivity).
  split; [exact H|].
  destruct (@retrieve_lat_long_raises_only (u "52N 43E") InvalidOperation H)
    as [(E & _) | (_ & R)]; [discriminate E | exact R].
Defined.

(** ** Anchored grammars *)

Module AnchorFacts.
Import Re ReFacts.

Lemma exec_starts r st st' :
  starts_at_start r = true -> exec r st st' -> pos st = 0.
Proof.
  destruct r as [| | | |a b| | | | |]; try discriminate.
  destruct a; try discriminate. intros _ H.
  apply exec_Seq_inv in H as (st1 & H & _). now inversion H.
Qed.

Lemma exec_ends r :
  ends_at_end r = true ->
  forall st st', exec r st st' -> rest st' = [] \/ rest st' = [10%N].
Proof.
  induction r; try discriminate; simpl; intros E st st' H.
  - now inversion H.
  - apply exec_Seq_inv in H as (st1 & _ & H). eauto.
Qed.

Section Anchored.
Variable r : re.
Hypothesis at_start : starts_at_start r = true.
Hypothesis at_end : ends_at_end r = true.

Lemma anchored_later n s : match_at r (S n) s = None.
Proof.
  destruct (match_at r (S n) s) eqn:E; [|reflexivity].
  apply match_at_sound in E as (st & H & _).
  apply (exec_starts _ _ _ at_start) in H. discriminate H.
Qed.

Lemma anchored_covers s m :
  match_at r 0 s = Some m ->
  m_start m = 0 /\ m_end m = length (m_group0 m)
  /\ (s = m_group0 m \/ s = m_group0 m ++ [10%N]).
Proof.
  intros H. apply ScanFacts.match_at_span in H as (st & H & ->).
  pose proof (@exec_consumes _ _ _ H) as (w & Hw & Hp). simpl in Hw, Hp.
  apply (exec_ends _ at_end) in H. simpl.
  rewrite Hp, Nat.sub_0_r, Hw, firstn_app, Nat.sub_diag, firstn_all.
  simpl. rewrite app_nil_r. split; [reflexivity|]. split; [reflexivity|].
  destruct H as [-> | ->]; [left; now rewrite app_nil_r | right; reflexivity].
Qed.

End Anchored.

End AnchorFacts.

(** X9: each of the two grammars of [all_re] begins and ends with an
    anchor, so a scan of a text with it finds nothing, or exactly one match,
    the match at the start of the text, which covers the whole text up to a
    line feed that may end it. *)
Theorem grammars_find_the_whole_text_or_nothing :
  forall r s,
    In r all_re ->
    (Re.re_match r s = None /\ Re.finditer r s = [])
    \/ (exists m, Re.re_match r s = Some m /\ Re.finditer r s = [m]
                  /\ Re.m_start m = 0
                  /\ (s = Re.m_group0 m \/ s = Re.m_group0 m ++ [10%N])).
Proof.
  intros r s Hr.
  assert (A : starts_at_start r = true /\ ends_at_end r = true).
  { destruct Hr as [<- | [<- | []]]; split; reflexivity. }
  destruct A as [A1 A2].
  rewrite (@ScanFacts.finditer_anchored r (AnchorFacts.anchored_later r A1) s),
    ReFacts.re_match_at.
  destruct (Re.match_at r 0 s) as [m|] eqn:E; [right | left; auto].
  destruct (AnchorFacts.anchored_covers r A2 s m E) as (H1 & _ & H2).
  exists m. auto.
Qed.

Lemma grammars_find_the_whole_text_or_nothing_witness :
  exists m,
    Re.finditer Parser.degree_min_sec_re (u "58N/077W") = [m]
    /\ Re.m_start m = 0.
Proof.
  destruct (@grammars_find_the_whole_text_or_nothing
              Parser.degree_min_sec_re (u "58N/077W") (or_intror (or_introl eq_refl)))
    as [(E & _) | (m & _ & F & S & _)].
  - vm_compute in E. discriminate E.
  - exists m. split; [exact F | exact S].
Defined.

(** ** Hemispheres and signs *)

Module SignFacts.
Import Dec DecFacts.
Local Open Scope N_scope.

Lemma fix_settled prec c e :
  (0 < prec)%Z -> settled prec (fix_ prec (Fin false c e)).
Proof.
  intros P. unfold fix_.
  destruct (prec <? ndigits c)%Z eqn:E1.
  - apply Z.ltb_lt in E1.
    set (k := (ndigits c - prec)%Z).
    set (q := round_half_even c k).
    destruct (prec <? ndigits q)%Z eqn:E2.
    + split; [reflexivity|].
      destruct (ndigits_spec c) as (_ & Hc & _).
      assert (Hq : q <= pow10 prec).
      { apply round_le. rewrite <- pow10_add by (unfold k; lia).
        replace (prec + k)%Z with (ndigits c) by (unfold k; lia). lia. }
      apply digits_below; [|lia].
      pose proof (pow10_pos prec).
      assert (q / 10 < q \/ q = 0).
      { destruct (N.eq_dec q 0); [now right | left].
        apply N.div_lt; lia. }
      assert (q / 10 <= q) by (apply N.Div0.div_le_upper_bound; lia).
      destruct (N.eq_dec q (pow10 prec)) as [Eq | Nq]; [|lia].
      destruct H0; [lia|]. lia.
    + apply Z.ltb_ge in E2. split; [reflexivity | assumption].
  - apply Z.ltb_ge in E1. split; [reflexivity | assumption].
Qed.

Lemma add_settled prec c1 e1 c2 e2 :
  (0 < prec)%Z -> settled prec (add prec (Fin false c1 e1) (Fin false c2 e2)).
Proof.
  intros P. unfold add, signed.
  set (z := (Z.of_N _ + Z.of_N _)%Z).
  assert (Hz : (0 <= z)%Z) by (unfold z; lia).
  replace (if (z =? 0)%Z then (false && false)%bool else (z <? 0)%Z) with false.
  - now apply fix_settled.
  - destruct (z =? 0)%Z; [reflexivity|]. symmetry. apply Z.ltb_ge. assumption.
Qed.

Lemma div_by_settled prec c e k :
  (0 < prec)%Z -> settled prec (div_by prec (Fin false c e) k).
Proof.
  intros P. unfold div_by.
  destruct (c =? 0); [now apply fix_settled|].
  cbv zeta.
  match goal with |- context [if ?b then _ else _] => destruct b end.
  - match goal with |- context [to_ideal ?f ?q ?x] => destruct (to_ideal f q x) end.
    now apply fix_settled.
  - now apply fix_settled.
Qed.

Lemma settled_inv prec d :
  settled prec d -> exists c e, d = Fin false c e /\ (ndigits c <= prec)%Z.
Proof.
  destruct d as [s c e|]; [|contradiction]. intros [-> H]. eauto.
Qed.

Lemma mul_minus_one prec d :
  settled prec d -> mul prec d (Fin true 1 0) = negated d.
Proof.
  intros H. apply settled_inv in H as (c & e & -> & H).
  unfold mul, fix_. rewrite N.mul_1_r, Z.add_0_r.
  replace (prec <? ndigits c)%Z with false by (symmetry; apply Z.ltb_ge; assumption).
  reflexivity.
Qed.

Lemma quantize_negated prec a q :
  quantize prec (negated a) q = negated (quantize prec a q).
Proof.
  destruct a as [s c x|], q as [s0 c0 e|]; try reflexivity. simpl.
  destruct (c =? 0); [reflexivity|].
  destruct (prec <? ndigits c + x - e)%Z; [reflexivity|].
  match goal with |- context [(prec <? ndigits ?v)%Z] => destruct (prec <? ndigits v)%Z end;
    reflexivity.
Qed.

Lemma to_str_negated c e :
  to_str (Fin true c e) = 45 :: to_str (Fin false c e).
Proof. reflexivity. Qed.

Lemma head_ascii int :
  (1 <= length int)%nat -> forallb ascii_digit int = true -> unsigned int.
Proof.
  destruct int as [|c t]; simpl; [lia|]. intros _ H.
  now apply andb_true_iff in H.
Qed.

Lemma to_str_unsigned c p :
  (p <= 6)%nat -> unsigned (to_str (Fin false c (- Z.of_nat p))).
Proof.
  intros Hp. unfold to_str.
  pose proof (digits_nonempty c) as HL. pose proof (digits_ascii c) as HA.
  set (int := digits c) in *. set (L := length int) in *.
  replace ((- Z.of_nat p <=? 0)%Z && (-6 <? - Z.of_nat p + Z.of_nat L)%Z)%bool
    with true
    by (symmetry; apply andb_true_iff; split; [apply Z.leb_le | apply Z.ltb_lt]; lia).
  cbn [app].
  destruct (- Z.of_nat p + Z.of_nat L <=? 0)%Z eqn:E1; [reflexivity|].
  apply Z.leb_gt in E1.
  destruct (Z.of_nat L <=? - Z.of_nat p + Z.of_nat L)%Z eqn:E2.
  - unfold L in HL. destruct int as [|x t]; [simpl in HL; lia|].
    simpl in HA. apply andb_true_iff in HA as [HA _]. exact HA.
  - apply Z.leb_gt in E2.
    replace (Z.to_nat (- Z.of_nat p + Z.of_nat L)) with (S (L - p - 1)) by lia.
    unfold L in HL. destruct int as [|x t]; [simpl in HL; lia|].
    simpl in HA. apply andb_true_iff in HA as [HA _]. exact HA.
Qed.


Lemma coordinate_settled prec c1 e1 c2 e2 c3 e3 k :
  (0 < prec)%Z ->
  settled prec (add prec (Fin false c1 e1)
                  (div_by prec (add prec (Fin false c2 e2)
                                  (div_by prec (Fin false c3 e3) k)) 60)).
Proof.
  intros P.
  destruct (settled_inv _ _ (div_by_settled prec c3 e3 k P)) as (c & e & -> & _).
  destruct (settled_inv _ _ (add_settled prec c2 e2 c e P)) as (c' & e' & -> & _).
  destruct (settled_inv _ _ (div_by_settled prec c' e' 60 P)) as (c'' & e'' & -> & _).
  now apply add_settled.
Qed.

(** The rendering of a coordinate: the hemisphere letter puts a minus sign
    before the numeral and changes nothing else. *)
Lemma rendered_sign (dir : option str) (letter : string) v B p :
  (B * 1000000 < 1000000000)%N -> (p <= 6)%nat ->
  below v B -> settled ExtendedContext v ->
  let ctx := ExtendedContext in
  let q := Fin false 1 (- Z.of_nat p) in
  exists a,
    to_str (quantize ctx v q) = a /\ unsigned a /\ fixed_point p a
    /\ to_str (quantize ctx (if is_str dir letter then mul ctx v minus_one else v) q)
       = (if is_str dir letter then 45 :: a else a).
Proof.
  intros HB Hp Hv Hs ctx q.
  destruct (@rendered_below None letter v B p false 1%N HB Hp Hv)
    as (s & c & x & c' & E & _ & Q & F).
  cbn [is_str] in E, Q. subst v. destruct Hs as [-> Hd].
  exists (to_str (Fin false c' (- Z.of_nat p))).
  unfold q, ctx. rewrite Q.
  split; [reflexivity|]. split; [now apply to_str_unsigned|]. split; [assumption|].
  destruct (is_str dir letter); [|now rewrite Q].
  unfold minus_one. rewrite mul_minus_one by (split; [reflexivity | assumption]).
  rewrite quantize_negated, Q. reflexivity.
Qed.

End SignFacts.

Module HemisphereFacts.
Import ConvertFacts SignFacts.

(** The hemispheres put a minus sign before a coordinate and change nothing
    else of the conversion. *)
Lemma convert_sign latdir latdeg latmin latsec longdir longdeg longmin longsec :
  numeral 90 latdeg -> numeral 60 latmin -> numeral 100 latsec ->
  numeral 180 longdeg -> numeral 60 longmin -> numeral 100 longsec ->
  exists a b,
    _convert_to_lat_lng None (Some latdeg) latmin latsec
                        None (Some longdeg) longmin longsec = Ok (a, b)
    /\ unsigned a /\ unsigned b
    /\ _convert_to_lat_lng latdir (Some latdeg) latmin latsec
                           longdir (Some longdeg) longmin longsec
       = Ok (if is_str latdir "S" then 45%N :: a else a,
             if is_str longdir "W" then 45%N :: b else b).
Proof.
  intros (c1 & e1 & P1 & B1) (c2 & e2 & P2 & B2) (c3 & e3 & P3 & B3)
         (c4 & e4 & P4 & B4) (c5 & e5 & P5 & B5) (c6 & e6 & P6 & B6).
  destruct (precision_of_places latmin latsec longmin longsec) as [Hprec Hp].
  set (p := places latmin latsec longmin longsec) in *.
  set (divisor := if (Dec.gt_int (Dec.Fin false c3 e3) 59
                      || Dec.gt_int (Dec.Fin false c6 e6) 59)%bool
                  then 100%positive else 60%positive).
  assert (P : (0 < Dec.ExtendedContext)%Z) by reflexivity.
  pose proof (@coordinate_below _ _ _ 90 divisor ltac:(reflexivity) B1 B2 B3) as Vlat.
  pose proof (@coordinate_below _ _ _ 180 divisor ltac:(reflexivity) B4 B5 B6) as Vlong.
  cbv zeta in Vlat, Vlong.
  pose proof (coordinate_settled _ c1 e1 c2 e2 c3 e3 divisor P) as Slat.
  pose proof (coordinate_settled _ c4 e4 c5 e5 c6 e6 divisor P) as Slong.
  destruct (rendered_sign latdir "S" _ (90 + 160)%N p ltac:(reflexivity) Hp Vlat Slat)
    as (a & A1 & A2 & _ & A3).
  destruct (rendered_sign longdir "W" _ (180 + 160)%N p ltac:(reflexivity) Hp Vlong Slong)
    as (b & B1' & B2' & _ & B3').
  exists a, b.
  unfold _convert_to_lat_lng, Decimal_untrapped, bind.
  rewrite P1, P2, P3, P4, P5, P6, Hprec.
  unfold divisor in A1, A3, B1', B3'. cbn [is_str].
  destruct (Dec.gt_int (Dec.Fin false c3 e3) 59 || Dec.gt_int (Dec.Fin false c6 e6) 59)%bool;
    rewrite A1, A3, B1', B3'; auto.
Qed.

End HemisphereFacts.

(** X10: for every match of the degree-minute-second grammar, the
    hemispheres decide the sign and nothing else: the converted latitude is
    the numeral converted without hemisphere, which begins with a digit, with
    a minus sign before it exactly when the hemisphere is "S", and likewise
    the longitude for "W". A zero in the southern or western hemisphere is
    written with the minus sign as well. *)
Theorem hemisphere_only_sets_the_sign :
  forall n s m,
    Re.match_at Parser.degree_min_sec_re n s = Some m ->
    let f := _cleanup (Re.groupdict m) in
    exists a b,
      _convert_to_lat_lng None (f_latdeg f) (f_latmin f) (f_latsec f)
                          None (f_longdeg f) (f_longmin f) (f_longsec f) = Ok (a, b)
      /\ unsigned a /\ unsigned b
      /\ convert_fields f
         = Ok (if is_str (f_latdir f) "S" then 45%N :: a else a,
               if is_str (f_longdir f) "W" then 45%N :: b else b).
Proof.
  intros n s m H f.
  destruct (@MatchFacts.dms_degrees n s m H) as (latdeg & longdeg & E1 & E2).
  pose proof (fun g P w C => @WordFacts.match_captures g P _ n s m w C H) as K.
  destruct (@ConvertFacts.cleanup_fields (Re.groupdict m)
              (fun w => K "latmin"%string _ w DmsFacts.dms_latmin)
              (fun w => K "longmin"%string _ w DmsFacts.dms_longmin)
              (fun w => K "latsec"%string _ w DmsFacts.dms_latsec)
              (fun w => K "longsec"%string _ w DmsFacts.dms_longsec)
              (fun w => K "latdecsec"%string _ w DmsFacts.dms_latdecsec)
              (fun w => K "longdecsec"%string _ w DmsFacts.dms_longdecsec))
    as (N1 & N2 & N3 & N4).
  unfold convert_fields. fold f in N1, N2, N3, N4 |- *.
  destruct (@ScanFacts.cleanup_degrees (Re.groupdict m)) as [D1 D2].
  fold f in D1, D2. rewrite D1, D2, E1, E2.
  apply HemisphereFacts.convert_sign; try assumption.
  - apply ConvertFacts.whole_numeral, (K "latdeg"%string _ latdeg DmsFacts.dms_latdeg E1).
  - apply ConvertFacts.whole_numeral, (K "longdeg"%string _ longdeg DmsFacts.dms_longdeg E2).
Qed.

Lemma hemisphere_only_sets_the_sign_witness :
  exists m a b,
    Re.match_at Parser.degree_min_sec_re 0 (u "00 00 S 000 00 W") = Some m
    /\ unsigned a /\ unsigned b
    /\ convert_fields (_cleanup (Re.groupdict m)) = Ok (45%N :: a, 45%N :: b).
Proof.
  eexists ?[m].
  assert (H : Re.match_at Parser.degree_min_sec_re 0 (u "00 00 S 000 00 W") = Some ?m)
    by (vm_compute; reflexivity).
  destruct (@hemisphere_only_sets_the_sign 0 (u "00 00 S 000 00 W") _ H)
    as (a & b & _ & U1 & U2 & E).
  exists a, b. split; [exact H|]. split; [exact U1|]. split; [exact U2|]. exact E.
Defined.

(** ** White space around the text *)

Module PaddingFacts.

Lemma lstrip_spaces p s :
  forallb Unicode.isspace p = true -> lstrip (p ++ s) = lstrip s.
Proof.
  induction p as [|c p IH]; simpl; [reflexivity|].
  intros H. apply andb_true_iff in H as [H1 H2]. rewrite H1. auto.
Qed.

Lemma lstrip_app s q :
  lstrip s <> [] -> lstrip (s ++ q) = lstrip s ++ q.
Proof.
  induction s as [|c s IH]; simpl; [congruence|].
  destruct (Unicode.isspace c); auto.
Qed.

Lemma lstrip_nil s : lstrip s = [] -> forallb Unicode.isspace s = true.
Proof.
  induction s as [|c s IH]; simpl; [reflexivity|].
  destruct (Unicode.isspace c); [auto | discriminate].
Qed.

Lemma strip_padding p s q :
  forallb Unicode.isspace p = true -> forallb Unicode.isspace q = true ->
  strip (p ++ s ++ q) = strip s.
Proof.
  intros Hp Hq. unfold strip. rewrite (lstrip_spaces _ _ Hp).
  assert (Hr : forallb Unicode.isspace (rev q) = true).
  { apply forallb_forall. intros x Hx. apply in_rev in Hx.
    exact (proj1 (forallb_forall _ _) Hq x Hx). }
  destruct (lstrip s) as [|c t] eqn:E.
  - apply lstrip_nil in E.
    assert (F : lstrip (s ++ q) = []).
    { rewrite (lstrip_spaces _ _ E).
      pose proof (lstrip_spaces q [] Hq) as G. now rewrite app_nil_r in G. }
    now rewrite F.
  - rewrite lstrip_app by (rewrite E; discriminate).
    rewrite E, rev_app_distr, (lstrip_spaces _ _ Hr). reflexivity.
Qed.

Lemma normalize_padding p s q :
  forallb Unicode.isspace p = true -> forallb Unicode.isspace q = true ->
  _normalize_string (p ++ s ++ q) = _normalize_string s.
Proof.
  intros Hp Hq. unfold _normalize_string, normalize_with.
  now rewrite strip_padding.
Qed.

End PaddingFacts.

(** X11: white space before and after the text changes neither the result
    of [replace] nor that of [get_replacements]: both normalize the text
    before they match it. *)
Theorem surrounding_white_space_is_ignored :
  forall (sub_function : MapLink -> str) p s q,
    forallb Unicode.isspace p = true -> forallb Unicode.isspace q = true ->
    replace sub_function (p ++ s ++ q) = replace sub_function s
    /\ get_replacements sub_function (p ++ s ++ q) = get_replacements sub_function s.
Proof.
  intros f p s q Hp Hq. unfold replace, get_replacements.
  now rewrite (PaddingFacts.normalize_padding p s q Hp Hq).
Qed.

Lemma surrounding_white_space_is_ignored_witness :
  let sub_function (l : MapLink) := latitude l ++ u "," ++ longitude l in
  replace sub_function ([32; 9]%N ++ u "58N/077W" ++ [32; 10]%N)
  = replace sub_function (u "58N/077W").
Proof.
  exact (proj1 (@surrounding_white_space_is_ignored
                  (fun l => latitude l ++ u "," ++ longitude l)
                  [32; 9]%N (u "58N/077W") [32; 10]%N eq_refl eq_refl)).
Defined.

(** X12: when the decimal-degree grammar does not match the text,
    [replace] and [retrieve_lat_long] agree: if [retrieve_lat_long] returns a
    pair, [replace] returns the link built from the normalized text and this
    pair; if it raises, [replace] returns the normalized text unchanged. *)
Theorem replace_agrees_with_retrieve_lat_long :
  forall (sub_function : MapLink -> str) s,
    Re.re_match Parser.decimal_degree_re s = None ->
    match retrieve_lat_long s with
    | Ok (lat, long) =>
        replace sub_function s
        = Ok (sub_function (mkMapLink (_normalize_string s) lat long))
    | Raise _ => replace sub_function s = Ok (_normalize_string s)
    end.
Proof.
  intros f s E. unfold retrieve_lat_long, replace. rewrite E.
  rewrite (@ScanFacts.re_sub_anchored _ ScanFacts.dms_later), ReFacts.re_match_at.
  destruct (Re.match_at Parser.degree_min_sec_re 0 (_normalize_string s)) as [m|] eqn:M;
    [|reflexivity].
  destruct (@ScanFacts.dms_match_trimmed _ _ (ScanFacts.normalize_trimmed s) M)
    as (H1 & H2 & H3).
  destruct (@ScanFacts.dms_match_converts _ _ _ M) as (lat & long & C).
  unfold do_replace. rewrite C, H2, H3. cbn [bind fst snd].
  now rewrite skipn_all, app_nil_r.
Qed.

Lemma replace_agrees_with_retrieve_lat_long_witness :
  let sub_function (l : MapLink) := latitude l ++ u "," ++ longitude l in
  Re.re_match Parser.decimal_degree_re (u "58147N/07720W") = None
  /\ match retrieve_lat_long (u "58147N/07720W") with
     | Ok (lat, long) =>
         replace sub_function (u "58147N/07720W")
         = Ok (sub_function (mkMapLink (_normalize_string (u "58147N/07720W")) lat long))
     | Raise _ => replace sub_function (u "58147N/07720W")
                  = Ok (_normalize_string (u "58147N/07720W"))
     end.
Proof.
  intros sub_function.
  assert (H : Re.re_match Parser.decimal_degree_re (u "58147N/07720W") = None)
    by (vm_compute; reflexivity).
  split; [exact H|].
  exact (@replace_agrees_with_retrieve_lat_long sub_function (u "58147N/07720W") H).
Defined.

(** ** The precision of a match *)

Module PrecisionFacts.
Import Re.

Lemma took_part_false m g : took_part m g = false -> groupdict m g = None.
Proof.
  unfold took_part, isset, groupdict. now destruct (lookup g (m_groups m)).
Qed.

Lemma took_part_true m g : took_part m g = true -> exists w, groupdict m g = Some w.
Proof.
  unfold took_part, isset, groupdict. destruct (lookup g (m_groups m)); [eauto | discriminate].
Qed.

(** Minutes with a decimal fraction are not the string "00". *)
Lemma fraction_not_00 (x t : str) :
  x <> [] -> fraction t -> str_eqb (x ++ t) (u "00") = false.
Proof.
  intros Hx (fp & -> & _).
  destruct x as [|a [|b x]]; [congruence | |].
  - simpl. now rewrite andb_false_r.
  - simpl. destruct x; simpl; now rewrite !andb_false_r.
Qed.

Lemma or_default_nonempty x d : u d <> [] -> or_default x d <> [].
Proof.
  intros H. unfold or_default. destruct x as [[|c t]|]; simpl; auto; discriminate.
Qed.

End PrecisionFacts.

(** X13: the precision of a converted match follows from what the match
    holds: without minutes both coordinates are written as integers, and
    with a decimal fraction of the minutes on both sides they are written
    with three decimal places. *)
Theorem precision_follows_the_match :
  forall n s m,
    Re.match_at Parser.degree_min_sec_re n s = Some m ->
    let f := _cleanup (Re.groupdict m) in
    let p := places (f_latmin f) (f_latsec f) (f_longmin f) (f_longsec f) in
    (took_part m "latmin" = false -> p = 0)
    /\ (took_part m "latdecsec" = true -> took_part m "longdecsec" = true -> p = 3).
Proof.
  intros n s m H f p. split.
  - intros M.
    pose (check := fun v =>
      (Flow.mem "latmin" v
       || negb (Flow.mem "longmin" v || Flow.mem "latsec" v || Flow.mem "longsec" v
                || Flow.mem "latdecsec" v || Flow.mem "longdecsec" v))%bool).
    destruct (@FlowFacts.match_outcome dms_groups Parser.degree_min_sec_re
                check n s m) as (v & C & A);
      [vm_compute; reflexivity | exact H |].
    assert (E : took_part m "longmin" = false /\ took_part m "latsec" = false
                /\ took_part m "longsec" = false /\ took_part m "latdecsec" = false
                /\ took_part m "longdecsec" = false).
    { revert M. GroupFacts.settle A. unfold check in C.
      destruct (Flow.mem "latmin" v), (Flow.mem "longmin" v), (Flow.mem "latsec" v),
        (Flow.mem "longsec" v), (Flow.mem "latdecsec" v), (Flow.mem "longdecsec" v);
        try discriminate C; auto; discriminate. }
    destruct E as (E1 & E2 & E3 & E4 & E5).
    apply PrecisionFacts.took_part_false in M, E1, E2, E3, E4, E5.
    unfold p, f, _cleanup. rewrite M, E1, E2, E3, E4, E5. reflexivity.
  - intros D1 D2.
    apply PrecisionFacts.took_part_true in D1 as (w1 & D1), D2 as (w2 & D2).
    pose proof (@WordFacts.match_captures _ _ _ n s m w1 DmsFacts.dms_latdecsec H D1) as F1.
    pose proof (@WordFacts.match_captures _ _ _ n s m w2 DmsFacts.dms_longdecsec H D2) as F2.
    assert (T1 : truthy (Some w1) = true) by (destruct F1 as (fp & -> & _); reflexivity).
    assert (T2 : truthy (Some w2) = true) by (destruct F2 as (fp & -> & _); reflexivity).
    unfold p, f, _cleanup. rewrite D1, D2, T1, T2.
    cbn [andb f_latmin f_latsec f_longmin f_longsec]. unfold places.
    change (str_eqb (u "00") (u "00")) with true. cbn [negb orb].
    assert (Z : forall w, fraction w -> truthy (Some w) = true -> or_default (Some w) "" = w).
    { intros [|c t] _ T; [discriminate T | reflexivity]. }
    rewrite (Z w1 F1 T1), (Z w2 F2 T2).
    rewrite PrecisionFacts.fraction_not_00;
      [reflexivity | now apply PrecisionFacts.or_default_nonempty | assumption].
Qed.

Lemma precision_follows_the_match_witness :
  exists m,
    Re.match_at Parser.degree_min_sec_re 0 (u "58N/077W") = Some m
    /\ took_part m "latmin" = false
    /\ (let f := _cleanup (Re.groupdict m) in
        places (f_latmin f) (f_latsec f) (f_longmin f) (f_longsec f) = 0).
Proof.
  eexists ?[m].
  assert (H : Re.match_at Parser.degree_min_sec_re 0 (u "58N/077W") = Some ?m)
    by (vm_compute; reflexivity).
  split; [exact H|].
  split; [vm_compute; reflexivity|].
  refine (proj1 (@precision_follows_the_match 0 (u "58N/077W") _ H) _).
  vm_compute. reflexivity.
Defined.

(** ** The ranges of the fields *)

Module RangeFacts.
Import Re WordFacts ShapeFacts DmsFacts.

(** The decimal fraction of the minutes: a point and one to three digits. *)
Lemma words_decsec_length w :
  words (Seq Parser.dot (Rep 1%nat (Some 3%nat) Unicode.isdigit)) w ->
  fraction w /\ 2 <= length w <= 4.
Proof.
  intros H. split; [now apply words_decsec|].
  destruct H as (w1 & fp & -> & H1 & (_ & L1 & L2)). apply words_char in H1. subst.
  simpl in *. lia.
Qed.

Lemma dms_latdecsec_length :
  captures "latdecsec" (fun w => fraction w /\ 2 <= length w <= 4) Parser.degree_min_sec_re.
Proof. walk words_decsec_length. Qed.

Lemma dms_longdecsec_length :
  captures "longdecsec" (fun w => fraction w /\ 2 <= length w <= 4) Parser.degree_min_sec_re.
Proof. walk words_decsec_length. Qed.

End RangeFacts.

(** X14: in every match of the degree-minute-second grammar the numeric
    groups hold numerals within the ranges of the grammar: the degrees of
    the latitude are digits of a value up to 90, those of the longitude up
    to 180, the minutes up to 59; the seconds are one or two digits (a value
    up to 99, so above 59 as well) with an optional point and digits; a
    decimal fraction of the minutes is a point and one to three digits. *)
Theorem grammar_bounds_the_fields :
  forall n s m,
    Re.match_at Parser.degree_min_sec_re n s = Some m ->
    (exists w, Re.groupdict m "latdeg" = Some w /\ whole 90 w)
    /\ (exists w, Re.groupdict m "longdeg" = Some w /\ whole 180 w)
    /\ (forall w, Re.groupdict m "latmin" = Some w -> whole 59 w)
    /\ (forall w, Re.groupdict m "longmin" = Some w -> whole 59 w)
    /\ (forall w, Re.groupdict m "latsec" = Some w -> seconds_numeral w)
    /\ (forall w, Re.groupdict m "longsec" = Some w -> seconds_numeral w)
    /\ (forall w, Re.groupdict m "latdecsec" = Some w -> fraction w /\ 2 <= length w <= 4)
    /\ (forall w, Re.groupdict m "longdecsec" = Some w -> fraction w /\ 2 <= length w <= 4).
Proof.
  intros n s m H.
  destruct (@MatchFacts.dms_degrees n s m H) as (latdeg & longdeg & E1 & E2).
  pose proof (fun g P w C => @WordFacts.match_captures g P _ n s m w C H) as K.
  split; [exists latdeg; split; [exact E1 | exact (K _ _ _ DmsFacts.dms_latdeg E1)]|].
  split; [exists longdeg; split; [exact E2 | exact (K _ _ _ DmsFacts.dms_longdeg E2)]|].
  split; [intros w; apply (K _ _ _ DmsFacts.dms_latmin)|].
  split; [intros w; apply (K _ _ _ DmsFacts.dms_longmin)|].
  split; [intros w; apply (K _ _ _ DmsFacts.dms_latsec)|].
  split; [intros w; apply (K _ _ _ DmsFacts.dms_longsec)|].
  split; intros w; [apply (K _ _ _ RangeFacts.dms_latdecsec_length)
                   | apply (K _ _ _ RangeFacts.dms_longdecsec_length)].
Qed.

Lemma grammar_bounds_the_fields_witness :
  exists m w,
    Re.match_at Parser.degree_min_sec_re 0 (u "58147N/07720W") = Some m
    /\ Re.groupdict m "latdeg" = Some w /\ whole 90 w.
Proof.
  eexists ?[m].
  assert (H : Re.match_at Parser.degree_min_sec_re 0 (u "58147N/07720W") = Some ?m)
    by (vm_compute; reflexivity).
  destruct (proj1 (@grammar_bounds_the_fields 0 (u "58147N/07720W") _ H)) as (w & E & W).
  exists w. split; [exact H|]. split; [exact E | exact W].
Defined.

(** ** Decimal degrees with a decimal point *)

Module PassFacts.
Import Dec DecFacts NumeralFacts SignFacts.
Local Open Scope N_scope.

(** A numeral with a point and up to six decimals, read and written back,
    with or without a change of sign in the default context: the same
    number of decimals in fixed-point notation. *)
Lemma fraction_passes B (ip fp : str) (flip : bool) :
  whole B ip -> B < 1000 -> forallb Unicode.isdigit fp = true -> (length fp <= 6)%nat ->
  exists d,
    of_str (ip ++ 46 :: fp) = Some d
    /\ fixed_point (length fp)
         (to_str (if flip then mul DefaultContext d minus_one else d)).
Proof.
  intros (Hne & H & HB) HB' F L.
  eexists. split; [now apply of_str_fraction|].
  destruct flip; [|now apply to_str_fixed_point].
  unfold minus_one. rewrite mul_minus_one.
  - now apply to_str_fixed_point.
  - split; [reflexivity|].
    apply digits_below; [|unfold DefaultContext; lia].
    rewrite number_of_app, (values_length _ F).
    pose proof (number_of_lt _ (values_le fp)) as V. rewrite (values_length _ F) in V.
    assert (P6 : 10 ^ N.of_nat (length fp) <= 10 ^ 6) by (apply N.pow_le_mono_r; lia).
    change (pow10 DefaultContext) with (10 ^ 28).
    change (10 ^ 6) with 1000000 in P6. change (10 ^ 28) with 10000000000000000000000000000.
    nia.
Qed.

Lemma decimals_fraction (ip fp : str) :
  forallb Unicode.isdigit ip = true -> decimals (ip ++ 46 :: fp) = length fp.
Proof.
  induction ip as [|c ip IH]; intros H; [reflexivity|].
  simpl in H. apply andb_true_iff in H as [H1 H2]. simpl.
  apply isdigit_cases in H1. rewrite eqc_out by lia. auto.
Qed.

End PassFacts.

(** X15: when the decimal-degree grammar matches and both coordinates have
    a decimal point followed by up to six digits, [retrieve_lat_long]
    returns a pair, and each coordinate comes back in fixed-point notation
    with as many digits after the point as it has in the text, whether its
    sign is changed or not. *)
Theorem decimal_degrees_keep_their_decimals :
  forall s m,
    Re.re_match Parser.decimal_degree_re s = Some m ->
    took_part m "latpoint" = true -> took_part m "longpoint" = true ->
    exists lat long,
      Re.groupdict m "latitude" = Some lat
      /\ Re.groupdict m "longitude" = Some long
      /\ (decimals lat <= 6 -> decimals long <= 6 ->
          exists la lo,
            retrieve_lat_long s = Ok (la, lo)
            /\ Dec.fixed_point (decimals lat) la /\ Dec.fixed_point (decimals long) lo).
Proof.
  intros s m H P1 P2. unfold retrieve_lat_long. rewrite H.
  rewrite ReFacts.re_match_at in H.
  apply ReFacts.match_at_sound in H as (st & H & G & _).
  unfold took_part in P1, P2. rewrite G in P1, P2.
  destruct (DecimalDegreeFacts.latitude_with_point _ _ H eq_refl P1)
    as (ip1 & fp1 & L1 & W1 & F1).
  destruct (DecimalDegreeFacts.longitude_with_point _ _ H eq_refl P2)
    as (ip2 & fp2 & L2 & W2 & F2).
  exists (ip1 ++ 46%N :: fp1), (ip2 ++ 46%N :: fp2). unfold Re.groupdict. rewrite G.
  split; [assumption|]. split; [assumption|].
  rewrite (PassFacts.decimals_fraction ip1 fp1 (proj1 (proj2 W1))).
  rewrite (PassFacts.decimals_fraction ip2 fp2 (proj1 (proj2 W2))).
  intros K1 K2. unfold _convert_signs. rewrite L1, L2.
  unfold Decimal_trapped.
  match goal with
  | |- context [bind _ (fun latitude => bind _ (fun longitude =>
         Ok (Dec.to_str (if ?b1 then _ else _), Dec.to_str (if ?b2 then _ else _))))] =>
      destruct (PassFacts.fraction_passes 90 ip1 fp1 b1 W1 ltac:(reflexivity) F1 K1)
        as (d1 & -> & R1);
      destruct (PassFacts.fraction_passes 180 ip2 fp2 b2 W2 ltac:(reflexivity) F2 K2)
        as (d2 & -> & R2)
  end.
  cbn [bind]. eauto.
Qed.

Lemma decimal_degrees_keep_their_decimals_witness :
  exists la lo,
    retrieve_lat_long (u "43.897481, -80.051911") = Ok (la, lo)
    /\ Dec.fixed_point 6 la /\ Dec.fixed_point 6 lo.
Proof.
  let v := eval vm_compute in
             (Re.re_match Parser.decimal_degree_re (u "43.897481, -80.051911")) in
  match v with
  | Some ?M =>
      assert (H : Re.re_match Parser.decimal_degree_re (u "43.897481, -80.051911") = Some M)
        by (vm_compute; reflexivity);
      destruct (@decimal_degrees_keep_their_decimals _ M H eq_refl eq_refl)
        as (lat & long & E1 & E2 & K)
  end.
  vm_compute in E1, E2. injection E1 as <-. injection E2 as <-.
  apply K; vm_compute; lia.
Defined.

(** ** No match *)

(** C4, as the claim states it, fails, whichever form of the text the two
    grammars are asked about. " 58N/077W" (with a leading space) is matched
    by neither grammar as it is given, yet [retrieve_lat_long] returns a
    pair: it normalizes the text before it tries the degree-minute-second
    grammar. The normalized form of "52.5 43 " (with a trailing space) is
    matched by neither grammar, yet [retrieve_lat_long] returns a pair: it
    tries the decimal-degree grammar on the text as given, where the space
    ends the longitude. *)
Lemma unrecognized_text_is_converted :
  (Re.re_match Parser.decimal_degree_re (32%N :: u "58N/077W") = None
   /\ Re.re_match Parser.degree_min_sec_re (32%N :: u "58N/077W") = None
   /\ retrieve_lat_long (32%N :: u "58N/077W") = Ok (u "58", u "-77"))
  /\ (_normalize_string (u "52.5 43 ") = u "52.5 43"
      /\ Re.re_match Parser.decimal_degree_re (u "52.5 43") = None
      /\ Re.re_match Parser.degree_min_sec_re (u "52.5 43") = None
      /\ retrieve_lat_long (u "52.5 43 ") = Ok (u "52.5", u "43")).
Proof.
  repeat split; vm_compute; reflexivity.
Qed.

(** C4, amended: [retrieve_lat_long] asks the decimal-degree grammar about
    the text as given and the degree-minute-second grammar about the
    normalized text. It raises AttributeError, the failure of a missing
    match, if and only if neither of the two matches; it returns a pair only
    when one of the two matched, so it has no default pair. The two strings
    of the false-positive test are matched by neither grammar, as given or
    normalized and nowhere in the text, and [retrieve_lat_long] raises on
    them. *)
Theorem retrieve_lat_long_no_match_raises :
  (forall s,
      retrieve_lat_long s = Raise AttributeError
      <-> (Re.re_match Parser.decimal_degree_re s = None
           /\ Re.re_match Parser.degree_min_sec_re (_normalize_string s) = None))
  /\ (forall s pair,
        retrieve_lat_long s = Ok pair ->
        (exists m, Re.re_match Parser.decimal_degree_re s = Some m)
        \/ (exists m, Re.re_match Parser.degree_min_sec_re (_normalize_string s) = Some m))
  /\ Forall (fun s => _normalize_string s = s
                      /\ Re.finditer Parser.decimal_degree_re s = []
                      /\ Re.finditer Parser.degree_min_sec_re s = []
                      /\ retrieve_lat_long s = Raise AttributeError)
            [u "GGN7383 was"; u "6830N 70W"].
Proof.
  split; [|split].
  - intros s. unfold retrieve_lat_long. split.
    + destruct (Re.re_match Parser.decimal_degree_re s) as [m|] eqn:E1.
      * rewrite ReFacts.re_match_at in E1.
        destruct (DecimalDegreeFacts.convert_signs_of_match _ _ _ E1)
          as [(pair & ->) | (-> & _)]; discriminate.
      * destruct (Re.re_match Parser.degree_min_sec_re (_normalize_string s))
          as [m|] eqn:E2; [|auto].
        rewrite ReFacts.re_match_at in E2.
        destruct (@ScanFacts.dms_match_converts _ _ _ E2) as (lat & long & ->).
        discriminate.
    + intros [-> ->]. reflexivity.
  - intros s pair. unfold retrieve_lat_long.
    destruct (Re.re_match Parser.decimal_degree_re s) as [m|]; [left; eauto|].
    destruct (Re.re_match Parser.degree_min_sec_re (_normalize_string s)) as [m|];
      [right; eauto | discriminate].
  - repeat constructor; vm_compute; reflexivity.
Qed.

Lemma retrieve_lat_long_no_match_raises_witness :
  Re.re_match Parser.decimal_degree_re (u "6830N 70W") = None
  /\ Re.re_match Parser.degree_min_sec_re (_normalize_string (u "6830N 70W")) = None
  /\ retrieve_lat_long (u "6830N 70W") = Raise AttributeError.
Proof.
  assert (H : Re.re_match Parser.decimal_degree_re (u "6830N 70W") = None
              /\ Re.re_match Parser.degree_min_sec_re (_normalize_string (u "6830N 70W"))
                 = None)
    by (split; vm_compute; reflexivity).
  split; [exact (proj1 H)|]. split; [exact (proj2 H)|].
  exact (proj2 (proj1 retrieve_lat_long_no_match_raises (u "6830N 70W")) H).
Defined.

(** ** A coordinate without direction or sign *)

Module UnsetFacts.



(** The hemisphere of one coordinate after [_cleanup], from its own three
    groups alone. *)
Lemma cleanup_latdir parts :
  f_latdir (_cleanup parts)
  = match py_or (parts "latdir"%string) (parts "latdir2"%string) with
    | Some (c :: t) => Some (upper0 (c :: t))
    | d => match parts "latsign"%string with
           | Some v => if str_eqb v (u "-") then Some (u "S") else d
           | None => d
           end
    end.
Proof.
  unfold _cleanup. cbv zeta.
  destruct (truthy (parts "latdecsec"%string) && truthy (parts "longdecsec"%string))%bool;
    cbn [f_latdir];
    destruct (py_or (parts "latdir"%string) (parts "latdir2"%string)) as [[|c t]|];
    reflexivity.
Qed.

Lemma cleanup_longdir parts :
  f_longdir (_cleanup parts)
  = match py_or (parts "longdir"%string) (parts "longdir2"%string) with
    | Some (c :: t) => Some (upper0 (c :: t))
    | d => match parts "longsign"%string with
           | Some v => if str_eqb v (u "-") then Some (u "W") else d
           | None => d
           end
    end.
Proof.
  unfold _cleanup. cbv zeta.
  destruct (truthy (parts "latdecsec"%string) && truthy (parts "longdecsec"%string))%bool;
    cbn [f_longdir];
    destruct (py_or (parts "longdir"%string) (parts "longdir2"%string)) as [[|c t]|];
    reflexivity.
Qed.

End UnsetFacts.



(** ** First and second position of a direction *)

(** C7, amended: on the decimal-degree path the first-position token decides
    the hemisphere, and a minus sign is such a token. For every match of
    the decimal-degree grammar: if one of the two numeric groups is no
    numeral, [retrieve_lat_long] raises InvalidOperation; otherwise it
    returns the pair of the two numbers, each negated or not by the first
    character of its first-position token alone, whatever stands in the
    second position, so that a leading minus negates even when a letter
    follows the number. The second-position token decides only when there
    is no first-position token, and with no token at all nothing is
    negated. The degree-minute-second path differs: there the sign is a
    group of its own, which [_cleanup] reads only when there is no direction
    token, so that a letter wins over a leading minus. *)
Theorem first_position_token_decides_hemisphere :
  (forall s m,
      Re.re_match Parser.decimal_degree_re s = Some m ->
      let parts := Re.groupdict m in
      let ctx := Dec.DefaultContext in
      let southern c := (str_eqb [Unicode.toupper c] (u "S")
                         || str_eqb [Unicode.toupper c] (u "-"))%bool in
      let western c := (str_eqb [Unicode.toupper c] (u "W")
                        || str_eqb [Unicode.toupper c] (u "-"))%bool in
      let flip (b : bool) d := Dec.to_str (if b then Dec.mul ctx d minus_one else d) in
      exists slat slong,
        parts "latitude"%string = Some slat /\ parts "longitude"%string = Some slong
        /\ (Dec.of_str slat = None \/ Dec.of_str slong = None ->
            retrieve_lat_long s = Raise InvalidOperation)
        /\ (forall dlat dlong,
              Dec.of_str slat = Some dlat -> Dec.of_str slong = Some dlong ->
              exists la lo,
                retrieve_lat_long s = Ok (la, lo)
                /\ (parts "latdir"%string = Some (u "-") -> la = flip true dlat)
                /\ (parts "longdir"%string = Some (u "-") -> lo = flip true dlong)
                /\ (forall c w, parts "latdir"%string = Some (c :: w) ->
                                la = flip (southern c) dlat)
                /\ (forall c w, parts "longdir"%string = Some (c :: w) ->
                                lo = flip (western c) dlong)
                /\ (forall c w, parts "latdir"%string = None ->
                                parts "latdir2"%string = Some (c :: w) ->
                                la = flip (southern c) dlat)
                /\ (forall c w, parts "longdir"%string = None ->
                                parts "longdir2"%string = Some (c :: w) ->
                                lo = flip (western c) dlong)
                /\ (parts "latdir"%string = None -> parts "latdir2"%string = None ->
                    la = flip false dlat)
                /\ (parts "longdir"%string = None -> parts "longdir2"%string = None ->
                    lo = flip false dlong)))
  /\ (forall (parts : string -> option str) c w,
        py_or (parts "latdir"%string) (parts "latdir2"%string) = Some (c :: w) ->
        f_latdir (_cleanup parts) = Some [Unicode.toupper c])
  /\ (forall (parts : string -> option str) c w,
        py_or (parts "longdir"%string) (parts "longdir2"%string) = Some (c :: w) ->
        f_longdir (_cleanup parts) = Some [Unicode.toupper c])
  /\ (exists m,
        Re.re_match Parser.degree_min_sec_re (u "-4530N/07720W") = Some m
        /\ Re.groupdict m "latsign"%string = Some (u "-")
        /\ Re.groupdict m "latdir2"%string = Some (u "N")
        /\ retrieve_lat_long (u "-4530N/07720W") = Ok (u "45.500", u "-77.333")).
Proof.
  split; [|split; [|split]].
  - intros s m H. cbv zeta.
    pose proof H as H'. rewrite ReFacts.re_match_at in H'.
    destruct (DecimalDegreeFacts.decimal_coordinates _ _ _ H') as (slat & slong & E1 & E2).
    exists slat, slong. split; [exact E1|]. split; [exact E2|].
    unfold retrieve_lat_long. rewrite H.
    unfold _convert_signs, Decimal_trapped, bind. rewrite E1, E2.
    split.
    + intros [F | F].
      * rewrite F. reflexivity.
      * rewrite F. destruct (Dec.of_str slat); reflexivity.
    + intros dlat dlong Hdlat Hdlong. rewrite Hdlat, Hdlong.
      eexists; eexists. split; [reflexivity|].
      repeat split.
      * intros F. rewrite F. reflexivity.
      * intros F. rewrite F. reflexivity.
      * intros c w F. rewrite F. reflexivity.
      * intros c w F. rewrite F. reflexivity.
      * intros c w F1 F2. rewrite F1, F2. reflexivity.
      * intros c w F1 F2. rewrite F1, F2. reflexivity.
      * intros F1 F2. rewrite F1, F2. reflexivity.
      * intros F1 F2. rewrite F1, F2. reflexivity.
  - intros parts c w F. rewrite UnsetFacts.cleanup_latdir, F. reflexivity.
  - intros parts c w F. rewrite UnsetFacts.cleanup_longdir, F. reflexivity.
  - eexists. split; [vm_compute; reflexivity|]. repeat split; vm_compute; reflexivity.
Qed.

Lemma first_position_token_decides_hemisphere_witness :
  (exists m la lo,
      Re.re_match Parser.decimal_degree_re (u "-59.59 N 43.50 E") = Some m
      /\ Re.groupdict m "latdir"%string = Some (u "-")
      /\ Re.groupdict m "latdir2"%string = Some (u "N")
      /\ retrieve_lat_long (u "-59.59 N 43.50 E") = Ok (la, lo)
      /\ la = u "-59.59")
  /\ (exists m,
        Re.re_match Parser.decimal_degree_re (u "-59" ++ 176%N :: u "N 43.5E") = Some m
        /\ Re.groupdict m "latdir"%string = Some (u "-")
        /\ Re.groupdict m "latdir2"%string = Some (u "N")
        /\ Re.groupdict m "latitude"%string = Some (u "59" ++ [176%N])
        /\ retrieve_lat_long (u "-59" ++ 176%N :: u "N 43.5E") = Raise InvalidOperation).
Proof.
  split.
  - eexists ?[m].
    assert (H : Re.re_match Parser.decimal_degree_re (u "-59.59 N 43.50 E") = Some ?m)
      by (vm_compute; reflexivity).
    destruct (proj1 first_position_token_decides_hemisphere (u "-59.59 N 43.50 E") _ H)
      as (slat & slong & E1 & E2 & _ & K).
    vm_compute in E1, E2. injection E1 as <-. injection E2 as <-.
    destruct (K (Dec.Fin false 5959 (-2)) (Dec.Fin false 4350 (-2))
                ltac:(vm_compute; reflexivity) ltac:(vm_compute; reflexivity))
      as (la & lo & R & Hminus & _).
    exists la, lo. split; [exact H|].
    split; [vm_compute; reflexivity|]. split; [vm_compute; reflexivity|].
    split; [exact R|].
    rewrite (Hminus ltac:(vm_compute; reflexivity)). vm_compute. reflexivity.
  - eexists ?[m].
    assert (H : Re.re_match Parser.decimal_degree_re (u "-59" ++ 176%N :: u "N 43.5E")
                = Some ?m) by (vm_compute; reflexivity).
    destruct (proj1 first_position_token_decides_hemisphere
                (u "-59" ++ 176%N :: u "N 43.5E") _ H)
      as (slat & slong & E1 & E2 & F & _).
    vm_compute in E1, E2. injection E1 as <-. injection E2 as <-.
    split; [exact H|].
    split; [vm_compute; reflexivity|]. split; [vm_compute; reflexivity|].
    split; [vm_compute; reflexivity|].
    apply F. left. vm_compute. reflexivity.
Defined.
